(** * A shallow embedding of the summarize tool (src/index.ts)

    The tool is a pure pipeline over JavaScript strings:
    analyze -> generate (mode dispatch) -> focus filter -> quotes -> stats ->
    format -> word limit, wrapped by the argument validation of [execute].

    - A JavaScript string is the list of its UTF-16 code units ([jsstring]),
      so [length] is the [.length] of the source.
    - Regular-expression literals are transcribed into a small syntax
      ([regex]) and run by a backtracking matcher with ECMAScript's
      priorities (greedy and lazy quantifiers, ordered alternation).
    - The Unicode case table behind [String.prototype.toLowerCase] belongs to
      the runtime, not to the repository: it is a parameter ([lower]) of
      every function that lowercases, instantiated with [asciiLower] where a
      statement is evaluated on ASCII text.
    - The file system and the clock are the two external inputs of
      [execute]; they are the fields of [Host]. *)

From Stdlib Require Import String Ascii ZArith NArith List Bool Lia Floats DecimalString.
From Stdlib Require Import Permutation Sorted.
Import ListNotations.
Open Scope list_scope.

Set Implicit Arguments.

(** ** JavaScript strings *)

Definition jsstring := list N.

Fixpoint js (s : string) : jsstring :=
  match s with
  | EmptyString => []
  | String c r => N_of_ascii c :: js r
  end.
Arguments js s%_string.

Definition str_eqb (a b : jsstring) : bool :=
  if list_eq_dec N.eq_dec a b then true else false.

(** JavaScript truthiness of a string value and of an optional one. *)
Definition truthy (s : jsstring) : bool :=
  match s with [] => false | _ => true end.

Definition truthy_opt (o : option jsstring) : bool :=
  match o with Some s => truthy s | None => false end.

Definition LF : N := 10.
Definition SPACE : N := 32.
Definition BULLET : N := 8226. (* U+2022 *)

(** WhiteSpace and LineTerminator code points of ECMAScript: the class [\s]
    and the characters removed by [trim]. *)
Definition isSpace (c : N) : bool :=
  ((9 <=? c) && (c <=? 13) || (c =? 32) || (c =? 160) || (c =? 5760)
   || (8192 <=? c) && (c <=? 8202) || (c =? 8232) || (c =? 8233)
   || (c =? 8239) || (c =? 8287) || (c =? 12288) || (c =? 65279))%N.

Definition isLineTerminator (c : N) : bool :=
  ((c =? 10) || (c =? 13) || (c =? 8232) || (c =? 8233))%N.

Definition isDigit (c : N) : bool := ((48 <=? c) && (c <=? 57))%N.
Definition isUpper (c : N) : bool := ((65 <=? c) && (c <=? 90))%N.
Definition isLower (c : N) : bool := ((97 <=? c) && (c <=? 122))%N.
Definition isWordChar (c : N) : bool :=
  isUpper c || isLower c || isDigit c || (c =? 95)%N.

Definition asciiLowerChar (c : N) : N := if isUpper c then (c + 32)%N else c.
Definition asciiUpperChar (c : N) : N := if isLower c then (c - 32)%N else c.

(** [toLowerCase] restricted to the Basic Latin letters. *)
Definition asciiLower (s : jsstring) : jsstring := map asciiLowerChar s.

Fixpoint startsWith (s p : jsstring) : bool :=
  match p, s with
  | [], _ => true
  | _ :: _, [] => false
  | a :: p', b :: s' => (a =? b)%N && startsWith s' p'
  end.

Definition endsWith (s p : jsstring) : bool := startsWith (rev s) (rev p).

(** [s.includes(sub)] *)
Fixpoint includes (s sub : jsstring) : bool :=
  startsWith s sub ||
  match s with
  | [] => false
  | _ :: s' => includes s' sub
  end.

Fixpoint trimStart (s : jsstring) : jsstring :=
  match s with
  | c :: s' => if isSpace c then trimStart s' else s
  | [] => []
  end.

Definition trim (s : jsstring) : jsstring :=
  rev (trimStart (rev (trimStart s))).

(** [parts.join(sep)] *)
Fixpoint join (sep : jsstring) (parts : list jsstring) : jsstring :=
  match parts with
  | [] => []
  | [p] => p
  | p :: rest => p ++ sep ++ join sep rest
  end.

(** [s.split(c)] for a one-character string separator. *)
Fixpoint splitChar (c : N) (s : jsstring) : list jsstring :=
  match s with
  | [] => [[]]
  | x :: s' =>
      if (x =? c)%N then [] :: splitChar c s'
      else match splitChar c s' with
           | cur :: rest => (x :: cur) :: rest
           | [] => [[x]]
           end
  end.

(** [arr.slice(0, e)], negative [e] counting from the end. *)
Definition slice0 {A} (l : list A) (e : Z) : list A :=
  if (e <? 0)%Z then firstn (Z.to_nat (Z.of_nat (length l) + e)) l
  else firstn (Z.to_nat e) l.

(** Decimal rendering of a non-negative integer, as in [`${n}`]. *)
Definition natToString (n : nat) : jsstring :=
  js (NilZero.string_of_uint (Nat.to_uint n)).

(** [arr.indexOf(x)] on an array of strings; [None] stands for -1. *)
Fixpoint indexOf (l : list jsstring) (x : jsstring) : option nat :=
  match l with
  | [] => None
  | y :: l' => if str_eqb y x then Some 0 else option_map S (indexOf l' x)
  end.

(** [[...new Set(arr)]]: first occurrences, in order. *)
Fixpoint dedup (l : list jsstring) (seen : list jsstring) : list jsstring :=
  match l with
  | [] => []
  | x :: l' => if existsb (str_eqb x) seen then dedup l' seen
               else x :: dedup l' (x :: seen)
  end.

(** ** Insertion-ordered maps ([Map<string, V>]) *)

Definition omap (V : Type) := list (jsstring * V).

Fixpoint mapGet {V} (m : omap V) (k : jsstring) : option V :=
  match m with
  | [] => None
  | (k', v) :: m' => if str_eqb k' k then Some v else mapGet m' k
  end.

(** [m.set(k, v)]: an existing key keeps its place in the iteration order. *)
Fixpoint mapSet {V} (m : omap V) (k : jsstring) (v : V) : omap V :=
  match m with
  | [] => [(k, v)]
  | (k', v') :: m' =>
      if str_eqb k' k then (k', v) :: m' else (k', v') :: mapSet m' k v
  end.

(** [arr.sort((a, b) => key(b) - key(a))]: stable, descending.  The elements
    are inserted from the last to the first, each one in front of the first
    element whose key is not larger, so equal keys keep their order. *)
Fixpoint insertDesc {A} (key : A -> Z) (x : A) (l : list A) : list A :=
  match l with
  | [] => [x]
  | y :: l' => if (key y <=? key x)%Z then x :: y :: l'
               else y :: insertDesc key x l'
  end.

Definition sortDesc {A} (key : A -> Z) (l : list A) : list A :=
  fold_right (insertDesc key) [] l.

(** ** Regular expressions

    The syntax covers what the literals of the source use.  [Chr p] is any
    one-character atom (a literal, a class, an escape such as [\d]); groups
    are numbered as in the literal.  No literal of the source has a group or
    an atom that can match the empty string under a quantifier. *)

Inductive regex : Type :=
| Eps
| Chr (p : N -> bool)
| Seq (r1 r2 : regex)
| Alt (r1 r2 : regex)
| Rep (r : regex) (lo : nat) (hi : option nat) (greedy : bool)
| Group (i : nat) (r : regex)
| Bol
| Eol
| WordB.

Declare Scope re_scope.
Delimit Scope re_scope with re.
Bind Scope re_scope with regex.
Infix ";;" := Seq (at level 61, right associativity) : re_scope.
Infix "<|>" := Alt (at level 62, right associativity) : re_scope.

Definition star (r : regex) : regex := Rep r 0 None true.
Definition plus (r : regex) : regex := Rep r 1 None true.
Definition opt (r : regex) : regex := Rep r 0 (Some 1) true.
Definition ch (c : string) : regex :=
  match js c with
  | x :: _ => Chr (N.eqb x)
  | [] => Eps
  end.
Arguments ch c%_string.
(** A literal run of characters. *)
Fixpoint lit (s : string) : regex :=
  match s with
  | EmptyString => Eps
  | String c EmptyString => Chr (N.eqb (N_of_ascii c))
  | String c r => Seq (Chr (N.eqb (N_of_ascii c))) (lit r)
  end.
Arguments lit s%_string.
(** [[...]] and [[^...]] over listed characters. *)
Definition oneOf (s : string) : N -> bool := fun c => existsb (N.eqb c) (js s).
Definition noneOf (s : string) : N -> bool := fun c => negb (oneOf s c).
Arguments oneOf s%_string.
Arguments noneOf s%_string.
Definition dot : regex := Chr (fun c => negb (isLineTerminator c)).
Definition anyChar : regex := Chr (fun _ => true). (* [\s\S] *)

(** The matcher state: the code unit before the current position (for [^]
    and [\b]) and the rest of the input. *)
Definition mstate : Type := option N * jsstring.
Definition caps : Type := list (nat * jsstring).
Definition mresult : Type := option (mstate * caps).

Definition orElse (a b : mresult) : mresult :=
  match a with Some _ => a | None => b end.

(** One-character test.  With the [i] flag a character matches when the
    class holds a character with the same canonical (upper-case) form; the
    classes of the source's [i] literals list Basic Latin characters only,
    and its one complemented class, the dot, excludes no letter. *)
Definition chrTest (ic : bool) (p : N -> bool) (c : N) : bool :=
  if ic then p c || p (asciiLowerChar c) || p (asciiUpperChar c) else p c.

Definition belowHi (cnt : nat) (hi : option nat) : bool :=
  match hi with Some h => cnt <? h | None => true end.

Definition isWordOpt (o : option N) : bool :=
  match o with Some c => isWordChar c | None => false end.

(** The iterations of a quantified atom [body]{lo,hi}: [cnt] iterations are
    done; the greedy form tries one more first, the lazy form tries to stop
    first.  Once [lo] is reached an iteration that consumes nothing is
    rejected, so [length input + lo + 1] turns are enough. *)
Fixpoint repLoop (body : mstate -> caps -> (mstate -> caps -> mresult) -> mresult)
    (lo : nat) (hi : option nat) (greedy : bool)
    (k : mstate -> caps -> mresult)
    (fuel cnt : nat) (st : mstate) (cs : caps) {struct fuel} : mresult :=
  let stop := if lo <=? cnt then k st cs else None in
  let more :=
    match fuel with
    | 0 => None
    | S fuel' =>
        if belowHi cnt hi then
          body st cs (fun st' cs' =>
            if (length (snd st') <? length (snd st)) || (cnt <? lo)
            then repLoop body lo hi greedy k fuel' (S cnt) st' cs'
            else None)
        else None
    end in
  if greedy then orElse more stop else orElse stop more.

Fixpoint rmatch (ic : bool) (r : regex) (st : mstate) (cs : caps)
    (k : mstate -> caps -> mresult) {struct r} : mresult :=
  match r with
  | Eps => k st cs
  | Chr p =>
      match snd st with
      | c :: rest => if chrTest ic p c then k (Some c, rest) cs else None
      | [] => None
      end
  | Seq a b => rmatch ic a st cs (fun st' cs' => rmatch ic b st' cs' k)
  | Alt a b => orElse (rmatch ic a st cs k) (rmatch ic b st cs k)
  | Rep a lo hi greedy =>
      repLoop (rmatch ic a) lo hi greedy k (length (snd st) + lo + 1) 0 st cs
  | Group i a =>
      rmatch ic a st cs (fun st' cs' =>
        k st' ((i, firstn (length (snd st) - length (snd st')) (snd st)) :: cs'))
  | Bol => match fst st with None => k st cs | Some _ => None end
  | Eol => match snd st with [] => k st cs | _ :: _ => None end
  | WordB =>
      if xorb (isWordOpt (fst st)) (isWordOpt (hd_error (snd st)))
      then k st cs else None
  end.

(** The capture of group [i] ([undefined] is [None]). *)
Fixpoint capture (cs : caps) (i : nat) : option jsstring :=
  match cs with
  | [] => None
  | (j, s) :: cs' => if Nat.eqb i j then Some s else capture cs' i
  end.

(** A match attempt at the current position. *)
Definition execAt (ic : bool) (r : regex) (st : mstate) : mresult :=
  rmatch ic r st [] (fun st' cs' => Some (st', cs')).

Record found : Type := Found {
  skipped : jsstring;   (* input before the match *)
  matched : jsstring;
  after : mstate;
  groups : caps
}.

(** The leftmost match at or after the current position. *)
Fixpoint search (ic : bool) (r : regex) (prev : option N) (rest : jsstring)
    : option found :=
  match execAt ic r (prev, rest) with
  | Some (st', cs) =>
      Some (Found [] (firstn (length rest - length (snd st')) rest) st' cs)
  | None =>
      match rest with
      | [] => None
      | c :: rest' =>
          match search ic r (Some c) rest' with
          | Some f => Some (Found (c :: skipped f) (matched f) (after f) (groups f))
          | None => None
          end
      end
  end.

(** [re.test(s)] for a literal without the [g] flag. *)
Definition test (ic : bool) (r : regex) (s : jsstring) : bool :=
  match search ic r None s with Some _ => true | None => false end.

(** [s.match(re)] for a literal without the [g] flag: the captures of the
    leftmost match, [None] for [null]. *)
Definition matchFirst (ic : bool) (r : regex) (s : jsstring) : option caps :=
  option_map groups (search ic r None s).

(** [s.match(re) || []] for a literal with the [g] flag: all matches, left to
    right; after an empty match the scan moves one code unit on. *)
Fixpoint matchAllFrom (fuel : nat) (ic : bool) (r : regex) (prev : option N)
    (rest : jsstring) : list jsstring :=
  match fuel with
  | 0 => []
  | S fuel' =>
      match search ic r prev rest with
      | None => []
      | Some f =>
          matched f ::
          match matched f, snd (after f) with
          | [], [] => []
          | [], c :: rest' => matchAllFrom fuel' ic r (Some c) rest'
          | _ :: _, _ => matchAllFrom fuel' ic r (fst (after f)) (snd (after f))
          end
      end
  end.

Definition matchAll (ic : bool) (r : regex) (s : jsstring) : list jsstring :=
  matchAllFrom (S (length s)) ic r None s.

(** [s.replace(re, ...)] for a literal with the [g] flag; [repl] builds the
    replacement from the match and its captures. *)
Fixpoint replaceAllFrom (fuel : nat) (ic : bool) (r : regex)
    (repl : jsstring -> caps -> jsstring) (prev : option N) (rest : jsstring)
    : jsstring :=
  match fuel with
  | 0 => rest
  | S fuel' =>
      match search ic r prev rest with
      | None => rest
      | Some f =>
          skipped f ++ repl (matched f) (groups f) ++
          match matched f, snd (after f) with
          | [], [] => []
          | [], c :: rest' => c :: replaceAllFrom fuel' ic r repl (Some c) rest'
          | _ :: _, _ =>
              replaceAllFrom fuel' ic r repl (fst (after f)) (snd (after f))
          end
      end
  end.

Definition replaceAll (ic : bool) (r : regex)
    (repl : jsstring -> caps -> jsstring) (s : jsstring) : jsstring :=
  replaceAllFrom (S (length s)) ic r repl None s.

(** [s.split(re)] without a limit, for a literal without groups.  [cur] is
    the piece collected since the last separator, reversed; a separator is
    recognised at a position where the literal matches, unless the match
    is empty and the piece is (the match ends where the piece starts). *)
Fixpoint splitFrom (fuel : nat) (ic : bool) (r : regex) (cur : jsstring)
    (prev : option N) (rest : jsstring) : list jsstring :=
  match fuel with
  | 0 => [rev cur ++ rest]
  | S fuel' =>
      match rest with
      | [] => [rev cur]
      | c :: rest' =>
          match execAt ic r (prev, rest) with
          | Some (st', _) =>
              if (length (snd st') =? length rest) && (length cur =? 0)
              then splitFrom fuel' ic r (c :: cur) (Some c) rest'
              else rev cur :: splitFrom fuel' ic r [] (fst st') (snd st')
          | None => splitFrom fuel' ic r (c :: cur) (Some c) rest'
          end
      end
  end.

Definition splitRe (ic : bool) (r : regex) (s : jsstring) : list jsstring :=
  match s with
  | [] => match execAt ic r (None, []) with Some _ => [] | None => [[]] end
  | _ => splitFrom (2 * length s + 2) ic r [] None s
  end.

(** ** The regular-expression literals of the source *)

Definition chr (c : N) : regex := Chr (N.eqb c).
Definition ws : regex := Chr isSpace.       (* [\s] *)
Definition digit : regex := Chr isDigit.    (* [\d] *)
Definition word : regex := Chr isWordChar.  (* [\w] *)
Definition lowerAZ : regex := Chr isLower.  (* [[a-z]] *)
Definition upperAZ : regex := Chr isUpper.  (* [[A-Z]] *)
Definition QUOTE : N := 34.
Definition BACKTICK : N := 96.

(** [/[^.!?]+[.!?]+/g] *)
Definition reSentence : regex :=
  (plus (Chr (noneOf ".!?")) ;; plus (Chr (oneOf ".!?")))%re.

(** [/\n\s*\n/] *)
Definition reParagraphBreak : regex := (chr LF ;; star ws ;; chr LF)%re.

(** [/^#{1,6}\s+(.+)$|^(.+):$/] *)
Definition reSection : regex :=
  ((Bol ;; Rep (ch "#") 1 (Some 6) true ;; plus ws ;; Group 1 (plus dot) ;; Eol)
   <|> (Bol ;; Group 2 (plus dot) ;; ch ":" ;; Eol))%re.

(** [/\b[a-z]{4,}\b/g] *)
Definition reKeyword : regex := (WordB ;; Rep lowerAZ 4 None true ;; WordB)%re.

(** [/\b\d{1,2}[/-]\d{1,2}[/-]\d{2,4}\b|\b(?:Jan|Feb|Mar|Apr|May|Jun|Jul|Aug|Sep|Oct|Nov|Dec)[a-z]* \d{1,2},? \d{4}\b/gi] *)
Definition reDate : regex :=
  ((WordB ;; Rep digit 1 (Some 2) true ;; Chr (oneOf "/-") ;;
    Rep digit 1 (Some 2) true ;; Chr (oneOf "/-") ;;
    Rep digit 2 (Some 4) true ;; WordB)
   <|> (WordB ;;
        (lit "Jan" <|> lit "Feb" <|> lit "Mar" <|> lit "Apr" <|> lit "May"
         <|> lit "Jun" <|> lit "Jul" <|> lit "Aug" <|> lit "Sep" <|> lit "Oct"
         <|> lit "Nov" <|> lit "Dec") ;;
        star lowerAZ ;; ch " " ;; Rep digit 1 (Some 2) true ;; opt (ch ",") ;;
        ch " " ;; Rep digit 4 (Some 4) true ;; WordB))%re.

(** [/\b\d+(?:\.\d+)?%?\b/g] *)
Definition reNumber : regex :=
  (WordB ;; plus digit ;; opt (ch "." ;; plus digit) ;; opt (ch "%") ;; WordB)%re.

(** [/```[\s\S]*?```/g] *)
Definition reCodeBlock : regex :=
  (lit "```" ;; Rep anyChar 0 None false ;; lit "```")%re.

(** [/implement|algorithm|function|method|class|interface|api/i] *)
Definition reImplementation : regex :=
  (lit "implement" <|> lit "algorithm" <|> lit "function" <|> lit "method"
   <|> lit "class" <|> lit "interface" <|> lit "api")%re.

(** [/recommend|suggest|should|propose|advise/i] *)
Definition reRecommendation : regex :=
  (lit "recommend" <|> lit "suggest" <|> lit "should" <|> lit "propose"
   <|> lit "advise")%re.

(** [/advantage|benefit|positive|improve|enhance|efficient/i] *)
Definition rePositive : regex :=
  (lit "advantage" <|> lit "benefit" <|> lit "positive" <|> lit "improve"
   <|> lit "enhance" <|> lit "efficient")%re.

(** [/disadvantage|drawback|negative|issue|problem|challenge/i] *)
Definition reNegative : regex :=
  (lit "disadvantage" <|> lit "drawback" <|> lit "negative" <|> lit "issue"
   <|> lit "problem" <|> lit "challenge")%re.

(** [/\. Meanwhile,/g] *)
Definition reMeanwhile : regex := lit ". Meanwhile,".

(** [/compared to|versus|unlike|similar to|different from|contrast/i] *)
Definition reComparison : regex :=
  (lit "compared to" <|> lit "versus" <|> lit "unlike" <|> lit "similar to"
   <|> lit "different from" <|> lit "contrast")%re.

(** [/\d+/] *)
Definition reDigits : regex := plus digit.

(** [/\b[A-Z][a-z]+(?:\s+[A-Z][a-z]+)*/g] *)
Definition reEntity : regex :=
  (WordB ;; upperAZ ;; plus lowerAZ ;; star (plus ws ;; upperAZ ;; plus lowerAZ))%re.

(** [/^[\s]*[-*•]\s+/] and [/^[\s]*\d+\.\s+/] *)
Definition reBulletItem : regex :=
  (Bol ;; star ws ;; Chr (fun c => oneOf "-*" c || (c =? BULLET)%N) ;; plus ws)%re.
Definition reNumberedItem : regex :=
  (Bol ;; star ws ;; plus digit ;; ch "." ;; plus ws)%re.

(** The four [actionPatterns], all with the [i] flag:
    [/\b(?:will|should|must|need(?:s)? to|have to|going to|plan to|intend to)\s+\w+/],
    [/\b(?:TODO|FIXME|ACTION|TASK|NEXT STEP):\s*.+/],
    [/\b(?:action items?|next steps?|deliverables?):\s*.+/],
    [/\b(?:responsible|assigned to|owner):\s*\w+/]. *)
Definition actionPatterns : list regex :=
  [ (WordB ;;
     (lit "will" <|> lit "should" <|> lit "must"
      <|> (lit "need" ;; opt (ch "s") ;; lit " to") <|> lit "have to"
      <|> lit "going to" <|> lit "plan to" <|> lit "intend to") ;;
     plus ws ;; plus word)%re;
    (WordB ;;
     (lit "TODO" <|> lit "FIXME" <|> lit "ACTION" <|> lit "TASK"
      <|> lit "NEXT STEP") ;;
     ch ":" ;; star ws ;; plus dot)%re;
    (WordB ;;
     ((lit "action item" ;; opt (ch "s")) <|> (lit "next step" ;; opt (ch "s"))
      <|> (lit "deliverable" ;; opt (ch "s"))) ;;
     ch ":" ;; star ws ;; plus dot)%re;
    (WordB ;; (lit "responsible" <|> lit "assigned to" <|> lit "owner") ;;
     ch ":" ;; star ws ;; plus word)%re ].

(** [/\s+/] *)
Definition reSpaces : regex := plus ws.

(** [/[.!?]+/g] *)
Definition reTerminators : regex := plus (Chr (oneOf ".!?")).

(** [/\n\n/g], [/\n/g], [/\*\*/g], [/^\d+\. /], [/[*_#`]/g] *)
Definition reBlankLine : regex := (chr LF ;; chr LF)%re.
Definition reNewline : regex := chr LF.
Definition reBold : regex := lit "**".
Definition reNumberedLine : regex := (Bol ;; plus digit ;; ch "." ;; ch " ")%re.
Definition reMarkup : regex := Chr (fun c => oneOf "*_#" c || (c =? BACKTICK)%N).

(** [/\[([^\]]+)\]\([^)]+\)/g] *)
Definition reLink : regex :=
  (ch "[" ;; Group 1 (plus (Chr (noneOf "]"))) ;; ch "]" ;; ch "(" ;;
   plus (Chr (noneOf ")")) ;; ch ")")%re.

(** ** Content analysis *)

Record ContentAnalysis : Type := {
  sentences : list jsstring;
  paragraphs : list jsstring;
  sections : omap (list jsstring);
  keywords : omap nat;
  entities : list jsstring;
  dates : list jsstring;
  numbers : list jsstring;
  codeBlocks : list jsstring;
  lists : list (list jsstring);
  questions : list jsstring;
  actionableItems : list jsstring
}.

Definition commonWords : list jsstring :=
  map js
    ["the"; "be"; "to"; "of"; "and"; "a"; "in"; "that"; "have"; "i";
     "it"; "for"; "not"; "on"; "with"; "he"; "as"; "you"; "do"; "at";
     "this"; "but"; "his"; "by"; "from"; "they"; "we"; "say"; "her"; "she";
     "or"; "an"; "will"; "my"; "one"; "all"; "would"; "there"; "their";
     "what"; "so"; "up"; "out"; "if"; "about"; "who"; "get"; "which"; "go";
     "me"; "when"; "make"; "can"; "like"; "time"; "no"; "just"; "him"; "know";
     "take"; "people"; "into"; "year"; "your"; "good"; "some"; "could"; "them";
     "see"; "other"; "than"; "then"; "now"; "look"; "only"; "come"; "its"; "over";
     "think"; "also"; "back"; "after"; "use"; "two"; "how"; "our"; "work";
     "first"; "well"; "way"; "even"; "new"; "want"; "because"; "any"; "these";
     "give"; "day"; "most"; "us"; "is"; "was"; "are"; "been"; "has"; "had";
     "were"; "said"; "did"; "having"; "may"; "such"]%string.

Definition technicalTerms : list jsstring :=
  map js
    ["api"; "algorithm"; "function"; "method"; "class"; "interface";
     "database"; "server"; "client"; "protocol"; "framework"; "library";
     "component"; "module"; "system"; "architecture"; "implementation";
     "performance"; "optimization"; "configuration"; "deployment";
     "integration"; "authentication"; "authorization"; "encryption";
     "cache"; "queue"; "thread"; "process"; "memory"; "cpu"; "network"]%string.

(** The section-title test of [analyzeContent]: the title captured by
    [reSection], [sectionMatch[1] || sectionMatch[2]].  Each alternative ends
    in its own group, so one of the two captures is always defined. *)
Definition sectionTitle (line : jsstring) : option jsstring :=
  match matchFirst false reSection line with
  | None => None
  | Some cs =>
      Some match capture cs 1 with
           | Some (c :: s) => c :: s
           | _ => match capture cs 2 with Some s => s | None => [] end
           end
  end.

(** One turn of the [forEach] over the lines: the state is [lastSection]
    and the [sections] map. *)
Definition sectionStep (st : jsstring * omap (list jsstring)) (line : jsstring)
    : jsstring * omap (list jsstring) :=
  let (lastSection, secs) := st in
  match sectionTitle line with
  | Some title => (title, mapSet secs title [])
  | None =>
      if truthy (trim line) then
        let current := match mapGet secs lastSection with
                       | Some c => c
                       | None => []
                       end in
        (lastSection, mapSet secs lastSection (current ++ [line]))
      else st
  end.

Definition extractSections (text : jsstring) : omap (list jsstring) :=
  snd (fold_left sectionStep (splitChar LF text) (js "Introduction", [])).

Definition extractEntities (text : jsstring) : list jsstring :=
  dedup (matchAll false reEntity text) [].

Definition isListLine (line : jsstring) : bool :=
  test false reBulletItem line || test false reNumberedItem line.

Definition listStep (st : list (list jsstring) * list jsstring) (line : jsstring)
    : list (list jsstring) * list jsstring :=
  let (ls, currentList) := st in
  if isListLine line then (ls, currentList ++ [trim line])
  else if 0 <? length currentList then (ls ++ [currentList], [])
  else st.

Definition extractLists (text : jsstring) : list (list jsstring) :=
  let (ls, currentList) := fold_left listStep (splitChar LF text) ([], []) in
  if 0 <? length currentList then ls ++ [currentList] else ls.

Definition extractActionableItems (ss : list jsstring) : list jsstring :=
  filter (fun sentence => existsb (fun pattern => test true pattern sentence)
                                  actionPatterns) ss.

Section Summarize.

(** [String.prototype.toLowerCase] *)
Variable lower : jsstring -> jsstring.

Definition isCommonWord (w : jsstring) : bool :=
  existsb (str_eqb (lower w)) commonWords.

Definition isTechnicalTerm (w : jsstring) : bool :=
  existsb (str_eqb (lower w)) technicalTerms.

Definition keywordStep (kw : omap nat) (w : jsstring) : omap nat :=
  if isCommonWord w then kw
  else mapSet kw w (match mapGet kw w with
                    | Some (S n) => S n
                    | _ => 0
                    end + 1).

Definition extractKeywords (text : jsstring) : omap nat :=
  fold_left keywordStep (matchAll false reKeyword (lower text)) [].

Definition analyzeContent (text : jsstring) : ContentAnalysis :=
  let sentences := matchAll false reSentence text in
  {| sentences := sentences;
     paragraphs := filter (fun p => truthy (trim p))
                          (splitRe false reParagraphBreak text);
     sections := extractSections text;
     keywords := extractKeywords text;
     entities := extractEntities text;
     dates := matchAll true reDate text;
     numbers := matchAll false reNumber text;
     codeBlocks := matchAll false reCodeBlock text;
     lists := extractLists text;
     questions := filter (fun s => endsWith (trim s) (js "?")) sentences;
     actionableItems := extractActionableItems sentences |}.

(** ** Key points *)

(** The score of one candidate sentence in [extractKeyPoints]. *)
Definition keywordBonus (a : ContentAnalysis) (sentence : jsstring) : nat :=
  fold_left (fun score kc =>
               if includes (lower sentence) (fst kc)
               then score + Nat.min (snd kc) 3 else score)
            (keywords a) 0.

Definition keyPointScore (a : ContentAnalysis) (sentence : jsstring) : nat :=
  (if (50 <? length sentence) && (length sentence <? 200) then 2 else 0)
  + (if test false reDigits sentence then 1 else 0)
  + keywordBonus a sentence
  + (match indexOf (sentences a) sentence with
     | Some position => if position <? 5 then 2 else 0
     | None => 2 (* -1 < 5 *)
     end).

Definition extractKeyPoints (a : ContentAnalysis) (count : nat)
    (focus : option jsstring) : list jsstring :=
  let candidates :=
    match focus with
    | Some (c :: f) =>
        filter (fun s => includes (lower s) (lower (c :: f))) (sentences a)
    | _ => sentences a
    end in
  let scored := map (fun sentence => (sentence, keyPointScore a sentence)) candidates in
  map (fun item => trim (fst item))
      (firstn count (sortDesc (fun item => Z.of_nat (snd item)) scored)).

(** ** Summary generators *)

Definition bullet (p : jsstring) : jsstring := BULLET :: SPACE :: p.

(** [arr.map((x, i) => `${i + 1}. ${f(x)}`)] *)
Fixpoint numberedFrom (i : nat) (l : list jsstring) : list jsstring :=
  match l with
  | [] => []
  | x :: l' => (natToString (i + 1) ++ js ". " ++ x) :: numberedFrom (S i) l'
  end.
Definition numbered (l : list jsstring) : list jsstring := numberedFrom 0 l.

(** [Array.from(m.entries()).sort((a, b) => b[1] - a[1])] *)
Definition byCount (m : omap nat) : omap nat :=
  sortDesc (fun e => Z.of_nat (snd e)) m.

Definition generateBriefSummary (a : ContentAnalysis) (abstractionLevel : float)
    : jsstring :=
  join (js " ") (extractKeyPoints a 3 None).

Definition generateDetailedSummary (a : ContentAnalysis) (abstractionLevel : float)
    : jsstring :=
  let secs :=
    flat_map (fun tc : jsstring * list jsstring =>
                let (title, content) := tc in
                if 0 <? length content
                then [js "**" ++ title ++ js "**" ++ [LF]
                      ++ join (js " ") (firstn 3 content)]
                else [])
             (sections a) in
  join [LF; LF] (firstn 5 secs).

Definition generateBulletPoints (a : ContentAnalysis) (focus : option jsstring)
    : jsstring :=
  join [LF] (map bullet (extractKeyPoints a 10 focus)).

Definition generateKeyInsights (a : ContentAnalysis) (abstractionLevel : float)
    : jsstring :=
  let topKeywords := map fst (firstn 5 (byCount (keywords a))) in
  let insights :=
    (if 0 <? length topKeywords
     then [js "Main themes: " ++ join (js ", ") topKeywords] else [])
    ++ (if 5 <? length (numbers a)
        then [js "Contains significant quantitative data"] else [])
    ++ (if 3 <? length (questions a)
        then [js "Raises multiple questions for consideration"] else [])
    ++ (if 0 <? length (codeBlocks a)
        then [js "Includes technical implementation details"] else []) in
  join [LF] (numbered insights).

Definition generateActionItems (a : ContentAnalysis) : jsstring :=
  if length (actionableItems a) =? 0 then js "No explicit action items found."
  else join [LF] (numbered (firstn 10 (actionableItems a))).

Definition generateTechnicalSummary (a : ContentAnalysis) (abstractionLevel : float)
    : jsstring :=
  let terms :=
    firstn 5 (byCount (filter (fun e => isTechnicalTerm (fst e)) (keywords a))) in
  let implementation :=
    firstn 3 (filter (test true reImplementation) (sentences a)) in
  let parts :=
    (if 0 <? length (codeBlocks a)
     then [js "**Code Examples**: " ++ natToString (length (codeBlocks a))
           ++ js " code blocks found"] else [])
    ++ (if 0 <? length terms
        then [js "**Technical concepts**: " ++ join (js ", ") (map fst terms)]
        else [])
    ++ (if 0 <? length implementation
        then [js "**Implementation details**:" ++ [LF]
              ++ join (js " ") implementation] else []) in
  join [LF; LF] parts.

Definition generateExecutiveSummary (a : ContentAnalysis) : jsstring :=
  let recommendations :=
    firstn 3 (filter (test true reRecommendation) (sentences a)) in
  let parts :=
    match paragraphs a with
    | p0 :: _ => [js "**Overview**: " ++ firstn 200 p0 ++ js "..."]
    | [] => []
    end
    ++ (if 0 <? length (numbers a)
        then [js "**Key Metrics**: " ++ join (js ", ") (firstn 5 (numbers a))]
        else [])
    ++ (if 0 <? length recommendations
        then [js "**Recommendations**:" ++ [LF]
              ++ join [LF] (map (fun r => bullet (trim r)) recommendations)]
        else []) in
  join [LF; LF] parts.

Definition generateImpliedQuestions (a : ContentAnalysis) : list jsstring :=
  let topKeywords := firstn 3 (byCount (keywords a)) in
  (if 0 <? length (numbers a)
   then [js "What do these metrics indicate about performance?"] else [])
  ++ (if 0 <? length (dates a)
      then [js "What is the significance of this timeline?"] else [])
  ++ (if 0 <? length (actionableItems a)
      then [js "Who is responsible for implementing these actions?"] else [])
  ++ match topKeywords with
     | (w, _) :: _ => [js "How does " ++ w ++ js " relate to the main objective?"]
     | [] => []
     end.

Definition generateQuestions (a : ContentAnalysis) : jsstring :=
  let qs := if 0 <? length (questions a) then questions a
            else generateImpliedQuestions a in
  join [LF] (numbered (map trim (firstn 5 qs))).

(** The [forEach] of [generateProsConsList]: each sentence goes to [pros], or
    else to [cons], or nowhere. *)
Definition prosConsStep (pc : list jsstring * list jsstring) (sentence : jsstring)
    : list jsstring * list jsstring :=
  if test true rePositive sentence then (fst pc ++ [trim sentence], snd pc)
  else if test true reNegative sentence then (fst pc, snd pc ++ [trim sentence])
  else pc.

Definition classifyProsCons (ss : list jsstring) : list jsstring * list jsstring :=
  fold_left prosConsStep ss ([], []).

Definition generateProsConsList (a : ContentAnalysis) : jsstring :=
  let (pros, cons) := classifyProsCons (sentences a) in
  js "**Pros:**" ++ [LF]
  ++ join [LF] (map bullet (firstn 5 pros))
  ++ [LF; LF] ++ js "**Cons:**" ++ [LF]
  ++ join [LF] (map bullet (firstn 5 cons)).

Definition generateTimeline (a : ContentAnalysis) : jsstring :=
  if length (dates a) =? 0
  then js "No temporal information found for timeline generation."
  else
    join [LF]
      (flat_map (fun date =>
                   match filter (fun s => includes s date) (sentences a) with
                   | first :: _ => [js "**" ++ date ++ js "**: " ++ trim first]
                   | [] => []
                   end)
                (dates a)).

Definition generateCreativeSummary (a : ContentAnalysis)
    (instructions : option jsstring) : jsstring :=
  let keyElements := extractKeyPoints a 5 None in
  let narrative :=
    replaceAll false reMeanwhile (fun _ _ => js ". Meanwhile,")
               (join (js " Meanwhile, ") keyElements) in
  js "In this narrative, we discover that " ++ lower narrative
  ++ js " This journey reveals the interconnected nature of these elements.".

Definition generateAcademicSummary (a : ContentAnalysis) : jsstring :=
  let thesis :=
    match paragraphs a with
    | (c :: p) :: _ => firstn 150 (c :: p)
    | _ => js "The text presents multiple concepts."
    end in
  let evidence := extractKeyPoints a 3 None in
  let conclusion :=
    match last (map Some (paragraphs a)) None with
    | Some (c :: p) => firstn 150 (c :: p)
    | _ => js "Further research is warranted."
    end in
  js "**Thesis**: " ++ thesis ++ [LF; LF] ++ js "**Evidence**:" ++ [LF]
  ++ join [LF] (map bullet evidence)
  ++ [LF; LF] ++ js "**Conclusion**: " ++ conclusion.

(** [`${x}`] for a possibly missing array element. *)
Definition orUndefined (o : option jsstring) : jsstring :=
  match o with Some s => s | None => js "undefined" end.

Definition generateConversationalSummary (a : ContentAnalysis) : jsstring :=
  let points := extractKeyPoints a 5 None in
  js "So basically, here's what we're looking at: " ++ orUndefined (nth_error points 0)
  ++ js " Also worth noting that " ++ orUndefined (nth_error points 1)
  ++ js " And get this - "
  ++ match nth_error points 2 with
     | Some (c :: p) => c :: p
     | _ => js "there are some interesting details here."
     end.

Definition generateComparisonSummary (a : ContentAnalysis) : jsstring :=
  let comparisons := filter (test true reComparison) (sentences a) in
  let prosConsResult := generateProsConsList a in
  let aspects :=
    (if 0 <? length comparisons
     then [js "**Direct Comparisons**:" ++ [LF]
           ++ join [LF] (map (fun c => bullet (trim c)) (firstn 3 comparisons))]
     else [])
    ++ (if str_eqb prosConsResult
                   (js "**Pros:**" ++ [LF; LF; LF] ++ js "**Cons:**" ++ [LF])
        then [] else [prosConsResult]) in
  match join [LF; LF] aspects with
  | [] => js "No clear comparisons found in the text."
  | r => r
  end.

Definition generateAutoSummary (a : ContentAnalysis) (abstractionLevel : float)
    (instructions : option jsstring) : jsstring :=
  if 5 <? length (actionableItems a) then generateActionItems a
  else if 2 <? length (codeBlocks a) then generateTechnicalSummary a abstractionLevel
  else if 10 <? length (numbers a) then generateExecutiveSummary a
  else generateDetailedSummary a abstractionLevel.

(** ** Focus filter, quotes, statistics *)

(** The filter of [extractRelevantQuotes]: [matchCount] counts the words of
    the sentence that are longer than 4 and occur in the lowercased summary. *)
Definition matchCount (summaryLower sentence : jsstring) : nat :=
  let words := splitRe false reSpaces (lower sentence) in
  length (filter (fun w => (4 <? length w) && includes summaryLower w) words).

Definition isRelevantQuote (summaryLower sentence : jsstring) : bool :=
  (3 <? matchCount summaryLower sentence) && (30 <? length sentence)
  && (length sentence <? 150).

Definition extractRelevantQuotes (text summary : jsstring) : list jsstring :=
  let summaryLower := lower summary in
  let relevant :=
    filter (isRelevantQuote summaryLower) (matchAll false reSentence text) in
  firstn 3 relevant.

Record Stats : Type := {
  stWords : nat;
  stSentences : nat;
  stParagraphs : nat;
  stAvgWordsPerSentence : nat;
  stCharacters : nat;
  stReadingTime : nat
}.

(** [Math.round(w / s)] and [Math.ceil(w / 200)] on counts: the quotient of
    two string-sized counts is a half-integer or an integer only when the
    division is exact, so the integer formulas agree with the doubles. *)
Definition generateStats (text : jsstring) : Stats :=
  let words := length (splitRe false reSpaces text) in
  let nsent := length (matchAll false reTerminators text) in
  {| stWords := words;
     stSentences := nsent;
     stParagraphs :=
       length (filter (fun p => truthy (trim p))
                      (splitRe false reParagraphBreak text));
     stAvgWordsPerSentence :=
       if 0 <? nsent then (2 * words + nsent) / (2 * nsent) else 0;
     stCharacters := length text;
     stReadingTime := (words + 199) / 200 |}.

Definition appendQuotes (summary : jsstring) (quotes : list jsstring)
    (format : jsstring) : jsstring :=
  if length quotes =? 0 then summary
  else
    let quotesSection :=
      join [LF; LF] (map (fun q => js "> " ++ [QUOTE] ++ q ++ [QUOTE]) quotes) in
    if str_eqb format (js "markdown") then
      summary ++ [LF; LF] ++ js "### Relevant Quotes" ++ [LF; LF] ++ quotesSection
    else if str_eqb format (js "plain") then
      summary ++ [LF; LF] ++ js "Relevant Quotes:" ++ [LF; LF]
      ++ join [LF; LF] (map (fun q => [QUOTE] ++ q ++ [QUOTE]) quotes)
    else summary.

(** [JSON.stringify] of a string: the escapes of QuoteJSONString. *)
Definition hexDigit (n : N) : N := if (n <? 10)%N then (48 + n)%N else (87 + n)%N.

Definition unicodeEscape (c : N) : jsstring :=
  js "\u" ++ [hexDigit ((c / 4096) mod 16); hexDigit ((c / 256) mod 16);
              hexDigit ((c / 16) mod 16); hexDigit (c mod 16)]%N.

Definition isHighSurrogate (c : N) : bool := ((55296 <=? c) && (c <=? 56319))%N.
Definition isLowSurrogate (c : N) : bool := ((56320 <=? c) && (c <=? 57343))%N.

Fixpoint jsonEscape (s : jsstring) : jsstring :=
  match s with
  | [] => []
  | c :: s' =>
      if (c =? 8)%N then js "\b" ++ jsonEscape s'
      else if (c =? 9)%N then js "\t" ++ jsonEscape s'
      else if (c =? 10)%N then js "\n" ++ jsonEscape s'
      else if (c =? 12)%N then js "\f" ++ jsonEscape s'
      else if (c =? 13)%N then js "\r" ++ jsonEscape s'
      else if (c =? 34)%N then js "\" ++ [QUOTE] ++ jsonEscape s'
      else if (c =? 92)%N then js "\\" ++ jsonEscape s'
      else if (c <? 32)%N then unicodeEscape c ++ jsonEscape s'
      else if isHighSurrogate c then
        match s' with
        | d :: s'' => if isLowSurrogate d then c :: d :: jsonEscape s''
                      else unicodeEscape c ++ jsonEscape s'
        | [] => unicodeEscape c
        end
      else if isLowSurrogate c then unicodeEscape c ++ jsonEscape s'
      else c :: jsonEscape s'
  end.

Definition jsonString (s : jsstring) : jsstring := [QUOTE] ++ jsonEscape s ++ [QUOTE].

(** One [  "key": value] member at the given indentation. *)
Definition jsonMember (indent : nat) (key : string) (value : jsstring) : jsstring :=
  repeat SPACE indent ++ [QUOTE] ++ js key ++ [QUOTE] ++ js ": " ++ value.
Arguments jsonMember indent key%_string value.

(** [JSON.stringify({ ... }, null, 2)] of an object with the given members,
    nested [depth] levels deep. *)
Definition jsonObject (depth : nat) (members : list jsstring) : jsstring :=
  js "{" ++ [LF] ++ join (js "," ++ [LF]) members ++ [LF]
  ++ repeat SPACE (2 * depth) ++ js "}".

Definition appendStats (summary : jsstring) (stats : Stats) (format : jsstring)
    : jsstring :=
  if str_eqb format (js "markdown") then
    summary ++ [LF; LF] ++ js "---" ++ [LF; LF] ++ js "**Document Statistics:**"
    ++ [LF] ++ js "- Words: " ++ natToString (stWords stats)
    ++ [LF] ++ js "- Sentences: " ++ natToString (stSentences stats)
    ++ [LF] ++ js "- Reading time: ~" ++ natToString (stReadingTime stats)
    ++ js " minutes"
  else if str_eqb format (js "json") then
    jsonObject 0
      [ jsonMember 2 "summary" (jsonString summary);
        jsonMember 2 "stats"
          (jsonObject 1
             [ jsonMember 4 "words" (natToString (stWords stats));
               jsonMember 4 "sentences" (natToString (stSentences stats));
               jsonMember 4 "paragraphs" (natToString (stParagraphs stats));
               jsonMember 4 "avgWordsPerSentence"
                 (natToString (stAvgWordsPerSentence stats));
               jsonMember 4 "characters" (natToString (stCharacters stats));
               jsonMember 4 "readingTime" (natToString (stReadingTime stats)) ]) ]
  else summary.

(** The filter of [applyFocusFilter]. *)
Definition keepsLine (focusLower line : jsstring) : bool :=
  includes (lower line) focusLower || (length line <? 50).

(** [filtered.length < lines.length / 2] is [2 * filtered.length < lines.length]. *)
Definition applyFocusFilter (summary focus : jsstring) (a : ContentAnalysis)
    : jsstring :=
  let focusLower := lower focus in
  let lines := splitChar LF summary in
  let filtered := filter (keepsLine focusLower) lines in
  if 2 * length filtered <? length lines then summary
  else join [LF] filtered.

(** ** Output formatting *)

(** The two readings of the clock made by [formatOutput]:
    [new Date().toISOString()] and [new Date().toLocaleDateString()]. *)
Record Clock : Type := {
  isoNow : jsstring;
  localeDate : jsstring
}.

Record Formatted : Type := {
  content : jsstring;
  metadata : jsstring   (* the [format] field of the metadata object *)
}.

Definition htmlBefore (mode : jsstring) : jsstring :=
  js "<!DOCTYPE html>" ++ [LF]
  ++ js "<html>" ++ [LF]
  ++ js "<head>" ++ [LF]
  ++ js "    <title>Summary - " ++ mode ++ js "</title>" ++ [LF]
  ++ js "    <meta charset=" ++ [QUOTE] ++ js "utf-8" ++ [QUOTE] ++ js ">" ++ [LF]
  ++ js "</head>" ++ [LF]
  ++ js "<body>" ++ [LF]
  ++ js "    <h1>Summary</h1>" ++ [LF]
  ++ js "    <div class=" ++ [QUOTE] ++ js "summary-content" ++ [QUOTE] ++ js ">" ++ [LF]
  ++ js "        ".

Definition htmlMiddle : jsstring :=
  [LF] ++ js "    </div>" ++ [LF]
  ++ js "    <footer>" ++ [LF]
  ++ js "        <p>Generated on ".

Definition htmlAfter : jsstring :=
  js "</p>" ++ [LF]
  ++ js "    </footer>" ++ [LF]
  ++ js "</body>" ++ [LF]
  ++ js "</html>".

Definition outlineLine (line : jsstring) : jsstring :=
  if startsWith line (js "**") && endsWith line (js "**")
  then replaceAll false reBold (fun _ _ => []) line
  else if startsWith line (bullet [])
  then js "  " ++ line
  else match matchFirst false reNumberedLine line with
       | Some _ => js "  " ++ line
       | None => js "    " ++ line
       end.

Definition formatOutput (clock : Clock) (content format mode : jsstring)
    : Formatted :=
  if str_eqb format (js "json") then
    {| content :=
         jsonObject 0
           [ jsonMember 2 "mode" (jsonString mode);
             jsonMember 2 "summary" (jsonString content);
             jsonMember 2 "timestamp" (jsonString (isoNow clock)) ];
       metadata := js "json" |}
  else if str_eqb format (js "html") then
    {| content :=
         htmlBefore mode
         ++ replaceAll false reNewline (fun _ _ => js "<br>")
              (replaceAll false reBlankLine (fun _ _ => js "</p><p>") content)
         ++ htmlMiddle ++ localeDate clock ++ htmlAfter;
       metadata := js "html" |}
  else if str_eqb format (js "outline") then
    {| content := join [LF] (map outlineLine (splitChar LF content));
       metadata := js "outline" |}
  else if str_eqb format (js "plain") then
    {| content :=
         replaceAll false reLink
           (fun _ cs => match capture cs 1 with Some t => t | None => [] end)
           (replaceAll false reMarkup (fun _ _ => []) content);
       metadata := js "plain" |}
  else
    {| content := content; metadata := js "markdown" |}.

Definition trimToWordLimit (text : jsstring) (limit : Z) : jsstring :=
  let words := splitRe false reSpaces text in
  if (Z.of_nat (length words) <=? limit)%Z then text
  else join (js " ") (slice0 words limit) ++ js "...".
(** ** The tool *)

(** The arguments of a call; a missing one is [None].  [abstraction_level]
    is a JavaScript number, that is a binary64 value: NaN and the infinities
    are among its values, and the comparisons of [execute] are those of
    IEEE 754, false on NaN. *)
Record Args : Type := {
  text : option jsstring;
  file : option jsstring;
  mode : option jsstring;
  format : option jsstring;
  instructions : option jsstring;
  max_length : option Z;
  language : option jsstring;
  include_quotes : option bool;
  include_stats : option bool;
  focus : option jsstring;
  abstraction_level : option float
}.

(** What reading the file does: [path.resolve], [fs.existsSync] and
    [fs.readFileSync] inside the [try]; [ReadError] carries the message of
    the caught exception. *)
Inductive FileOutcome : Type :=
| NotFound
| FileContent (c : jsstring)
| ReadError (message : jsstring).

Record Host : Type := {
  readFile : jsstring -> FileOutcome;
  clock : Clock
}.

Record Data : Type := {
  dMode : jsstring;
  dFormat : jsstring;
  abstractionLevel : float;
  originalLength : nat;
  summaryLength : nat;
  compressionRatio : float;
  source : jsstring;
  method : jsstring;
  dMetadata : jsstring
}.

Record ToolResult : Type := {
  success : bool;
  output : option jsstring;
  error : option jsstring;
  data : option Data
}.

Definition failure (msg : jsstring) : ToolResult :=
  {| success := false; output := None; error := Some msg; data := None |}.

(** A string length as a JavaScript number (exact below 2^53). *)
Definition numOfNat (n : nat) : float :=
  PrimFloat.of_uint63 (Uint63.of_Z (Z.of_nat n)).

(** [Math.round]: the nearest integer, ties towards plus infinity; NaN and
    the infinities are returned as they are. *)
Definition Math_round (x : float) : float :=
  match Prim2SF x with
  | S754_finite sg m e =>
      if (0 <=? e)%Z then x
      else
        let d := (2 ^ (- e))%Z in
        let n := ((2 * (if sg then Z.neg m else Z.pos m) + d) / (2 * d))%Z in
        if (n <? 0)%Z then PrimFloat.opp (PrimFloat.of_uint63 (Uint63.of_Z (- n)))
        else if (n =? 0)%Z && sg then PrimFloat.neg_zero
        else PrimFloat.of_uint63 (Uint63.of_Z n)
  | _ => x
  end.

(** [Math.round((1 - summaryLength / originalLength) * 100)] in doubles. *)
Definition compressionRatioOf (summaryLength originalLength : nat) : float :=
  Math_round
    (PrimFloat.mul
       (PrimFloat.sub PrimFloat.one
          (PrimFloat.div (numOfNat summaryLength) (numOfNat originalLength)))
       (numOfNat 100)).

Definition orDefault {A} (o : option A) (d : A) : A :=
  match o with Some x => x | None => d end.

(** The [switch (mode)] of [execute]. *)
Definition generateSummary (a : ContentAnalysis) (mode : jsstring)
    (abstraction_level : float) (focus instructions : option jsstring) : jsstring :=
  if str_eqb mode (js "brief") then generateBriefSummary a abstraction_level
  else if str_eqb mode (js "detailed") then generateDetailedSummary a abstraction_level
  else if str_eqb mode (js "bullet_points") then generateBulletPoints a focus
  else if str_eqb mode (js "key_insights") then generateKeyInsights a abstraction_level
  else if str_eqb mode (js "action_items") then generateActionItems a
  else if str_eqb mode (js "technical") then generateTechnicalSummary a abstraction_level
  else if str_eqb mode (js "executive") then generateExecutiveSummary a
  else if str_eqb mode (js "questions") then generateQuestions a
  else if str_eqb mode (js "pros_cons") then generateProsConsList a
  else if str_eqb mode (js "timeline") then generateTimeline a
  else if str_eqb mode (js "creative") then generateCreativeSummary a instructions
  else if str_eqb mode (js "academic") then generateAcademicSummary a
  else if str_eqb mode (js "conversational") then generateConversationalSummary a
  else if str_eqb mode (js "comparison") then generateComparisonSummary a
  else generateAutoSummary a abstraction_level instructions.

(** [execute] after the validation and the file read: analysis, summary and
    the result object. *)
Definition summarize (h : Host) (args : Args) (contentToSummarize : jsstring)
    : ToolResult :=
  let mode := orDefault (mode args) (js "auto") in
  let format := orDefault (format args) (js "markdown") in
  let max_length := orDefault (max_length args) 0%Z in
  let abstraction_level := orDefault (abstraction_level args) 3%float in
  let analysis := analyzeContent contentToSummarize in
  let summary :=
    generateSummary analysis mode abstraction_level (focus args) (instructions args) in
  let summary :=
    match focus args with
    | Some (c :: f) => applyFocusFilter summary (c :: f) analysis
    | _ => summary
    end in
  let summary :=
    if orDefault (include_quotes args) false
    then appendQuotes summary (extractRelevantQuotes contentToSummarize summary) format
    else summary in
  let summary :=
    if orDefault (include_stats args) false
    then appendStats summary (generateStats contentToSummarize) format
    else summary in
  let formattedSummary := formatOutput (clock h) summary format mode in
  let out :=
    if (0 <? max_length)%Z then trimToWordLimit (content formattedSummary) max_length
    else content formattedSummary in
  {| success := true;
     output := Some out;
     error := None;
     data :=
       Some {| dMode := mode;
               dFormat := format;
               abstractionLevel := abstraction_level;
               originalLength := length contentToSummarize;
               summaryLength := length out;
               compressionRatio :=
                 compressionRatioOf (length out) (length contentToSummarize);
               source :=
                 match file args with
                 | Some (c :: f) => js "file: " ++ c :: f
                 | _ => js "text input"
                 end;
               method := js "pattern-based";
               dMetadata := metadata formattedSummary |} |}.

Definition execute (h : Host) (args : Args) : ToolResult :=
  let abstraction_level := orDefault (abstraction_level args) 3%float in
  if negb (truthy_opt (text args)) && negb (truthy_opt (file args)) then
    failure (js "Either text or file parameter must be provided")
  else if truthy_opt (text args) && truthy_opt (file args) then
    failure (js "Cannot provide both text and file parameters")
  else if (abstraction_level <? 1)%float || (5 <? abstraction_level)%float then
    failure (js "Abstraction level must be between 1 (very concrete) and 5 (very abstract)")
  else
    match file args with
    | Some (c :: f) =>
        match readFile h (c :: f) with
        | NotFound => failure (js "File not found: " ++ c :: f)
        | ReadError message => failure (js "Failed to read file: " ++ message)
        | FileContent contentToSummarize => summarize h args contentToSummarize
        end
    | _ => summarize h args (orDefault (text args) [])
    end.

End Summarize.

(** * Statements about the tool *)

(** ** Definitions used by the statements *)

(** [args] with [include_quotes] replaced. *)
Definition withQuotes (a : Args) (q : option bool) : Args :=
  {| text := text a; file := file a; mode := mode a; format := format a;
     instructions := instructions a; max_length := max_length a;
     language := language a; include_quotes := q;
     include_stats := include_stats a; focus := focus a;
     abstraction_level := abstraction_level a |}.

(** An argument counts as given when the checks [!text] and [text && file]
    of [execute] see it: defined and not the empty string. *)
Definition provided (o : option jsstring) : Prop := truthy_opt o = true.
Definition notProvided (o : option jsstring) : Prop := truthy_opt o = false.

(** Arguments that give a text, a mode and a format and leave the rest to
    the defaults. *)
Definition textArgs (t m f : string) : Args :=
  {| text := Some (js t); file := None; mode := Some (js m);
     format := Some (js f); instructions := None; max_length := None;
     language := None; include_quotes := None; include_stats := None;
     focus := None; abstraction_level := None |}.
Arguments textArgs (t m f)%_string.

(** A host without files, at a fixed instant. *)
Definition fixedClock : Clock :=
  {| isoNow := js "2026-01-01T00:00:00.000Z"; localeDate := js "1/1/2026" |}.
Definition bareHost : Host :=
  {| readFile := fun _ => NotFound; clock := fixedClock |}.

(** The two indicator tests of [generateProsConsList]. *)
Definition isPositive (sentence : jsstring) : bool := test true rePositive sentence.
Definition isNegative (sentence : jsstring) : bool := test true reNegative sentence.

Definition prosConsText : string :=
  "This approach offers significant benefit. However, there is a major drawback.".



(** [l1] is [l2] with some elements left out, the order kept. *)
Inductive subseq {A : Type} : list A -> list A -> Prop :=
| subseq_nil : subseq [] []
| subseq_skip : forall x l1 l2, subseq l1 l2 -> subseq l1 (x :: l2)
| subseq_take : forall x l1 l2, subseq l1 l2 -> subseq (x :: l1) (x :: l2).

Definition quoteText : string :=
  "Project planning requires careful budget allocation across several teams.".


(** The content [execute] summarizes: the file's when a file is given and
    read, the text argument otherwise. *)
Definition contentOf (h : Host) (args : Args) : jsstring :=
  match file args with
  | Some (c :: f) =>
      match readFile h (c :: f) with
      | FileContent t => t
      | _ => []
      end
  | _ => orDefault (text args) []
  end.

(** The compression ratio as the specification words it: over the counts of
    whitespace-delimited words, 0 when the original has no word. *)
Definition wordCount (s : jsstring) : nat :=
  length (filter truthy (splitRe false reSpaces s)).

Definition compressionRatio_spec (summary original : jsstring) : float :=
  if wordCount original =? 0 then PrimFloat.zero
  else compressionRatioOf (wordCount summary) (wordCount original).

Definition foxText : string :=
  "The quick brown fox jumps over the lazy dog near the old river bank today.".

(** A host whose only file, [empty.txt], is empty. *)
Definition emptyFileHost : Host :=
  {| readFile := fun f => if str_eqb f (js "empty.txt") then FileContent []
                          else NotFound;
     clock := fixedClock |}.

Definition fileArgs (f : string) : Args :=
  {| text := None; file := Some (js f); mode := None; format := None;
     instructions := None; max_length := None; language := None;
     include_quotes := None; include_stats := None; focus := None;
     abstraction_level := None |}.
Arguments fileArgs f%_string.

(** Key points as the specification words them: the position bonus goes to
    a candidate whose own position in [sentences] is below 5, and a keyword
    counts when the sentence contains it case-insensitively. *)
Definition keyPointScore_spec (lower : jsstring -> jsstring) (a : ContentAnalysis)
    (position : nat) (sentence : jsstring) : nat :=
  (if (50 <? length sentence) && (length sentence <? 200) then 2 else 0)
  + (if test false reDigits sentence then 1 else 0)
  + fold_left (fun score kc =>
                 if includes (lower sentence) (lower (fst kc))
                 then score + Nat.min (snd kc) 3 else score)
              (keywords a) 0
  + (if position <? 5 then 2 else 0).

Definition extractKeyPoints_spec (lower : jsstring -> jsstring)
    (a : ContentAnalysis) (count : nat) (focus : option jsstring)
    : list jsstring :=
  let indexed := combine (seq 0 (length (sentences a))) (sentences a) in
  let candidates :=
    match focus with
    | Some (c :: f) =>
        filter (fun ps => includes (lower (snd ps)) (lower (c :: f))) indexed
    | _ => indexed
    end in
  let scored :=
    map (fun ps => (snd ps, keyPointScore_spec lower a (fst ps) (snd ps)))
        candidates in
  map (fun item => trim (fst item))
      (firstn count (sortDesc (fun item => Z.of_nat (snd item)) scored)).

(** Eight short sentences, the last one repeating the second. *)
Definition repeatedText : string := "One. Two. Six. Ten. Red. Big. Old. Two.".

(** The iterations of a quantified one-character atom, by recursion on the
    input instead of a turn counter. *)
Fixpoint repChr (ic : bool) (p : N -> bool) (lo : nat) (hi : option nat)
    (greedy : bool) (k : mstate -> caps -> mresult)
    (cnt : nat) (prev : option N) (rest : jsstring) (cs : caps) : mresult :=
  let stop := if lo <=? cnt then k (prev, rest) cs else None in
  let more :=
    match rest with
    | c :: rest' =>
        if belowHi cnt hi && chrTest ic p c
        then repChr ic p lo hi greedy k (S cnt) (Some c) rest' cs
        else None
    | [] => None
    end in
  if greedy then orElse more stop else orElse stop more.

(** The upper bound of a quantifier. *)
Definition atMost (n : nat) (hi : option nat) : Prop :=
  match hi with Some h => n <= h | None => True end.

(** The code unit before the position reached after [taken]. *)
Definition lastOr (prev : option N) (taken : jsstring) : option N :=
  fold_left (fun _ c => Some c) taken prev.

(** The matcher state after a maximal run of characters satisfying [p]. *)
Fixpoint runEnd (p : N -> bool) (prev : option N) (rest : jsstring) : mstate :=
  match rest with
  | c :: rest' => if p c then runEnd p (Some c) rest' else (prev, rest)
  | [] => (prev, [])
  end.

(** The pieces between maximal runs of white space, read in one pass:
    [inSep] tells that the last character was white space, [cur] is the
    piece being read, reversed. *)
Fixpoint wsTokens (inSep : bool) (cur rest : jsstring) : list jsstring :=
  match rest with
  | [] => [rev cur]
  | c :: rest' =>
      if isSpace c then
        if inSep then wsTokens true [] rest'
        else rev cur :: wsTokens true [] rest'
      else wsTokens false (c :: cur) rest'
  end.

Definition noSpace (s : jsstring) : Prop := Forall (fun c => isSpace c = false) s.

(** All elements but the last are non-empty. *)
Definition innerNonEmpty (l : list jsstring) : Prop :=
  Forall (fun t => t <> []) (removelast l).

(** ** What a literal matches

    [matchesAt ic r st st'] says that [r] can match from the state [st] to
    the state [st'], for the literals whose quantifiers apply to
    one-character atoms ([simple]); it is the declarative reading the
    backtracking matcher is compared with. *)
Fixpoint simple (r : regex) : bool :=
  match r with
  | Seq a b | Alt a b => simple a && simple b
  | Rep (Chr _) _ _ _ => true
  | Rep _ _ _ _ => false
  | Group _ a => simple a
  | _ => true
  end.

Fixpoint matchesAt (ic : bool) (r : regex) (st st' : mstate) : Prop :=
  match r with
  | Eps => st' = st
  | Chr p =>
      exists c rest,
        snd st = c :: rest /\ chrTest ic p c = true /\ st' = (Some c, rest)
  | Seq a b => exists mid, matchesAt ic a st mid /\ matchesAt ic b mid st'
  | Alt a b => matchesAt ic a st st' \/ matchesAt ic b st st'
  | Rep (Chr p) lo hi _ =>
      exists taken rest,
        snd st = taken ++ rest
        /\ forallb (chrTest ic p) taken = true
        /\ lo <= length taken
        /\ (taken = [] \/ atMost (length taken) hi)
        /\ st' = (lastOr (fst st) taken, rest)
  | Rep _ _ _ _ => False
  | Group _ a => matchesAt ic a st st'
  | Bol => fst st = None /\ st' = st
  | Eol => snd st = [] /\ st' = st
  | WordB =>
      xorb (isWordOpt (fst st)) (isWordOpt (hd_error (snd st))) = true /\ st' = st
  end.

(** A continuation whose success does not depend on the captures. *)
Definition capIndep (k : mstate -> caps -> mresult) : Prop :=
  forall st cs1 cs2, k st cs1 <> None -> k st cs2 <> None.

(** The two shapes of a title line that [reSection] accepts. *)
Definition HASH : N := 35.
Definition COLON : N := 58.
Definition notTerminator (c : N) : bool := negb (isLineTerminator c).

Definition headingLine (line : jsstring) : Prop :=
  exists hashes spaces body,
    line = hashes ++ spaces ++ body
    /\ forallb (N.eqb HASH) hashes = true /\ 1 <= length hashes <= 6
    /\ forallb isSpace spaces = true /\ 1 <= length spaces
    /\ forallb notTerminator body = true /\ 1 <= length body.

Definition colonLine (line : jsstring) : Prop :=
  exists body,
    line = body ++ [COLON]
    /\ forallb notTerminator body = true /\ 1 <= length body.

(** The title test as the specification words it: a heading-marked line, or
    a capitalized line ending in a colon. *)
Definition capitalized (line : jsstring) : Prop :=
  match line with
  | c :: _ => isUpper c = true
  | [] => False
  end.

Definition specTitleLine (line : jsstring) : Prop :=
  headingLine line \/ (capitalized line /\ endsWith line [COLON] = true).

(** A line that [analyzeContent] files under the current section. *)
Definition bodyLine (line : jsstring) : bool := truthy (trim line).

Definition introduction : jsstring := js "Introduction".

(** The [sections] map while only untitled lines have been read: empty, or
    the single entry of the implicit section. *)
Definition introMap (acc : list jsstring) : omap (list jsstring) :=
  match acc with
  | [] => []
  | _ :: _ => [(introduction, acc)]
  end.

Definition titledText : jsstring := js "# Title" ++ [LF] ++ js "body".
Definition prefacedText : jsstring :=
  js "first line" ++ [LF] ++ js "note:" ++ [LF] ++ js "second line".

(** A host reading the clock [c] over the file system [fs]. *)
Definition hostAt (fs : jsstring -> FileOutcome) (c : Clock) : Host :=
  {| readFile := fs; clock := c |}.

(** The generation-timestamp field of a formatted output: the serialized
    [timestamp] member of the [json] format, the date in the footer of the
    [html] format, nothing in the other formats. *)
Definition stampField (fmt : jsstring) (c : Clock) : jsstring :=
  if str_eqb fmt (js "json") then jsonString (isoNow c)
  else if str_eqb fmt (js "html") then localeDate c
  else [].

Definition stamped (fmt : jsstring) : bool :=
  str_eqb fmt (js "json") || str_eqb fmt (js "html").

(** The optional last step of [execute]. *)
Definition limitWords (args : Args) (s : jsstring) : jsstring :=
  if (0 <? orDefault (max_length args) 0)%Z
  then trimToWordLimit s (orDefault (max_length args) 0%Z)
  else s.

(** Two [data] records that agree on every field not computed from the
    length of the output. *)
Definition sameButLengths (d1 d2 : Data) : Prop :=
  dMode d1 = dMode d2 /\ dFormat d1 = dFormat d2
  /\ abstractionLevel d1 = abstractionLevel d2
  /\ originalLength d1 = originalLength d2
  /\ source d1 = source d2 /\ method d1 = method d2
  /\ dMetadata d1 = dMetadata d2.

Definition laterClock : Clock :=
  {| isoNow := js "2027-12-24T18:30:15.250Z"; localeDate := js "12/24/2027" |}.

(** [args] with [include_stats] replaced. *)
Definition withStats (a : Args) (s : option bool) : Args :=
  {| text := text a; file := file a; mode := mode a; format := format a;
     instructions := instructions a; max_length := max_length a;
     language := language a; include_quotes := include_quotes a;
     include_stats := s; focus := focus a;
     abstraction_level := abstraction_level a |}.

(** The five values [formatOutput] writes into the metadata. *)
Definition knownFormats : list jsstring :=
  [js "json"; js "html"; js "outline"; js "plain"; js "markdown"].

(** A text in which the heading [A] comes back after the section [B]. *)
Definition repeatedHeadingText : jsstring :=
  js "# A" ++ [LF] ++ js "one" ++ [LF] ++ js "# B" ++ [LF] ++ js "two" ++ [LF]
  ++ js "# A" ++ [LF] ++ js "three".

(** The entry of the keyword table for a word seen [n] times. *)
Definition tally (n : nat) : option nat :=
  match n with 0 => None | S _ => Some n end.

(** The shape of a match of [reSentence]: one or more characters other than
    [.], [!] and [?], then one or more of these three. *)
Definition sentenceShape (s : jsstring) : Prop :=
  exists body marks,
    s = body ++ marks /\ body <> [] /\ marks <> []
    /\ forallb (noneOf ".!?") body = true
    /\ forallb (oneOf ".!?") marks = true.

(** A text without any of [.], [!] and [?]. *)
Definition unterminated (text : jsstring) : Prop :=
  forallb (noneOf ".!?") text = true.

(** [args] with [instructions], [language] and [abstraction_level] replaced. *)
Definition withTuning (a : Args) (i l : option jsstring) (lv : option float) : Args :=
  {| text := text a; file := file a; mode := mode a; format := format a;
     instructions := i; max_length := max_length a;
     language := l; include_quotes := include_quotes a;
     include_stats := include_stats a; focus := focus a;
     abstraction_level := lv |}.

(** The fields of the result data other than the echoed abstraction level. *)
Definition dataButLevel (d : Data) :=
  (dMode d, dFormat d, originalLength d, summaryLength d, compressionRatio d,
   source d, method d, dMetadata d).

(** The abstraction level, 3 when left out, is a number between 1 and 5. *)
Definition levelInRange (lv : option float) : Prop :=
  ((1 <=? orDefault lv 3) && (orDefault lv 3 <=? 5))%float = true.

(** The characters the [plain] format deletes: [*], [_], [#] and the
    backtick. *)
Definition markupChar (c : N) : bool := oneOf "*_#" c || (c =? BACKTICK)%N.

(** Captures that hold only characters satisfying [ok]. *)
Definition capsOk (ok : N -> Prop) (cs : caps) : Prop :=
  Forall (fun e => Forall ok (snd e)) cs.

(** A match result whose remaining input and captures hold only characters
    satisfying [ok]. *)
Definition resultOk (ok : N -> Prop) (res : mresult) : Prop :=
  match res with
  | Some (st', cs) => Forall ok (snd st') /\ capsOk ok cs
  | None => True
  end.

(** The notice of [generateComparisonSummary]. *)
Definition noComparisons : jsstring := js "No clear comparisons found in the text.".

(** Arguments giving a text and a word limit, the rest left to the defaults. *)
Definition limitedArgs (t : string) (n : Z) : Args :=
  {| text := Some (js t); file := None; mode := None; format := None;
     instructions := None; max_length := Some n; language := None;
     include_quotes := None; include_stats := None; focus := None;
     abstraction_level := None |}.
Arguments limitedArgs t%_string n%_Z.

(** A sentence followed by a dated note that no terminator ends. *)
Definition datedNoteText : string := "Done. Meeting on 12/05/2024".

(** A call on the pros-and-cons example in the [html] format, with an
    optional word limit. *)
Definition htmlArgs (n : option Z) : Args :=
  {| text := Some (js prosConsText); file := None; mode := Some (js "pros_cons");
     format := Some (js "html"); instructions := None; max_length := n;
     language := None; include_quotes := None; include_stats := None;
     focus := None; abstraction_level := None |}.

(** The later instant on a host whose locale writes dates with spaces, as
    [ko-KR] does. *)
Definition spacedClock : Clock :=
  {| isoNow := js "2027-12-24T18:30:15.250Z"; localeDate := js "2027. 12. 24." |}.

(** * Properties *)

Unset Implicit Arguments.

Lemma str_eqb_eq (a b : jsstring) : str_eqb a b = true <-> a = b.
Proof.
  unfold str_eqb. destruct (list_eq_dec N.eq_dec a b); split; congruence.
Qed.

Lemma str_eqb_neq (a b : jsstring) : str_eqb a b = false <-> a <> b.
Proof.
  unfold str_eqb. destruct (list_eq_dec N.eq_dec a b); split; congruence.
Qed.

(** ** Quotes outside markdown and plain *)

(** C10: for a format that is neither [markdown] nor [plain], [appendQuotes]
    returns the summary unchanged whatever the quotes, and the whole result
    of [execute] is the same with [include_quotes] true, false or left out. *)
Theorem include_quotes_without_effect :
  forall fmt : jsstring,
    fmt <> js "markdown" -> fmt <> js "plain" ->
    (forall summary quotes, appendQuotes summary quotes fmt = summary)
    /\ (forall lower h args,
          format args = Some fmt ->
          execute lower h (withQuotes args (Some true))
          = execute lower h (withQuotes args (Some false))
          /\ execute lower h (withQuotes args (Some true))
             = execute lower h (withQuotes args None)).
Proof.
  intros fmt Hmd Hpl.
  assert (Happ : forall summary quotes, appendQuotes summary quotes fmt = summary).
  { intros summary quotes. unfold appendQuotes.
    destruct (length quotes =? 0); [reflexivity|].
    apply str_eqb_neq in Hmd. apply str_eqb_neq in Hpl.
    rewrite Hmd, Hpl. reflexivity. }
  split; [exact Happ|].
  intros lower h args Hfmt.
  assert (Hsum : forall c, summarize lower h (withQuotes args (Some true)) c
                           = summarize lower h (withQuotes args None) c).
  { intros c. unfold summarize. cbn [withQuotes mode format max_length
      abstraction_level focus instructions include_quotes include_stats file orDefault].
    rewrite Hfmt. cbn [orDefault]. rewrite Happ. reflexivity. }
  assert (Hex : execute lower h (withQuotes args (Some true))
                = execute lower h (withQuotes args None)).
  { unfold execute. cbn [withQuotes text file abstraction_level].
    destruct (negb (truthy_opt (text args)) && negb (truthy_opt (file args)));
      [reflexivity|].
    destruct (truthy_opt (text args) && truthy_opt (file args)); [reflexivity|].
    destruct ((orDefault (abstraction_level args) 3 <? 1)%float
              || (5 <? orDefault (abstraction_level args) 3)%float); [reflexivity|].
    destruct (file args) as [[|c f]|]; try apply Hsum.
    destruct (readFile h (c :: f)); try reflexivity. apply Hsum. }
  split; [|exact Hex].
  rewrite Hex. unfold execute, summarize.
  cbn [withQuotes text file mode format max_length abstraction_level focus
       instructions include_quotes include_stats orDefault].
  reflexivity.
Qed.

(** The example behind C10: with the [brief] mode the sentence itself is a
    qualifying quote, and in the [json] format asking for quotes changes
    nothing. *)
Lemma include_quotes_without_effect_witness :
  (js "json" <> js "markdown" /\ js "json" <> js "plain"
   /\ extractRelevantQuotes asciiLower (js quoteText)
        (generateBriefSummary asciiLower (analyzeContent asciiLower (js quoteText)) 3)
      = [js quoteText])
  /\ appendQuotes (js "summary") [js quoteText] (js "json") = js "summary"
  /\ execute asciiLower bareHost (withQuotes (textArgs quoteText "brief" "json") (Some true))
     = execute asciiLower bareHost (withQuotes (textArgs quoteText "brief" "json") (Some false)).
Proof.
  assert (H1 : js "json" <> js "markdown") by discriminate.
  assert (H2 : js "json" <> js "plain") by discriminate.
  split.
  - split; [exact H1|]. split; [exact H2|]. vm_compute. reflexivity.
  - destruct (include_quotes_without_effect (js "json") H1 H2) as [Happ Hex]. split.
    + apply Happ.
    + apply (Hex asciiLower bareHost (textArgs quoteText "brief" "json")). reflexivity.
Defined.

(** ** Validation *)

(** C2: when text and file are both missing, or both given, or the
    abstraction level is below 1 or above 5, [execute] returns a failure
    result (no output, no data) carrying one of its three non-empty messages;
    the result is the same for every host and case table, so neither the
    file system nor the analysis is consulted, and [execute] being a total
    function no exception leaves it. *)
Theorem validation_failure :
  forall lower h args,
    (notProvided (text args) /\ notProvided (file args))
    \/ (provided (text args) /\ provided (file args))
    \/ (orDefault (abstraction_level args) 3 <? 1)%float = true
    \/ (5 <? orDefault (abstraction_level args) 3)%float = true ->
    exists msg,
      execute lower h args
      = {| success := false; output := None; error := Some msg; data := None |}
      /\ msg <> []
      /\ In msg [js "Either text or file parameter must be provided";
                 js "Cannot provide both text and file parameters";
                 js "Abstraction level must be between 1 (very concrete) and 5 (very abstract)"]
      /\ forall lower' h', execute lower' h' args = execute lower h args.
Proof.
  intros lower h args H.
  unfold provided, notProvided in H.
  assert (Hall : exists msg,
             In msg [js "Either text or file parameter must be provided";
                     js "Cannot provide both text and file parameters";
                     js "Abstraction level must be between 1 (very concrete) and 5 (very abstract)"]
             /\ forall lower0 h0, execute lower0 h0 args = failure msg).
  { destruct (negb (truthy_opt (text args)) && negb (truthy_opt (file args))) eqn:E1.
    { eexists. split; [left; reflexivity|].
      intros. unfold execute. rewrite E1. reflexivity. }
    destruct (truthy_opt (text args) && truthy_opt (file args)) eqn:E2.
    { eexists. split; [right; left; reflexivity|].
      intros. unfold execute. rewrite E1, E2. reflexivity. }
    assert (E3 : (orDefault (abstraction_level args) 3 <? 1)%float
                 || (5 <? orDefault (abstraction_level args) 3)%float = true).
    { destruct H as [[Ht Hf]|[[Ht Hf]|[Hl|Hl]]].
      - rewrite Ht, Hf in E1. discriminate E1.
      - rewrite Ht, Hf in E2. discriminate E2.
      - rewrite Hl. reflexivity.
      - rewrite Hl. apply orb_true_r. }
    eexists. split; [right; right; left; reflexivity|].
    intros. unfold execute. rewrite E1, E2, E3. reflexivity. }
  destruct Hall as [msg [Hin Hall]].
  exists msg. split; [apply Hall|]. split.
  - destruct Hin as [<-|[<-|[<-|[]]]]; discriminate.
  - split; [exact Hin|]. intros. rewrite !Hall. reflexivity.
Qed.

(** C2 at a concrete call: an empty text and no file. *)
Lemma validation_failure_witness :
  (notProvided (text (textArgs "" "auto" "markdown"))
   /\ notProvided (file (textArgs "" "auto" "markdown")))
  /\ exists msg,
      execute asciiLower bareHost (textArgs "" "auto" "markdown")
      = {| success := false; output := None; error := Some msg; data := None |}
      /\ msg <> []
      /\ In msg [js "Either text or file parameter must be provided";
                 js "Cannot provide both text and file parameters";
                 js "Abstraction level must be between 1 (very concrete) and 5 (very abstract)"]
      /\ forall lower' h',
           execute lower' h' (textArgs "" "auto" "markdown")
           = execute asciiLower bareHost (textArgs "" "auto" "markdown").
Proof.
  split.
  - split; reflexivity.
  - apply (validation_failure asciiLower bareHost (textArgs "" "auto" "markdown")).
    left. split; reflexivity.
Defined.

(** ** Pros and cons *)

Lemma classify_fold (ss : list jsstring) (pros cons : list jsstring) :
  fold_left prosConsStep ss (pros, cons)
  = (pros ++ map trim (filter isPositive ss),
     cons ++ map trim (filter (fun s => negb (isPositive s) && isNegative s) ss)).
Proof.
  revert pros cons. induction ss as [|s ss IH]; intros pros cons; cbn [fold_left].
  - cbn. rewrite !app_nil_r. reflexivity.
  - unfold prosConsStep at 2. cbn [filter]. fold (isPositive s). fold (isNegative s).
    destruct (isPositive s); cbn [negb andb fst snd].
    + rewrite IH. cbn [map]. rewrite <- app_assoc. reflexivity.
    + destruct (isNegative s); rewrite IH; cbn [map fst snd].
      * rewrite <- app_assoc. reflexivity.
      * reflexivity.
Qed.

(** C7: the classification of [generateProsConsList] is exclusive, positive
    first: the pros are the (trimmed) sentences that match a positive term,
    the cons those that match no positive term and a negative one, the
    others are in neither list; on the two-sentence example the first
    sentence is the Pros bullet and the second the Cons bullet. *)
Theorem pros_cons_first_match_wins :
  (forall ss,
      classifyProsCons ss
      = (map trim (filter isPositive ss),
         map trim (filter (fun s => negb (isPositive s) && isNegative s) ss)))
  /\ (forall lower,
        sentences (analyzeContent lower (js prosConsText))
        = [js "This approach offers significant benefit.";
           js " However, there is a major drawback."])
  /\ (forall lower h,
        output (execute lower h (textArgs prosConsText "pros_cons" "markdown"))
        = Some (js "**Pros:**" ++ [LF]
                ++ bullet (js "This approach offers significant benefit.")
                ++ [LF; LF] ++ js "**Cons:**" ++ [LF]
                ++ bullet (js "However, there is a major drawback."))).
Proof.
  split; [|split].
  - intros ss. unfold classifyProsCons. rewrite classify_fold. reflexivity.
  - intros lower. vm_compute. reflexivity.
  - intros lower h. vm_compute. reflexivity.
Qed.

(** ** Relevant quotes *)

Lemma subseq_refl {A} (l : list A) : subseq l l.
Proof. induction l; constructor; assumption. Qed.






(** ** Splitting into lines and joining *)

Lemma splitChar_nonempty (c : N) (s : jsstring) : splitChar c s <> [].
Proof.
  destruct s as [|x s]; cbn; [discriminate|].
  destruct (x =? c)%N; [discriminate|].
  destruct (splitChar c s); discriminate.
Qed.

Lemma splitChar_free (c : N) (s : jsstring) :
  Forall (fun piece => ~ In c piece) (splitChar c s).
Proof.
  induction s as [|x s IH]; cbn.
  - constructor; [intros []|constructor].
  - destruct (x =? c)%N eqn:E.
    + constructor; [intros []|exact IH].
    + apply N.eqb_neq in E.
      destruct (splitChar c s) as [|cur rest].
      * constructor; [|constructor]. intros [H|[]]. congruence.
      * inversion IH; subst. constructor; [|assumption].
        intros [H|H]; [congruence|contradiction].
Qed.

Lemma splitChar_app (c : N) (piece rest : jsstring) :
  ~ In c piece ->
  splitChar c (piece ++ c :: rest) = piece :: splitChar c rest.
Proof.
  induction piece as [|x piece IH]; intros Hfree; cbn.
  - rewrite N.eqb_refl. reflexivity.
  - destruct (x =? c)%N eqn:E.
    + apply N.eqb_eq in E. exfalso. apply Hfree. left. congruence.
    + rewrite IH; [reflexivity|]. intros H. apply Hfree. right. exact H.
Qed.

Lemma splitChar_single (c : N) (piece : jsstring) :
  ~ In c piece -> splitChar c piece = [piece].
Proof.
  induction piece as [|x piece IH]; intros Hfree; cbn.
  - reflexivity.
  - destruct (x =? c)%N eqn:E.
    + apply N.eqb_eq in E. exfalso. apply Hfree. left. congruence.
    + rewrite IH; [reflexivity|]. intros H. apply Hfree. right. exact H.
Qed.

(** Joining pieces that do not hold the separator and splitting again gives
    the pieces back. *)
Lemma splitChar_join (c : N) (pieces : list jsstring) :
  pieces <> [] ->
  Forall (fun piece => ~ In c piece) pieces ->
  splitChar c (join [c] pieces) = pieces.
Proof.
  induction pieces as [|p pieces IH]; intros Hne Hfree; [congruence|].
  inversion Hfree as [|? ? Hp Hrest]; subst.
  destruct pieces as [|q pieces].
  - cbn. apply splitChar_single. exact Hp.
  - change (join [c] (p :: q :: pieces)) with (p ++ [c] ++ join [c] (q :: pieces)).
    cbn [app]. rewrite splitChar_app by exact Hp.
    rewrite IH; [reflexivity|discriminate|exact Hrest].
Qed.

Lemma Forall_filter {A} (P : A -> Prop) (f : A -> bool) (l : list A) :
  Forall P l -> Forall P (filter f l).
Proof.
  induction 1 as [|x l Hx Hl IH]; cbn; [constructor|].
  destruct (f x); [constructor|]; assumption.
Qed.

(** ** Focus filter *)

(** C5: [applyFocusFilter] keeps exactly the lines that contain the focus
    term (both lowercased) or are shorter than 50 characters, unless fewer
    than half of the lines are kept, in which case the summary comes back
    unchanged; so the result never has fewer than ceil(n/2) lines, n being
    the number of lines of the summary. *)
Theorem focus_filter_keeps_half :
  forall lower summary focus a,
    let lines := splitChar LF summary in
    let kept :=
      filter (fun line => includes (lower line) (lower focus)
                          || (length line <? 50)) lines in
    applyFocusFilter lower summary focus a
    = (if 2 * length kept <? length lines then summary else join [LF] kept)
    /\ splitChar LF (applyFocusFilter lower summary focus a)
       = (if 2 * length kept <? length lines then lines else kept)
    /\ (length lines + 1) / 2
       <= length (splitChar LF (applyFocusFilter lower summary focus a)).
Proof.
  intros lower summary focus a lines kept.
  assert (Hdef : applyFocusFilter lower summary focus a
                 = if 2 * length kept <? length lines then summary
                   else join [LF] kept) by reflexivity.
  assert (Hpos : lines <> []) by apply splitChar_nonempty.
  assert (Hlen : 1 <= length lines).
  { destruct lines; [congruence|cbn; lia]. }
  assert (Hsplit : (2 * length kept <? length lines) = false ->
                   splitChar LF (join [LF] kept) = kept).
  { intros Hhalf. apply Nat.ltb_ge in Hhalf. apply splitChar_join.
    - intros Hk. rewrite Hk in Hhalf. cbn in Hhalf. lia.
    - apply Forall_filter. apply splitChar_free. }
  split; [exact Hdef|]. split.
  - rewrite Hdef. destruct (2 * length kept <? length lines);
      [reflexivity|apply Hsplit; reflexivity].
  - rewrite Hdef. destruct (2 * length kept <? length lines) eqn:Hhalf.
    + change (splitChar LF summary) with lines.
      apply Nat.Div0.div_le_upper_bound. clear - Hlen. clearbody lines. unfold jsstring in *. lia.
    + rewrite Hsplit by reflexivity. apply Nat.ltb_ge in Hhalf.
      apply Nat.lt_succ_r. apply Nat.Div0.div_lt_upper_bound.
      clear - Hhalf. clearbody kept lines. unfold jsstring in *. lia.
Qed.

(** ** Compression ratio *)

Lemma summarize_data (lower : jsstring -> jsstring) (h : Host) (args : Args)
    (c : jsstring) :
  exists out d,
    output (summarize lower h args c) = Some out
    /\ data (summarize lower h args c) = Some d
    /\ originalLength d = length c
    /\ summaryLength d = length out
    /\ compressionRatio d = compressionRatioOf (length out) (length c).
Proof.
  unfold summarize. eexists. eexists. cbn [output data].
  split; [reflexivity|]. split; [reflexivity|].
  cbn [originalLength summaryLength compressionRatio]. repeat split.
Qed.

(** C1, amended: when a call succeeds on a non-empty content, the result's
    [compressionRatio] is [Math.round((1 - summaryLength / originalLength) * 100)]
    in double arithmetic, where [summaryLength] is the length in UTF-16 code
    units of the returned output and [originalLength] that of the content. *)
Theorem compression_ratio_over_lengths :
  forall lower h args d,
    data (execute lower h args) = Some d ->
    contentOf h args <> [] ->
    originalLength d = length (contentOf h args)
    /\ option_map (@length N) (output (execute lower h args))
       = Some (summaryLength d)
    /\ compressionRatio d
       = compressionRatioOf (summaryLength d) (originalLength d).
Proof.
  intros lower h args d Hd _. unfold execute, contentOf in *.
  destruct (negb (truthy_opt (text args)) && negb (truthy_opt (file args)));
    [discriminate Hd|].
  destruct (truthy_opt (text args) && truthy_opt (file args)); [discriminate Hd|].
  destruct ((orDefault (abstraction_level args) 3 <? 1)%float
            || (5 <? orDefault (abstraction_level args) 3)%float); [discriminate Hd|].
  assert (Hsum : forall c,
             data (summarize lower h args c) = Some d ->
             originalLength d = length c
             /\ option_map (@length N) (output (summarize lower h args c))
                = Some (summaryLength d)
             /\ compressionRatio d
                = compressionRatioOf (summaryLength d) (originalLength d)).
  { intros c Hc.
    destruct (summarize_data lower h args c) as [out [d' [Ho [Hd' [H1 [H2 H3]]]]]].
    rewrite Hd' in Hc. injection Hc as <-.
    rewrite Ho, H1, H2. cbn. rewrite H3. repeat split. }
  destruct (file args) as [[|c f]|]; try (apply Hsum; exact Hd).
  destruct (readFile h (c :: f)); try discriminate Hd.
  apply Hsum. exact Hd.
Qed.

(** The amended C1 on the one-line example: 74 characters in, 91 out. *)
Lemma compression_ratio_over_lengths_witness :
  exists d,
    data (execute asciiLower bareHost (textArgs foxText "auto" "markdown")) = Some d
    /\ contentOf bareHost (textArgs foxText "auto" "markdown") <> []
    /\ originalLength d = 74
    /\ summaryLength d = 91
    /\ compressionRatio d = compressionRatioOf 91 74.
Proof.
  destruct (data (execute asciiLower bareHost (textArgs foxText "auto" "markdown")))
    as [d|] eqn:Hd; [|vm_compute in Hd; discriminate Hd].
  assert (Hne : contentOf bareHost (textArgs foxText "auto" "markdown") <> [])
    by (vm_compute; discriminate).
  destruct (compression_ratio_over_lengths asciiLower bareHost
              (textArgs foxText "auto" "markdown") d Hd Hne) as [H1 [H2 H3]].
  exists d. split; [reflexivity|]. split; [exact Hne|].
  assert (H74 : originalLength d = 74) by (rewrite H1; vm_compute; reflexivity).
  assert (H91 : summaryLength d = 91).
  { vm_compute in H2. injection H2 as H2. symmetry. exact H2. }
  split; [exact H74|]. split; [exact H91|].
  rewrite H3, H74, H91. reflexivity.
Defined.

(** C1 as stated fails twice.  On the one-line example the ratio is -23,
    taken over the 91 and 74 characters, where the word counts 16 and 15
    give -7; and for an empty file the ratio is NaN. *)
Lemma compression_ratio_not_over_words :
  (exists out d,
      execute asciiLower bareHost (textArgs foxText "auto" "markdown")
      = {| success := true; output := Some out; error := None; data := Some d |}
      /\ wordCount out = 16 /\ wordCount (js foxText) = 15
      /\ compressionRatio_spec out (js foxText) = (-7)%float
      /\ compressionRatio d = (-23)%float)
  /\ (exists d,
        execute asciiLower emptyFileHost (fileArgs "empty.txt")
        = {| success := true; output := Some []; error := None; data := Some d |}
        /\ originalLength d = 0
        /\ PrimFloat.is_nan (compressionRatio d) = true).
Proof.
  split.
  - eexists. eexists. split; [vm_compute; reflexivity|].
    repeat split; vm_compute; reflexivity.
  - eexists. split; [vm_compute; reflexivity|].
    repeat split; vm_compute; reflexivity.
Qed.

(** ** Key points *)

Lemma indexOf_nth (l : list jsstring) (i : nat) (s : jsstring) :
  NoDup l -> nth_error l i = Some s -> indexOf l s = Some i.
Proof.
  revert i. induction l as [|y l IH]; intros i Hnd Hnth.
  - destruct i; discriminate Hnth.
  - inversion Hnd as [|? ? Hy Hl]; subst. cbn [indexOf]. destruct i as [|i].
    + cbn in Hnth. injection Hnth as ->.
      destruct (str_eqb s s) eqn:E; [reflexivity|].
      apply str_eqb_neq in E. congruence.
    + cbn in Hnth. destruct (str_eqb y s) eqn:E.
      * apply str_eqb_eq in E. subst y. exfalso. apply Hy.
        eapply nth_error_In. exact Hnth.
      * rewrite (IH i Hl Hnth). reflexivity.
Qed.

Lemma map_filter_indexed {B : Type} (P : jsstring -> bool)
    (f : jsstring -> B) (g : nat * jsstring -> B) (l : list jsstring) (k : nat) :
  (forall i s, nth_error l i = Some s -> g (k + i, s) = f s) ->
  map g (filter (fun ps => P (snd ps)) (combine (seq k (length l)) l))
  = map f (filter P l).
Proof.
  revert k. induction l as [|x l IH]; intros k H; [reflexivity|].
  cbn [length seq combine filter snd].
  assert (Hx : g (k, x) = f x).
  { rewrite <- (H 0 x eq_refl). f_equal. f_equal. lia. }
  assert (Hrest : map g (filter (fun ps => P (snd ps)) (combine (seq (S k) (length l)) l))
                  = map f (filter P l)).
  { apply IH. intros i s Hi. rewrite <- (H (S i) s Hi). f_equal. f_equal. lia. }
  destruct (P x); cbn [map]; rewrite Hrest; [rewrite Hx|]; reflexivity.
Qed.

Lemma map_indexed {B : Type} (f : jsstring -> B) (g : nat * jsstring -> B)
    (l : list jsstring) (k : nat) :
  (forall i s, nth_error l i = Some s -> g (k + i, s) = f s) ->
  map g (combine (seq k (length l)) l) = map f l.
Proof.
  intros H.
  assert (Hall : forall (A : Type) (xs : list A), filter (fun _ => true) xs = xs).
  { intros A xs. induction xs as [|x xs IH]; cbn; [|rewrite IH]; reflexivity. }
  pose proof (map_filter_indexed (fun _ => true) f g l k H) as Hm.
  cbv beta in Hm. rewrite !Hall in Hm. exact Hm.
Qed.

Lemma keywordBonus_lower (lower : jsstring -> jsstring) (kw : omap nat)
    (sentence : jsstring) (acc : nat) :
  Forall (fun kc => lower (fst kc) = fst kc) kw ->
  fold_left (fun score kc =>
               if includes (lower sentence) (lower (fst kc))
               then score + Nat.min (snd kc) 3 else score) kw acc
  = fold_left (fun score kc =>
                 if includes (lower sentence) (fst kc)
                 then score + Nat.min (snd kc) 3 else score) kw acc.
Proof.
  intros H. revert acc. induction H as [|kc kw Hkc Hkw IH]; intros acc;
    [reflexivity|].
  cbn [fold_left]. rewrite Hkc. apply IH.
Qed.

(** Where no sentence occurs twice (and the keywords are in lower case, as
    [analyzeContent] produces them) [extractKeyPoints] is what the
    specification describes. *)
Lemma key_points_agree_without_repeats (lower : jsstring -> jsstring)
    (a : ContentAnalysis) (count : nat) (focus : option jsstring) :
  NoDup (sentences a) ->
  Forall (fun kc => lower (fst kc) = fst kc) (keywords a) ->
  extractKeyPoints lower a count focus = extractKeyPoints_spec lower a count focus.
Proof.
  intros Hnd Hkw. unfold extractKeyPoints, extractKeyPoints_spec.
  assert (Hscore : forall i s,
             nth_error (sentences a) i = Some s ->
             (fun ps : nat * jsstring =>
                (snd ps, keyPointScore_spec lower a (fst ps) (snd ps))) (0 + i, s)
             = (fun sentence => (sentence, keyPointScore lower a sentence)) s).
  { intros i s Hi. cbn [fst snd plus]. f_equal.
    unfold keyPointScore_spec, keyPointScore, keywordBonus.
    rewrite (indexOf_nth _ _ _ Hnd Hi). rewrite keywordBonus_lower by exact Hkw.
    reflexivity. }
  f_equal. f_equal. f_equal.
  destruct focus as [[|c f]|].
  - symmetry. apply (map_indexed _ _ (sentences a) 0 Hscore).
  - symmetry.
    apply (map_filter_indexed (fun s => includes (lower s) (lower (c :: f)))
                              _ _ (sentences a) 0 Hscore).
  - symmetry. apply (map_indexed _ _ (sentences a) 0 Hscore).
Qed.

(** C3, at a text whose last sentence repeats the second: [indexOf] finds
    the repeated sentence at position 1, so the sentence at position 7 gets
    the position bonus and is returned among the first six key points, where
    the sentence at position 5 would be; the [bullet_points] mode shows the
    same order. *)
Theorem key_points_repeated_sentence :
  let a := analyzeContent asciiLower (js repeatedText) in
  sentences a
  = [js "One."; js " Two."; js " Six."; js " Ten."; js " Red."; js " Big.";
     js " Old."; js " Two."]
  /\ keywords a = []
  /\ nth_error (sentences a) 7 = Some (js " Two.")
  /\ indexOf (sentences a) (js " Two.") = Some 1
  /\ keyPointScore asciiLower a (js " Two.") = 2
  /\ keyPointScore_spec asciiLower a 7 (js " Two.") = 0
  /\ extractKeyPoints asciiLower a 6 None
     = [js "One."; js "Two."; js "Six."; js "Ten."; js "Red."; js "Two."]
  /\ extractKeyPoints_spec asciiLower a 6 None
     = [js "One."; js "Two."; js "Six."; js "Ten."; js "Red."; js "Big."]
  /\ output (execute asciiLower bareHost
               (textArgs repeatedText "bullet_points" "markdown"))
     = Some (join [LF]
               (map bullet
                  [js "One."; js "Two."; js "Six."; js "Ten."; js "Red.";
                   js "Two."; js "Big."; js "Old."])).
Proof.
  cbv zeta. repeat split; vm_compute; reflexivity.
Qed.

(** ** Quantified one-character atoms *)

Lemma repLoop_chr (ic : bool) (p : N -> bool) (lo : nat) (hi : option nat)
    (greedy : bool) (k : mstate -> caps -> mresult) (rest : jsstring) :
  forall fuel cnt prev cs,
    length rest < fuel ->
    repLoop (rmatch ic (Chr p)) lo hi greedy k fuel cnt (prev, rest) cs
    = repChr ic p lo hi greedy k cnt prev rest cs.
Proof.
  induction rest as [|c rest IH]; intros fuel cnt prev cs Hfuel;
    (destruct fuel as [|fuel]; [cbn in Hfuel; lia|]).
  - cbn. destruct (belowHi cnt hi); reflexivity.
  - cbn [repLoop rmatch snd repChr].
    assert (Hlt : (length rest <? length (c :: rest)) = true).
    { apply Nat.ltb_lt. cbn. lia. }
    rewrite Hlt. cbn [orb].
    rewrite IH by (cbn in Hfuel; lia).
    destruct (belowHi cnt hi), (chrTest ic p c); reflexivity.
Qed.

Lemma rmatch_rep_chr (ic : bool) (p : N -> bool) (lo : nat) (hi : option nat)
    (greedy : bool) (st : mstate) (cs : caps) (k : mstate -> caps -> mresult) :
  rmatch ic (Rep (Chr p) lo hi greedy) st cs k
  = repChr ic p lo hi greedy k 0 (fst st) (snd st) cs.
Proof.
  destruct st as [prev rest]. cbn [rmatch fst snd].
  apply repLoop_chr. lia.
Qed.

Lemma orElse_some (a b : mresult) : orElse a b <> None <-> a <> None \/ b <> None.
Proof.
  destruct a, b; cbn; split; intros H; try tauto; try (left; discriminate);
    try (right; discriminate); try discriminate.
Qed.

(** A quantified one-character atom matches exactly when some admissible
    number of characters can be taken and the continuation accepts what is
    left; greedy and lazy differ only in which split is found first. *)
Lemma repChr_some_iff (ic : bool) (p : N -> bool) (lo : nat) (hi : option nat)
    (greedy : bool) (k : mstate -> caps -> mresult) (rest : jsstring) :
  forall cnt prev cs,
    repChr ic p lo hi greedy k cnt prev rest cs <> None
    <-> exists taken rest',
          rest = taken ++ rest'
          /\ forallb (chrTest ic p) taken = true
          /\ lo <= cnt + length taken
          /\ (taken = [] \/ atMost (cnt + length taken) hi)
          /\ k (lastOr prev taken, rest') cs <> None.
Proof.
  induction rest as [|c rest IH]; intros cnt prev cs.
  - cbn [repChr].
    assert (Hstop : (if greedy
                     then orElse None (if lo <=? cnt then k (prev, []) cs else None)
                     else orElse (if lo <=? cnt then k (prev, []) cs else None) None)
                    <> None
                    <-> lo <= cnt /\ k (prev, []) cs <> None).
    { destruct greedy; rewrite orElse_some;
        destruct (lo <=? cnt) eqn:E;
        [apply Nat.leb_le in E|apply Nat.leb_gt in E
        |apply Nat.leb_le in E|apply Nat.leb_gt in E];
        split; intros H; try tauto; try (destruct H; [tauto|lia]);
        try (destruct H as [H|H]; congruence); try lia. }
    rewrite Hstop. split.
    + intros [Hlo Hk]. exists [], []. cbn. repeat split; auto. lia.
    + intros [taken [rest' [Heq [_ [Hlo [_ Hk]]]]]].
      symmetry in Heq. apply app_eq_nil in Heq. destruct Heq as [-> ->].
      cbn in *. split; [lia|exact Hk].
  - pose (more := if belowHi cnt hi && chrTest ic p c
                  then repChr ic p lo hi greedy k (S cnt) (Some c) rest cs
                  else None).
    pose (stop := if lo <=? cnt then k (prev, c :: rest) cs else None).
    change (repChr ic p lo hi greedy k cnt prev (c :: rest) cs)
      with (if greedy then orElse more stop else orElse stop more).
    assert (Hshape : (if greedy then orElse more stop else orElse stop more) <> None
                     <-> more <> None \/ stop <> None).
    { destruct greedy; rewrite orElse_some; tauto. }
    rewrite Hshape. clear Hshape. split.
    + intros [Hmore|Hstop].
      * subst more. destruct (belowHi cnt hi) eqn:Ehi; [|cbn in Hmore; congruence].
        destruct (chrTest ic p c) eqn:Ec; [|cbn in Hmore; congruence].
        cbn [andb] in Hmore. apply IH in Hmore.
        destruct Hmore as [taken [rest' [-> [Hall [Hlo [Hhi Hk]]]]]].
        exists (c :: taken), rest'. cbn [app forallb length lastOr fold_left].
        rewrite Ec, Hall. repeat split; auto; try lia.
        right. destruct hi as [h|]; cbn in *; [|exact I].
        apply Nat.ltb_lt in Ehi. destruct Hhi as [->|Hhi]; cbn; lia.
      * subst stop. destruct (lo <=? cnt) eqn:E; [|congruence].
        apply Nat.leb_le in E. exists [], (c :: rest). cbn.
        repeat split; auto. lia.
    + intros [taken [rest' [Heq [Hall [Hlo [Hhi Hk]]]]]].
      destruct taken as [|c' taken].
      * right. subst stop. cbn in Heq. subst rest'. cbn in Hlo, Hk.
        assert (E : (lo <=? cnt) = true) by (apply Nat.leb_le; lia).
        rewrite E. exact Hk.
      * left. subst more. cbn in Heq. injection Heq as <- ->.
        cbn [forallb] in Hall. apply andb_true_iff in Hall. destruct Hall as [Ec Hall].
        assert (Ehi : belowHi cnt hi = true).
        { destruct hi as [h|]; cbn in *; [|reflexivity].
          apply Nat.ltb_lt. destruct Hhi as [Hhi|Hhi]; [discriminate|lia]. }
        rewrite Ehi, Ec. cbn [andb]. apply IH.
        exists taken, rest'. cbn [length] in *. repeat split; auto; try lia.
        destruct Hhi as [Hhi|Hhi]; [discriminate|].
        right. destruct hi as [h|]; cbn in *; [lia|exact I].
Qed.

(** ** Splitting on white space *)

Lemma repChr_run (p : N -> bool) (rest : jsstring) :
  forall cnt prev cs,
    1 <= cnt ->
    repChr false p 1 None true (fun st cs' => Some (st, cs')) cnt prev rest cs
    = Some (runEnd p prev rest, cs).
Proof.
  induction rest as [|c rest IH]; intros cnt prev cs Hcnt.
  - cbn. destruct cnt; [lia|reflexivity].
  - cbn [repChr runEnd belowHi chrTest andb].
    destruct (p c).
    + rewrite IH by lia. reflexivity.
    + cbn. destruct cnt; [lia|reflexivity].
Qed.

Lemma execAt_spaces (prev : option N) (rest : jsstring) :
  execAt false reSpaces (prev, rest)
  = match rest with
    | c :: rest' =>
        if isSpace c then Some (runEnd isSpace (Some c) rest', []) else None
    | [] => None
    end.
Proof.
  unfold execAt, reSpaces, plus, ws. rewrite rmatch_rep_chr. cbn [fst snd].
  destruct rest as [|c rest]; [reflexivity|].
  cbn [repChr belowHi chrTest andb Nat.leb].
  destruct (isSpace c); [|reflexivity].
  rewrite repChr_run by lia. reflexivity.
Qed.

Lemma runEnd_length (p : N -> bool) (rest : jsstring) (prev : option N) :
  length (snd (runEnd p prev rest)) <= length rest.
Proof.
  revert prev. induction rest as [|c rest IH]; intros prev; cbn; [lia|].
  destruct (p c); [specialize (IH (Some c)); lia|cbn; lia].
Qed.

Lemma wsTokens_skip (rest : jsstring) (prev : option N) :
  wsTokens true [] rest = wsTokens false [] (snd (runEnd isSpace prev rest)).
Proof.
  revert prev. induction rest as [|c rest IH]; intros prev; cbn; [reflexivity|].
  destruct (isSpace c) eqn:E.
  - apply IH.
  - cbn. rewrite E. reflexivity.
Qed.

Lemma splitFrom_spaces (fuel : nat) :
  forall rest cur prev,
    length rest <= fuel ->
    splitFrom fuel false reSpaces cur prev rest = wsTokens false cur rest.
Proof.
  induction fuel as [|fuel IH]; intros rest cur prev Hfuel.
  - destruct rest; [|cbn in Hfuel; lia]. cbn. rewrite app_nil_r. reflexivity.
  - destruct rest as [|c rest]; [reflexivity|].
    cbn [splitFrom wsTokens]. rewrite execAt_spaces.
    destruct (isSpace c).
    + pose proof (runEnd_length isSpace rest (Some c)) as Hlen.
      assert (Hneq : (length (snd (runEnd isSpace (Some c) rest)) =? length (c :: rest))
                     = false).
      { apply Nat.eqb_neq. cbn. lia. }
      rewrite Hneq. cbn [andb].
      rewrite IH by (cbn in Hfuel; lia).
      rewrite <- wsTokens_skip. reflexivity.
    + apply IH. cbn in Hfuel. lia.
Qed.

(** [s.split(/\s+/)] is the one-pass reading of the pieces. *)
Lemma splitRe_spaces (s : jsstring) :
  splitRe false reSpaces s = wsTokens false [] s.
Proof.
  destruct s as [|c s]; [reflexivity|].
  unfold splitRe. apply splitFrom_spaces. cbn. lia.
Qed.

Lemma wsTokens_noSpace (rest : jsstring) :
  forall inSep cur, noSpace cur -> Forall noSpace (wsTokens inSep cur rest).
Proof.
  induction rest as [|c rest IH]; intros inSep cur Hcur; cbn.
  - constructor; [|constructor]. apply Forall_rev. exact Hcur.
  - destruct (isSpace c) eqn:E.
    + destruct inSep.
      * apply IH. constructor.
      * constructor; [apply Forall_rev; exact Hcur|]. apply IH. constructor.
    + apply IH. constructor; assumption.
Qed.

Lemma wsTokens_nonempty (rest : jsstring) (inSep : bool) (cur : jsstring) :
  wsTokens inSep cur rest <> [].
Proof.
  revert inSep cur. induction rest as [|c rest IH]; intros inSep cur; cbn;
    [discriminate|].
  destruct (isSpace c); [destruct inSep; [apply IH|discriminate]|apply IH].
Qed.

Lemma innerNonEmpty_tl (l : list jsstring) : innerNonEmpty l -> innerNonEmpty (tl l).
Proof.
  unfold innerNonEmpty. destruct l as [|x [|y l]]; cbn; intros H;
    try constructor.
  inversion H; assumption.
Qed.

(** Only the first and the last piece can be empty. *)
Lemma wsTokens_inner (rest : jsstring) :
  forall inSep cur,
    (inSep = true -> cur = []) ->
    innerNonEmpty (tl (wsTokens inSep cur rest))
    /\ (inSep = true \/ cur <> [] -> innerNonEmpty (wsTokens inSep cur rest)).
Proof.
  induction rest as [|c rest IH]; intros inSep cur Hsep.
  - cbn [wsTokens tl]. split; [constructor|intros _; constructor].
  - cbn [wsTokens]. destruct (isSpace c).
    + destruct inSep.
      * destruct (IH true [] (fun _ => eq_refl)) as [_ H2].
        split; [apply innerNonEmpty_tl|intros _]; apply H2; left; reflexivity.
      * destruct (IH true [] (fun _ => eq_refl)) as [_ H2].
        specialize (H2 (or_introl eq_refl)).
        cbn [tl]. split; [exact H2|].
        intros [Hf|Hcur]; [discriminate|].
        unfold innerNonEmpty in *.
        pose proof (wsTokens_nonempty rest true []) as Hne.
        destruct (wsTokens true [] rest) as [|t ts]; [congruence|].
        cbn [removelast]. constructor; [|exact H2].
        intros Hrev. apply Hcur. apply (f_equal (@rev N)) in Hrev.
        rewrite rev_involutive in Hrev. exact Hrev.
    + assert (Hns : false = true -> c :: cur = []) by discriminate.
      destruct (IH false (c :: cur) Hns) as [H1 H2].
      split; [exact H1|]. intros _. apply H2. right. discriminate.
Qed.

Lemma wsTokens_app_noSpace (x : jsstring) :
  forall cur rest,
    noSpace x ->
    wsTokens false cur (x ++ rest) = wsTokens false (rev x ++ cur) rest.
Proof.
  induction x as [|c x IH]; intros cur rest Hx; [reflexivity|].
  inversion Hx as [|? ? Hc Hx']; subst. cbn [app wsTokens rev]. rewrite Hc.
  rewrite IH by exact Hx'. rewrite <- app_assoc. reflexivity.
Qed.

(** Words without white space, all but the first non-empty, joined with
    single spaces and followed by a tail without white space, split into
    as many pieces as there are words. *)
Lemma wsTokens_join_length (words : list jsstring) :
  forall cur tail,
    words <> [] ->
    Forall noSpace words ->
    Forall (fun w => w <> []) (tl words) ->
    noSpace tail ->
    length (wsTokens false cur (join [SPACE] words ++ tail)) = length words.
Proof.
  induction words as [|w words IH]; intros cur tail Hne Hns Hinner Htail;
    [congruence|].
  inversion Hns as [|? ? Hw Hws]; subst.
  destruct words as [|w2 words].
  - cbn [join length]. rewrite wsTokens_app_noSpace by exact Hw.
    rewrite <- (app_nil_r tail). rewrite wsTokens_app_noSpace by exact Htail.
    reflexivity.
  - change (join [SPACE] (w :: w2 :: words))
      with (w ++ [SPACE] ++ join [SPACE] (w2 :: words)).
    rewrite <- !app_assoc. rewrite wsTokens_app_noSpace by exact Hw.
    cbn [app wsTokens]. change (isSpace SPACE) with true. cbn iota.
    cbn [length]. f_equal.
    cbn [tl] in Hinner. inversion Hinner as [|? ? Hw2 Hrest]; subst.
    inversion Hws as [|? ? Hns2 _]; subst.
    destruct w2 as [|c w2]; [congruence|].
    inversion Hns2 as [|? ? Hc _]; subst.
    assert (Hskip : forall rest, wsTokens true [] (c :: rest) = wsTokens false [] (c :: rest)).
    { intros rest. cbn. rewrite Hc. reflexivity. }
    assert (Hj : exists rest, join [SPACE] ((c :: w2) :: words) ++ tail = c :: rest).
    { destruct words; cbn; eexists; reflexivity. }
    destruct Hj as [rest Hj].
    unfold jsstring in *. rewrite Hj, Hskip, <- Hj.
    apply IH; [discriminate|exact Hws|exact Hrest|exact Htail].
Qed.

Lemma Forall_firstn_keep {A} (P : A -> Prop) (n : nat) (l : list A) :
  Forall P l -> Forall P (firstn n l).
Proof.
  revert n. induction l as [|x l IH]; intros [|n] H; cbn; try constructor;
    inversion H; subst; auto.
Qed.

Lemma tl_firstn {A} (n : nat) (l : list A) : tl (firstn (S n) l) = firstn n (tl l).
Proof. destruct l; [destruct n|]; reflexivity. Qed.

Lemma firstn_all_but_last {A} (P : A -> Prop) (n : nat) (l : list A) :
  n < length l -> Forall P (removelast l) -> Forall P (firstn n l).
Proof.
  revert n. induction l as [|x l IH]; intros n Hn H; [cbn in Hn; lia|].
  destruct n as [|n]; [constructor|]. cbn [firstn].
  destruct l as [|y l]; [cbn in Hn; lia|].
  cbn [removelast] in H. inversion H; subst.
  constructor; [assumption|]. apply IH; [cbn in *; lia|assumption].
Qed.

(** ** Word limit *)

(** C6: for a limit [n >= 0], [trimToWordLimit s n] is [s] when [s] splits
    on white space into at most [n] pieces, and otherwise the first [n]
    pieces joined by single spaces and followed by three dots; trimming the
    result again with the same limit changes nothing. *)
Theorem trim_to_word_limit_idempotent :
  forall (s : jsstring) (n : Z),
    (0 <= n)%Z ->
    trimToWordLimit s n
    = (if (Z.of_nat (length (splitRe false reSpaces s)) <=? n)%Z then s
       else join (js " ") (firstn (Z.to_nat n) (splitRe false reSpaces s))
            ++ js "...")
    /\ trimToWordLimit (trimToWordLimit s n) n = trimToWordLimit s n.
Proof.
  intros s n Hn.
  assert (Hdef : forall t,
             trimToWordLimit t n
             = if (Z.of_nat (length (splitRe false reSpaces t)) <=? n)%Z then t
               else join (js " ") (firstn (Z.to_nat n) (splitRe false reSpaces t))
                    ++ js "...").
  { intros t. unfold trimToWordLimit, slice0.
    assert (E : (n <? 0)%Z = false) by (apply Z.ltb_ge; lia).
    rewrite E. reflexivity. }
  split; [apply Hdef|].
  rewrite (Hdef s).
  destruct (Z.of_nat (length (splitRe false reSpaces s)) <=? n)%Z eqn:Hfit.
  - rewrite Hdef, Hfit. reflexivity.
  - apply Z.leb_gt in Hfit. rewrite splitRe_spaces in *.
    remember (wsTokens false [] s) as words eqn:Hwords.
    remember (Z.to_nat n) as m eqn:Hm.
    assert (Hlt : m < length words).
    { clear - Hn Hm Hfit. subst m. apply Nat2Z.inj_lt. rewrite Z2Nat.id by exact Hn.
      exact Hfit. }
    destruct m as [|m].
    + assert (Hn0 : n = 0%Z) by lia. subst n. reflexivity.
    + rewrite Hdef. rewrite splitRe_spaces.
      change (js " ") with [SPACE].
      assert (Hcount : length (wsTokens false [] (join [SPACE] (firstn (S m) words)
                                                   ++ js "..."))
                       = length (firstn (S m) words)).
      { apply wsTokens_join_length.
        - destruct words; [cbn in Hlt; lia|discriminate].
        - apply Forall_firstn_keep. subst words. apply wsTokens_noSpace. constructor.
        - rewrite tl_firstn. apply firstn_all_but_last.
          + clear - Hlt. unfold jsstring in *.
            destruct words; cbn [tl length] in *; lia.
          + subst words.
            destruct (wsTokens_inner s false [] (fun H => eq_refl)) as [H1 _].
            exact H1.
        - repeat constructor. }
      rewrite Hcount. rewrite firstn_length_le by lia.
      assert (E : (Z.of_nat (S m) <=? n)%Z = true) by (apply Z.leb_le; lia).
      rewrite E. reflexivity.
Qed.

(** The amended limit on the five-word example: three words are kept, and
    trimming the result again returns it. *)
Lemma trim_to_word_limit_idempotent_witness :
  (0 <= 3)%Z
  /\ trimToWordLimit (js "one two three four five") 3 = js "one two three..."
  /\ trimToWordLimit (js "one two three...") 3 = js "one two three...".
Proof.
  assert (H : (0 <= 3)%Z) by lia.
  destruct (trim_to_word_limit_idempotent (js "one two three four five") 3 H)
    as [Hdef Hidem].
  assert (Hval : trimToWordLimit (js "one two three four five") 3
                 = js "one two three...").
  { rewrite Hdef. vm_compute. reflexivity. }
  split; [exact H|]. split; [exact Hval|].
  rewrite Hval in Hidem. exact Hidem.
Defined.

(** ** The matcher against the declarative reading *)

Lemma capIndep_some : capIndep (fun st cs => Some (st, cs)).
Proof. intros st cs1 cs2 _. discriminate. Qed.

(** For a [simple] literal the backtracking matcher succeeds exactly when
    the literal matches up to some state that the continuation accepts. *)
Lemma rmatch_some_iff (ic : bool) (r : regex) :
  simple r = true ->
  forall k, capIndep k ->
  forall st cs,
    rmatch ic r st cs k <> None
    <-> exists st', matchesAt ic r st st' /\ k st' [] <> None.
Proof.
  induction r as [|p|a IHa b IHb|a IHa b IHb|a IHa lo hi greedy|i a IHa| | |];
    intros Hs k Hk st cs.
  - cbn. split.
    + intros H. exists st. split; [reflexivity|]. eapply Hk. exact H.
    + intros [st' [-> H]]. eapply Hk. exact H.
  - cbn. destruct (snd st) as [|c rest] eqn:E.
    + split; [congruence|]. intros [st' [[c [rest [Hc _]]] _]]. discriminate Hc.
    + destruct (chrTest ic p c) eqn:Ec.
      * split.
        -- intros H. exists (Some c, rest). split.
           ++ exists c, rest. auto.
           ++ eapply Hk. exact H.
        -- intros [st' [[c' [rest' [Hc [_ ->]]]] H]].
           injection Hc as <- <-. eapply Hk. exact H.
      * split; [congruence|].
        intros [st' [[c' [rest' [Hc [Ht _]]]] _]].
        injection Hc as <- <-. congruence.
  - cbn [simple] in Hs. apply andb_true_iff in Hs. destruct Hs as [Hsa Hsb].
    cbn [rmatch matchesAt].
    assert (Hmid : capIndep (fun st' cs' => rmatch ic b st' cs' k)).
    { intros st0 cs1 cs2 H. apply (IHb Hsb k Hk). apply (IHb Hsb k Hk) in H. exact H. }
    rewrite (IHa Hsa _ Hmid). split.
    + intros [mid [Ha Hb]]. apply (IHb Hsb k Hk) in Hb.
      destruct Hb as [st' [Hb Hfin]]. exists st'. split; [|exact Hfin].
      exists mid. auto.
    + intros [st' [[mid [Ha Hb]] Hfin]]. exists mid. split; [exact Ha|].
      apply (IHb Hsb k Hk). exists st'. auto.
  - cbn [simple] in Hs. apply andb_true_iff in Hs. destruct Hs as [Hsa Hsb].
    cbn [rmatch matchesAt]. rewrite orElse_some.
    rewrite (IHa Hsa k Hk), (IHb Hsb k Hk). split.
    + intros [[st' [H1 H2]]|[st' [H1 H2]]]; exists st'; auto.
    + intros [st' [[H1|H1] H2]]; [left|right]; exists st'; auto.
  - destruct a; cbn [simple] in Hs; try discriminate Hs.
    rewrite rmatch_rep_chr, repChr_some_iff. cbn [matchesAt plus]. split.
    + intros [taken [rest' [H1 [H2 [H3 [H4 H5]]]]]].
      exists (lastOr (fst st) taken, rest'). split.
      * exists taken, rest'. auto.
      * eapply Hk. exact H5.
    + intros [st' [[taken [rest' [H1 [H2 [H3 [H4 ->]]]]]] H5]].
      exists taken, rest'. repeat split; auto. eapply Hk. exact H5.
  - cbn [simple] in Hs. cbn [rmatch matchesAt].
    assert (Hcap : capIndep (fun st' cs' =>
              k st' ((i, firstn (length (snd st) - length (snd st')) (snd st)) :: cs'))).
    { intros st0 cs1 cs2 H. eapply Hk. exact H. }
    rewrite (IHa Hs _ Hcap). split.
    + intros [st' [H1 H2]]. exists st'. split; [exact H1|]. eapply Hk. exact H2.
    + intros [st' [H1 H2]]. exists st'. split; [exact H1|]. eapply Hk. exact H2.
  - cbn. destruct (fst st) eqn:E.
    + split; [congruence|]. intros [st' [[H _] _]]. discriminate H.
    + split.
      * intros H. exists st. split; [auto|]. eapply Hk. exact H.
      * intros [st' [[_ ->] H]]. eapply Hk. exact H.
  - cbn. destruct (snd st) eqn:E.
    + split.
      * intros H. exists st. split; [auto|]. eapply Hk. exact H.
      * intros [st' [[_ ->] H]]. eapply Hk. exact H.
    + split; [congruence|]. intros [st' [[H _] _]]. discriminate H.
  - cbn. destruct (xorb (isWordOpt (fst st)) (isWordOpt (hd_error (snd st)))) eqn:E.
    + split.
      * intros H. exists st. split; [auto|]. eapply Hk. exact H.
      * intros [st' [[_ ->] H]]. eapply Hk. exact H.
    + split; [congruence|]. intros [st' [[H _] _]]. discriminate H.
Qed.

Lemma execAt_some_iff (ic : bool) (r : regex) (st : mstate) :
  simple r = true ->
  execAt ic r st <> None <-> exists st', matchesAt ic r st st'.
Proof.
  intros Hs. unfold execAt. rewrite (rmatch_some_iff ic r Hs _ capIndep_some).
  split.
  - intros [st' [H _]]. exists st'. exact H.
  - intros [st' H]. exists st'. split; [exact H|discriminate].
Qed.

(** ** Section titles *)

Lemma search_anchored (ic : bool) (r : regex) (line : jsstring) :
  (forall c rest, execAt ic r (Some c, rest) = None) ->
  search ic r None line <> None <-> execAt ic r (None, line) <> None.
Proof.
  intros Hanch.
  assert (Hlater : forall rest c, search ic r (Some c) rest = None).
  { induction rest as [|x rest IH]; intros c; cbn [search]; rewrite Hanch.
    - reflexivity.
    - rewrite IH. reflexivity. }
  destruct line as [|x line]; cbn [search].
  - match goal with
    | |- context [execAt ?a ?b ?c] => destruct (execAt a b c) as [[st' cs]|]
    end.
    + split; intros _; discriminate.
    + split; intros H; exfalso; apply H; reflexivity.
  - match goal with
    | |- context [execAt ?a ?b ?c] => destruct (execAt a b c) as [[st' cs]|]
    end.
    + split; intros _; discriminate.
    + rewrite Hlater. split; intros H; exfalso; apply H; reflexivity.
Qed.

Lemma sectionTitle_some_iff (line : jsstring) :
  sectionTitle line <> None <-> execAt false reSection (None, line) <> None.
Proof.
  rewrite <- (search_anchored false reSection line) by reflexivity.
  unfold sectionTitle, matchFirst.
  destruct (search false reSection None line); cbn [option_map].
  - split; intros _; discriminate.
  - split; intros H; exfalso; apply H; reflexivity.
Qed.

Lemma reSection_heading (line : jsstring) :
  (exists st',
      matchesAt false
        (Bol ;; Rep (ch "#") 1 (Some 6) true ;; plus ws ;; Group 1 (plus dot) ;; Eol)
        (None, line) st')
  <-> headingLine line.
Proof.
  unfold headingLine. cbn [matchesAt plus ws dot ch js fst snd chrTest atMost].
  split.
  - intros [st' H].
    destruct H as [m1 [[_ Hm1] H]]. subst m1.
    destruct H as [m2 [[t1 [r1 [E1 [A1 [L1 [U1 Hm2]]]]]] H]]. subst m2.
    destruct H as [m3 [[t2 [r2 [E2 [A2 [L2 [_ Hm3]]]]]] H]]. subst m3.
    destruct H as [m4 [[t3 [r3 [E3 [A3 [L3 [_ Hm4]]]]]] [E4 _]]]. subst m4.
    cbn [fst snd] in *. subst r3. rewrite app_nil_r in E3. subst r2 r1.
    exists t1, t2, t3.
    split; [exact E1|]. split; [exact A1|]. split.
    { split; [exact L1|]. destruct U1 as [->|U1]; [cbn in L1; lia|exact U1]. }
    split; [exact A2|]. split; [exact L2|]. split; [exact A3|exact L3].
  - intros [hashes [spaces [body [-> [A1 [[L1 U1] [A2 [L2 [A3 L3]]]]]]]]].
    eexists. exists (None, hashes ++ spaces ++ body). split; [split; reflexivity|].
    eexists. split.
    { exists hashes, (spaces ++ body). cbn [fst snd].
      split; [reflexivity|]. split; [exact A1|]. split; [exact L1|].
      split; [right; exact U1|reflexivity]. }
    eexists. split.
    { exists spaces, body. cbn [fst snd].
      split; [reflexivity|]. split; [exact A2|]. split; [exact L2|].
      split; [right; exact I|reflexivity]. }
    eexists. split.
    { exists body, []. cbn [fst snd]. rewrite app_nil_r.
      split; [reflexivity|]. split; [exact A3|]. split; [exact L3|].
      split; [right; exact I|reflexivity]. }
    split; reflexivity.
Qed.

Lemma reSection_colon (line : jsstring) :
  (exists st',
      matchesAt false (Bol ;; Group 2 (plus dot) ;; ch ":" ;; Eol) (None, line) st')
  <-> colonLine line.
Proof.
  unfold colonLine. cbn [matchesAt plus ws dot ch js fst snd chrTest atMost].
  split.
  - intros [st' H].
    destruct H as [m1 [[_ Hm1] H]]. subst m1.
    destruct H as [m2 [[t1 [r1 [E1 [A1 [L1 [_ Hm2]]]]]] H]]. subst m2.
    destruct H as [m3 [[c [r2 [E2 [A2 Hm3]]]] [E3 _]]]. subst m3.
    cbn [fst snd] in *. subst r2 r1. apply N.eqb_eq in A2. subst c.
    exists t1. split; [exact E1|]. split; [exact A1|exact L1].
  - intros [body [-> [A1 L1]]].
    eexists. exists (None, body ++ [COLON]). split; [split; reflexivity|].
    eexists. split.
    { exists body, [COLON]. cbn [fst snd].
      split; [reflexivity|]. split; [exact A1|]. split; [exact L1|].
      split; [right; exact I|reflexivity]. }
    eexists. split.
    { exists COLON, []. cbn [fst snd]. repeat split. }
    split; reflexivity.
Qed.

Lemma sectionTitle_shapes (line : jsstring) :
  sectionTitle line <> None <-> headingLine line \/ colonLine line.
Proof.
  rewrite sectionTitle_some_iff.
  rewrite (execAt_some_iff false reSection (None, line)) by reflexivity.
  rewrite <- reSection_heading, <- reSection_colon.
  unfold reSection. cbn [matchesAt]. split.
  - intros [st' [H|H]]; [left|right]; exists st'; exact H.
  - intros [[st' H]|[st' H]]; exists st'; [left|right]; exact H.
Qed.

(** ** The implicit section *)

Lemma mapGet_mapSet_other {V} (m : omap V) (k k' : jsstring) (v : V) :
  k <> k' -> mapGet (mapSet m k v) k' = mapGet m k'.
Proof.
  intros Hk. induction m as [|[k0 v0] m IH]; cbn.
  - apply str_eqb_neq in Hk. rewrite Hk. reflexivity.
  - destruct (str_eqb k0 k) eqn:E; cbn.
    + apply str_eqb_eq in E. subst k0.
      apply str_eqb_neq in Hk. rewrite Hk. reflexivity.
    + destruct (str_eqb k0 k'); [reflexivity|exact IH].
Qed.

Lemma sectionStep_untitled (acc : list jsstring) (line : jsstring) :
  sectionTitle line = None ->
  sectionStep (introduction, introMap acc) line
  = (introduction, introMap (acc ++ filter bodyLine [line])).
Proof.
  intros Hnone. unfold sectionStep. rewrite Hnone. cbn [filter].
  unfold bodyLine. destruct (truthy (trim line)).
  - f_equal. destruct acc as [|x acc]; reflexivity.
  - rewrite app_nil_r. reflexivity.
Qed.

Lemma sections_before_first_title (before : list jsstring) :
  forall acc,
    Forall (fun line => sectionTitle line = None) before ->
    fold_left sectionStep before (introduction, introMap acc)
    = (introduction, introMap (acc ++ filter bodyLine before)).
Proof.
  induction before as [|line before IH]; intros acc Hnone.
  - cbn. rewrite app_nil_r. reflexivity.
  - inversion Hnone as [|? ? Hline Hrest]; subst.
    cbn [fold_left]. rewrite (sectionStep_untitled acc line Hline).
    rewrite IH by exact Hrest. rewrite <- app_assoc.
    cbn [filter app]. destruct (bodyLine line); reflexivity.
Qed.

Lemma sections_after_first_title (after : list jsstring) :
  forall lastSection secs,
    lastSection <> introduction ->
    Forall (fun line => sectionTitle line <> Some introduction) after ->
    mapGet (snd (fold_left sectionStep after (lastSection, secs))) introduction
    = mapGet secs introduction.
Proof.
  induction after as [|line after IH]; intros lastSection secs Hlast Hafter;
    [reflexivity|].
  inversion Hafter as [|? ? Hline Hrest]; subst. cbn [fold_left].
  unfold sectionStep at 2. destruct (sectionTitle line) as [title|].
  - rewrite IH; [|congruence|exact Hrest].
    apply mapGet_mapSet_other. congruence.
  - destruct (truthy (trim line)).
    + rewrite IH; [|exact Hlast|exact Hrest].
      apply mapGet_mapSet_other. exact Hlast.
    + apply IH; assumption.
Qed.

(** C4, amended: a line is a section title exactly when it is a heading
    line (1 to 6 [#], then white space, then text) or any line of at least
    two characters ending in [:], capitalized or not; and when the lines
    before the first title include a non-blank one, the entry
    ["Introduction"] holds the non-blank lines among them, while without
    such a line there is no such entry (no later title being
    ["Introduction"] itself). *)
Theorem section_titles_and_introduction :
  (forall line, sectionTitle line <> None <-> headingLine line \/ colonLine line)
  /\ (forall text before after,
        splitChar LF text = before ++ after ->
        Forall (fun line => sectionTitle line = None) before ->
        (forall line, hd_error after = Some line -> sectionTitle line <> None) ->
        Forall (fun line => sectionTitle line <> Some introduction) after ->
        mapGet (extractSections text) introduction
        = match filter bodyLine before with
          | [] => None
          | lines => Some lines
          end).
Proof.
  split; [exact sectionTitle_shapes|].
  intros text before after Hsplit Hbefore Hfirst Hafter.
  unfold extractSections. rewrite Hsplit, fold_left_app.
  change (js "Introduction", @nil (jsstring * list jsstring))
    with (introduction, introMap []).
  rewrite (sections_before_first_title before [] Hbefore). cbn [app].
  assert (Hintro : mapGet (introMap (filter bodyLine before)) introduction
                   = match filter bodyLine before with
                     | [] => None
                     | lines => Some lines
                     end).
  { destruct (filter bodyLine before); reflexivity. }
  destruct after as [|line after]; [exact Hintro|].
  inversion Hafter as [|? ? Hline Hrest]; subst.
  cbn [fold_left]. unfold sectionStep at 2.
  destruct (sectionTitle line) as [title|] eqn:Htitle.
  - rewrite sections_after_first_title; [|congruence|exact Hrest].
    rewrite mapGet_mapSet_other by congruence. exact Hintro.
  - exfalso. apply (Hfirst line eq_refl). exact Htitle.
Qed.

(** The amended C4 on a three-line text: the lowercase line [note:] is the
    first title, and the entry ["Introduction"] holds the line before it. *)
Lemma section_titles_and_introduction_witness :
  (splitChar LF prefacedText = [js "first line"] ++ [js "note:"; js "second line"]
   /\ Forall (fun line => sectionTitle line = None) [js "first line"]
   /\ (forall line,
         hd_error [js "note:"; js "second line"] = Some line ->
         sectionTitle line <> None)
   /\ Forall (fun line => sectionTitle line <> Some introduction)
             [js "note:"; js "second line"])
  /\ (sectionTitle (js "note:") <> None
      <-> headingLine (js "note:") \/ colonLine (js "note:"))
  /\ mapGet (extractSections prefacedText) introduction = Some [js "first line"].
Proof.
  assert (H1 : splitChar LF prefacedText
               = [js "first line"] ++ [js "note:"; js "second line"])
    by (vm_compute; reflexivity).
  assert (H2 : Forall (fun line => sectionTitle line = None) [js "first line"])
    by (constructor; [vm_compute; reflexivity|constructor]).
  assert (H3 : forall line,
             hd_error [js "note:"; js "second line"] = Some line ->
             sectionTitle line <> None).
  { intros line Hl. cbn in Hl. injection Hl as <-. vm_compute. discriminate. }
  assert (H4 : Forall (fun line => sectionTitle line <> Some introduction)
                      [js "note:"; js "second line"]).
  { repeat constructor; vm_compute; discriminate. }
  destruct section_titles_and_introduction as [Hshape Hintro].
  split; [auto|]. split; [apply Hshape|].
  rewrite (Hintro prefacedText _ _ H1 H2 H3 H4). vm_compute. reflexivity.
Defined.

(** C4 as stated fails twice: the line [note:] is not capitalized and not a
    heading, yet it is a title; and a text that starts with a title has no
    entry ["Introduction"]. *)
Lemma lowercase_colon_line_is_title :
  sectionTitle (js "note:") = Some (js "note")
  /\ ~ specTitleLine (js "note:")
  /\ extractSections titledText = [(js "Title", [js "body"])]
  /\ mapGet (extractSections titledText) introduction = None.
Proof.
  split; [vm_compute; reflexivity|]. split.
  - intros [[hashes [spaces [body [Heq [Hh [[Hl _] _]]]]]]|[Hcap _]].
    + destruct hashes as [|c hashes]; [cbn in Hl; lia|].
      cbn in Heq. injection Heq as Hc _. subst c. cbn in Hh. discriminate Hh.
    + cbn in Hcap. discriminate Hcap.
  - split; vm_compute; reflexivity.
Qed.

(** ** The clock *)

Lemma wsTokens_before (pre : jsstring) :
  forall inSep cur,
  exists done part,
    forall s rest,
      s <> [] -> noSpace s ->
      wsTokens inSep cur (pre ++ s ++ rest)
      = done ++ wsTokens false (rev s ++ part) rest.
Proof.
  induction pre as [|x pre IH]; intros inSep cur.
  - exists [], cur. intros s rest Hne Hs. cbn [app].
    destruct s as [|c s]; [congruence|].
    inversion Hs as [|? ? Hc Hs']; subst.
    cbn [app wsTokens]. rewrite Hc.
    rewrite (wsTokens_app_noSpace s (c :: cur) rest Hs').
    cbn [rev]. rewrite <- app_assoc. reflexivity.
  - cbn [app wsTokens]. destruct (isSpace x).
    + destruct (IH true []) as [done [part H]]. destruct inSep.
      * exists done, part. exact H.
      * exists (rev cur :: done), part. intros s rest Hne Hs.
        rewrite (H s rest Hne Hs). reflexivity.
    + destruct (IH false (x :: cur)) as [done [part H]].
      exists done, part. exact H.
Qed.

Lemma wsTokens_after (post : jsstring) :
  exists head others,
    forall cur, wsTokens false cur post = (rev cur ++ head) :: others.
Proof.
  induction post as [|c post IH].
  - exists [], []. intros cur. cbn. rewrite app_nil_r. reflexivity.
  - destruct IH as [head [others H]]. cbn [wsTokens]. destruct (isSpace c).
    + exists [], (wsTokens true [] post). intros cur. rewrite app_nil_r. reflexivity.
    + exists (c :: head), others. intros cur. rewrite H. cbn [rev].
      rewrite <- app_assoc. reflexivity.
Qed.

(** The pieces of a text around a word without white space: the same
    pieces whatever the word, which sits inside one of them. *)
Lemma wsTokens_around (pre post : jsstring) :
  exists done left right others,
    forall s,
      s <> [] -> noSpace s ->
      wsTokens false [] (pre ++ s ++ post)
      = done ++ (left ++ s ++ right) :: others.
Proof.
  destruct (wsTokens_before pre false []) as [done [part Hb]].
  destruct (wsTokens_after post) as [head [others Ha]].
  exists done, (rev part), head, others. intros s Hne Hs.
  rewrite (Hb s post Hne Hs), Ha. rewrite rev_app_distr, rev_involutive.
  rewrite <- app_assoc. reflexivity.
Qed.

Lemma join_around (sep : jsstring) (done : list jsstring) :
  forall x others,
    join sep (done ++ x :: others)
    = flat_map (fun t => t ++ sep) done ++ x ++ flat_map (fun t => sep ++ t) others.
Proof.
  induction done as [|t done IH]; intros x others.
  - cbn [app flat_map]. revert x. induction others as [|y others IHo]; intros x.
    + cbn. rewrite app_nil_r. reflexivity.
    + change (join sep (x :: y :: others)) with (x ++ sep ++ join sep (y :: others)).
      rewrite IHo. cbn [flat_map]. rewrite <- !app_assoc. reflexivity.
  - cbn [app flat_map]. rewrite <- !app_assoc. rewrite <- IH.
    destruct (done ++ x :: others) eqn:E; [destruct done; discriminate E|].
    reflexivity.
Qed.

Lemma firstn_around {A} (k : nat) (done : list A) (x : A) (others : list A) :
  firstn k (done ++ x :: others)
  = if k <=? length done then firstn k done
    else done ++ x :: firstn (k - length done - 1) others.
Proof.
  destruct (k <=? length done) eqn:E.
  - apply Nat.leb_le in E. rewrite firstn_app.
    replace (k - length done) with 0 by lia. cbn. apply app_nil_r.
  - apply Nat.leb_gt in E. rewrite firstn_app.
    rewrite firstn_all2 by lia. f_equal.
    destruct (k - length done) as [|j] eqn:Ej; [lia|].
    cbn. f_equal. f_equal. lia.
Qed.

(** Trimming a text around two words without white space gives the same
    result, or two results that differ in that word only. *)
Lemma trim_around_stamp (pre post s1 s2 : jsstring) (n : Z) :
  s1 <> [] -> s2 <> [] -> noSpace s1 -> noSpace s2 ->
  trimToWordLimit (pre ++ s1 ++ post) n = trimToWordLimit (pre ++ s2 ++ post) n
  \/ exists pre' post',
       trimToWordLimit (pre ++ s1 ++ post) n = pre' ++ s1 ++ post'
       /\ trimToWordLimit (pre ++ s2 ++ post) n = pre' ++ s2 ++ post'.
Proof.
  intros Hne1 Hne2 Hs1 Hs2.
  destruct (wsTokens_around pre post) as [done [left [right [others Hw]]]].
  unfold trimToWordLimit. rewrite !splitRe_spaces.
  rewrite (Hw s1 Hne1 Hs1), (Hw s2 Hne2 Hs2).
  rewrite !length_app. cbn [length].
  destruct (Z.of_nat (length done + S (length others)) <=? n)%Z.
  - right. exists pre, post. split; reflexivity.
  - assert (Hslice : exists k, forall x,
               slice0 (done ++ x :: others) n = firstn k (done ++ x :: others)).
    { unfold slice0. destruct (n <? 0)%Z.
      - exists (Z.to_nat (Z.of_nat (length done + S (length others)) + n)).
        intros x. rewrite length_app. reflexivity.
      - exists (Z.to_nat n). reflexivity. }
    destruct Hslice as [k Hk]. rewrite !Hk, !firstn_around.
    destruct (k <=? length done).
    + left. reflexivity.
    + right. rewrite !join_around.
      exists (flat_map (fun t => t ++ js " ") done ++ left),
             (right ++ flat_map (fun t => js " " ++ t)
                                (firstn (k - length done - 1) others) ++ js "...").
      rewrite <- !app_assoc. split; reflexivity.
Qed.

Lemma formatOutput_unstamped (c1 c2 : Clock) (summary fmt mode : jsstring) :
  stamped fmt = false ->
  formatOutput c1 summary fmt mode = formatOutput c2 summary fmt mode.
Proof.
  unfold stamped, formatOutput. intros H. apply orb_false_iff in H.
  destruct H as [Hj Hh]. rewrite Hj, Hh. reflexivity.
Qed.

(** The formatted content is a fixed text around the timestamp field, and
    the metadata does not depend on the clock. *)
Lemma formatOutput_template (summary fmt mode : jsstring) :
  exists pre post,
    forall c,
      content (formatOutput c summary fmt mode) = pre ++ stampField fmt c ++ post
      /\ metadata (formatOutput c summary fmt mode)
         = metadata (formatOutput fixedClock summary fmt mode).
Proof.
  unfold formatOutput, stampField.
  destruct (str_eqb fmt (js "json")) eqn:Hj.
  - exists (js "{" ++ [LF]
            ++ jsonMember 2 "mode" (jsonString mode) ++ (js "," ++ [LF])
            ++ jsonMember 2 "summary" (jsonString summary) ++ (js "," ++ [LF])
            ++ repeat SPACE 2 ++ [QUOTE] ++ js "timestamp" ++ [QUOTE] ++ js ": "),
           ([LF] ++ repeat SPACE (2 * 0) ++ js "}").
    intros c. split; [|reflexivity].
    cbn [content]. unfold jsonObject, jsonMember. cbn [join].
    rewrite <- !app_assoc. reflexivity.
  - destruct (str_eqb fmt (js "html")) eqn:Hh.
    + exists (htmlBefore mode
              ++ replaceAll false reNewline (fun _ _ => js "<br>")
                   (replaceAll false reBlankLine (fun _ _ => js "</p><p>") summary)
              ++ htmlMiddle),
             htmlAfter.
      intros c. split; [|reflexivity].
      cbn [content]. rewrite <- !app_assoc. reflexivity.
    + destruct (str_eqb fmt (js "outline")); [|destruct (str_eqb fmt (js "plain"))];
        eexists; exists []; intros c; cbn [content metadata app];
        rewrite app_nil_r; split; reflexivity.
Qed.

Lemma summarize_clock (lower : jsstring -> jsstring)
    (fs : jsstring -> FileOutcome) (args : Args) (txt : jsstring) :
  let fmt := orDefault (format args) (js "markdown") in
  exists pre post,
    forall c1 c2,
      let out1 := limitWords args (pre ++ stampField fmt c1 ++ post) in
      let out2 := limitWords args (pre ++ stampField fmt c2 ++ post) in
      (stamped fmt = false ->
       summarize lower (hostAt fs c1) args txt = summarize lower (hostAt fs c2) args txt)
      /\ exists d1 d2,
           summarize lower (hostAt fs c1) args txt
           = {| success := true; output := Some out1; error := None; data := Some d1 |}
           /\ summarize lower (hostAt fs c2) args txt
              = {| success := true; output := Some out2; error := None;
                   data := Some d2 |}
           /\ sameButLengths d1 d2
           /\ summaryLength d1 = length out1 /\ summaryLength d2 = length out2
           /\ compressionRatio d1
              = compressionRatioOf (summaryLength d1) (originalLength d1)
           /\ compressionRatio d2
              = compressionRatioOf (summaryLength d2) (originalLength d2)
           /\ (length out1 = length out2 -> d1 = d2).
Proof.
  intros fmt. unfold summarize. cbn [clock hostAt]. fold fmt.
  match goal with
  | |- context [formatOutput _ ?s fmt ?m] =>
      destruct (formatOutput_template s fmt m) as [pre [post Ht]];
      generalize dependent s; intros summary Ht
  end.
  exists pre, post. intros c1 c2. cbn zeta.
  destruct (Ht c1) as [Hc1 Hm1]. destruct (Ht c2) as [Hc2 Hm2].
  split.
  - intros Hst.
    rewrite (formatOutput_unstamped c1 c2 summary fmt _ Hst). reflexivity.
  - rewrite Hc1, Hc2, Hm1, Hm2. unfold limitWords.
    eexists. eexists. split; [reflexivity|]. split; [reflexivity|].
    cbn [summaryLength compressionRatio originalLength].
    split; [unfold sameButLengths; cbn; repeat split|].
    split; [reflexivity|]. split; [reflexivity|]. split; [reflexivity|].
    split; [reflexivity|].
    intros Hlen. rewrite Hlen. reflexivity.
Qed.

(** ** Two calls at two instants *)

(** C9, amended: with the same text (or file system) and options, two calls
    made at two instants give the same result in every format other than
    [json] and [html], and the same result when the call fails.  In these
    two formats a successful call returns the same fixed text around the
    timestamp field, cut to [max_length] words when that is set; the [data]
    agree on every field but [summaryLength] and [compressionRatio], which
    are the length of the output and the ratio computed from it, so two
    calls whose outputs have the same length return the same [data]; and
    where the field is a non-empty word without white space the two outputs
    are equal or differ in that field only. *)
Theorem only_the_timestamp_varies :
  forall lower fs args,
    let fmt := orDefault (format args) (js "markdown") in
    exists pre post,
      forall c1 c2,
        let r1 := execute lower (hostAt fs c1) args in
        let r2 := execute lower (hostAt fs c2) args in
        let out1 := limitWords args (pre ++ stampField fmt c1 ++ post) in
        let out2 := limitWords args (pre ++ stampField fmt c2 ++ post) in
        (stamped fmt = false -> r1 = r2)
        /\ (success r1 = false -> r1 = r2)
        /\ (success r1 = true ->
            (exists d1 d2,
                r1 = {| success := true; output := Some out1; error := None;
                        data := Some d1 |}
                /\ r2 = {| success := true; output := Some out2; error := None;
                           data := Some d2 |}
                /\ sameButLengths d1 d2
                /\ summaryLength d1 = length out1 /\ summaryLength d2 = length out2
                /\ compressionRatio d1
                   = compressionRatioOf (summaryLength d1) (originalLength d1)
                /\ compressionRatio d2
                   = compressionRatioOf (summaryLength d2) (originalLength d2)
                /\ (length out1 = length out2 -> d1 = d2))
            /\ (stampField fmt c1 <> [] -> stampField fmt c2 <> [] ->
                noSpace (stampField fmt c1) -> noSpace (stampField fmt c2) ->
                out1 = out2
                \/ exists pre' post',
                     out1 = pre' ++ stampField fmt c1 ++ post'
                     /\ out2 = pre' ++ stampField fmt c2 ++ post')).
Proof.
  intros lower fs args fmt.
  assert (Hcase : (exists r, success r = false
                             /\ forall c, execute lower (hostAt fs c) args = r)
                  \/ (exists txt,
                        forall c, execute lower (hostAt fs c) args
                                  = summarize lower (hostAt fs c) args txt)).
  { unfold execute. cbn [readFile hostAt].
    destruct (negb (truthy_opt (text args)) && negb (truthy_opt (file args)));
      [left; eexists; split; [|intros c; reflexivity]; reflexivity|].
    destruct (truthy_opt (text args) && truthy_opt (file args));
      [left; eexists; split; [|intros c; reflexivity]; reflexivity|].
    destruct ((orDefault (abstraction_level args) 3 <? 1)%float
              || (5 <? orDefault (abstraction_level args) 3)%float);
      [left; eexists; split; [|intros c; reflexivity]; reflexivity|].
    destruct (file args) as [[|ch f]|].
    - right. eexists. intros c. reflexivity.
    - destruct (fs (ch :: f)) as [|txt|message].
      + left. eexists. split; [|intros c; reflexivity]. reflexivity.
      + right. eexists. intros c. reflexivity.
      + left. eexists. split; [|intros c; reflexivity]. reflexivity.
    - right. eexists. intros c. reflexivity. }
  destruct Hcase as [[r [Hs Hr]]|[txt Hr]].
  - exists [], []. intros c1 c2. cbn zeta. rewrite !Hr.
    split; [reflexivity|]. split; [reflexivity|]. rewrite Hs. discriminate.
  - destruct (summarize_clock lower fs args txt) as [pre [post H]].
    exists pre, post. intros c1 c2. cbn zeta. rewrite !Hr.
    destruct (H c1 c2) as [Heq Hd]. fold fmt in Heq, Hd. cbn zeta in Hd.
    split; [exact Heq|]. split.
    + destruct Hd as [d1 [d2 [H1 _]]]. rewrite H1. discriminate.
    + intros _. split; [exact Hd|].
      intros Hn1 Hn2 Hs1 Hs2. unfold limitWords.
      destruct (0 <? orDefault (max_length args) 0)%Z.
      * apply (trim_around_stamp pre post _ _ (orDefault (max_length args) 0%Z)
                 Hn1 Hn2 Hs1 Hs2).
      * right. exists pre, post. split; reflexivity.
Qed.

(** C9 on the two-sentence example in the [json] format, at two instants:
    both outputs are the same text around their own timestamp. *)
Lemma only_the_timestamp_varies_witness :
  exists pre post,
    output (execute asciiLower (hostAt (fun _ => NotFound) fixedClock)
              (textArgs prosConsText "pros_cons" "json"))
    = Some (pre ++ jsonString (isoNow fixedClock) ++ post)
    /\ output (execute asciiLower (hostAt (fun _ => NotFound) laterClock)
                 (textArgs prosConsText "pros_cons" "json"))
       = Some (pre ++ jsonString (isoNow laterClock) ++ post).
Proof.
  destruct (only_the_timestamp_varies asciiLower (fun _ => NotFound)
              (textArgs prosConsText "pros_cons" "json")) as [pre [post H]].
  destruct (H fixedClock laterClock) as [_ [_ H3]].
  assert (Hs : success (execute asciiLower (hostAt (fun _ => NotFound) fixedClock)
                          (textArgs prosConsText "pros_cons" "json")) = true)
    by (vm_compute; reflexivity).
  destruct (H3 Hs) as [[d1 [d2 [H1 [H2 _]]]] _].
  exists pre, post. rewrite H1, H2. split; reflexivity.
Defined.

(** C9 as stated fails twice in the [html] format.  At two dates of
    different length the outputs differ in the date only, but the data do
    not agree: [summaryLength] is 378 and 380, [compressionRatio] -391 and
    -394.  And with a limit of 33 words, a date written in one word against
    a date written in three moves the cut: the outputs, 329 and 316
    characters long, are not one text around the two dates. *)
Lemma timestamp_reaches_beyond_its_field :
  (exists out1 out2 d1 d2,
      execute asciiLower (hostAt (fun _ => NotFound) fixedClock) (htmlArgs None)
      = {| success := true; output := Some out1; error := None; data := Some d1 |}
      /\ execute asciiLower (hostAt (fun _ => NotFound) laterClock) (htmlArgs None)
         = {| success := true; output := Some out2; error := None; data := Some d2 |}
      /\ summaryLength d1 = 378 /\ summaryLength d2 = 380
      /\ compressionRatio d1 = (-391)%float /\ compressionRatio d2 = (-394)%float
      /\ d1 <> d2)
  /\ (exists out1 out2,
        output (execute asciiLower (hostAt (fun _ => NotFound) fixedClock)
                  (htmlArgs (Some 33%Z))) = Some out1
        /\ output (execute asciiLower (hostAt (fun _ => NotFound) spacedClock)
                     (htmlArgs (Some 33%Z))) = Some out2
        /\ length out1 = 329 /\ length out2 = 316
        /\ endsWith out1 (js "1/1/2026</p> </footer> </body>...") = true
        /\ endsWith out2 (js "2027. 12. 24.</p>...") = true
        /\ ~ exists pre post,
               out1 = pre ++ localeDate fixedClock ++ post
               /\ out2 = pre ++ localeDate spacedClock ++ post).
Proof.
  split.
  - eexists. eexists. eexists. eexists.
    split; [vm_compute; reflexivity|]. split; [vm_compute; reflexivity|].
    split; [vm_compute; reflexivity|]. split; [vm_compute; reflexivity|].
    split; [vm_compute; reflexivity|]. split; [vm_compute; reflexivity|].
    intros H. apply (f_equal summaryLength) in H. vm_compute in H. discriminate H.
  - eexists. eexists.
    split; [vm_compute; reflexivity|]. split; [vm_compute; reflexivity|].
    split; [vm_compute; reflexivity|]. split; [vm_compute; reflexivity|].
    split; [vm_compute; reflexivity|]. split; [vm_compute; reflexivity|].
    intros [pre [post [H1 H2]]].
    apply (f_equal (@length N)) in H1. apply (f_equal (@length N)) in H2.
    rewrite !length_app in H1, H2.
    change (length (localeDate fixedClock)) with 8 in H1.
    change (length (localeDate spacedClock)) with 13 in H2.
    match type of H1 with
    | length ?o = _ =>
        assert (E1 : length o = 329) by (vm_compute; reflexivity); rewrite E1 in H1
    end.
    match type of H2 with
    | length ?o = _ =>
        assert (E2 : length o = 316) by (vm_compute; reflexivity); rewrite E2 in H2
    end.
    unfold jsstring in *. lia.
Qed.

(** * Further properties of the code *)

(** ** Statistics outside markdown and json *)

(** X1: for a format that is neither [markdown] nor [json], [appendStats]
    returns the summary unchanged, and the whole result of [execute] is the
    same with [include_stats] true, false or left out. *)
Theorem include_stats_without_effect :
  forall fmt : jsstring,
    fmt <> js "markdown" -> fmt <> js "json" ->
    (forall summary stats, appendStats summary stats fmt = summary)
    /\ (forall lower h args,
          format args = Some fmt ->
          execute lower h (withStats args (Some true))
          = execute lower h (withStats args (Some false))
          /\ execute lower h (withStats args (Some true))
             = execute lower h (withStats args None)).
Proof.
  intros fmt Hmd Hjs.
  assert (Happ : forall summary stats, appendStats summary stats fmt = summary).
  { intros summary stats. unfold appendStats.
    apply str_eqb_neq in Hmd. apply str_eqb_neq in Hjs.
    rewrite Hmd, Hjs. reflexivity. }
  split; [exact Happ|].
  intros lower h args Hfmt.
  assert (Hsum : forall c, summarize lower h (withStats args (Some true)) c
                           = summarize lower h (withStats args None) c).
  { intros c. unfold summarize. cbn [withStats mode format max_length
      abstraction_level focus instructions include_quotes include_stats file orDefault].
    rewrite Hfmt. cbn [orDefault]. rewrite Happ. reflexivity. }
  assert (Hex : execute lower h (withStats args (Some true))
                = execute lower h (withStats args None)).
  { unfold execute. cbn [withStats text file abstraction_level].
    destruct (negb (truthy_opt (text args)) && negb (truthy_opt (file args)));
      [reflexivity|].
    destruct (truthy_opt (text args) && truthy_opt (file args)); [reflexivity|].
    destruct ((orDefault (abstraction_level args) 3 <? 1)%float
              || (5 <? orDefault (abstraction_level args) 3)%float); [reflexivity|].
    destruct (file args) as [[|c f]|]; try apply Hsum.
    destruct (readFile h (c :: f)); try reflexivity. apply Hsum. }
  split; [|exact Hex].
  rewrite Hex. unfold execute, summarize.
  cbn [withStats text file mode format max_length abstraction_level focus
       instructions include_quotes include_stats orDefault].
  reflexivity.
Qed.

(** X1 on the one-line example in the [plain] format. *)
Lemma include_stats_without_effect_witness :
  (js "plain" <> js "markdown" /\ js "plain" <> js "json")
  /\ execute asciiLower bareHost (withStats (textArgs foxText "auto" "plain") (Some true))
     = execute asciiLower bareHost (withStats (textArgs foxText "auto" "plain") (Some false)).
Proof.
  assert (H1 : js "plain" <> js "markdown") by discriminate.
  assert (H2 : js "plain" <> js "json") by discriminate.
  split; [split; assumption|].
  destruct (include_stats_without_effect (js "plain") H1 H2) as [_ Hex].
  apply (Hex asciiLower bareHost (textArgs foxText "auto" "plain")). reflexivity.
Defined.

(** ** The result object *)

Lemma formatOutput_metadata (c : Clock) (summary fmt mode : jsstring) :
  In (metadata (formatOutput c summary fmt mode)) knownFormats
  /\ (In fmt knownFormats -> metadata (formatOutput c summary fmt mode) = fmt)
  /\ (~ In fmt knownFormats ->
      formatOutput c summary fmt mode
      = {| content := summary; metadata := js "markdown" |}).
Proof.
  unfold formatOutput, knownFormats.
  destruct (str_eqb fmt (js "json")) eqn:E1.
  { apply str_eqb_eq in E1. subst fmt. cbn [metadata In]. repeat split; auto.
    intros H. exfalso. apply H. auto. }
  destruct (str_eqb fmt (js "html")) eqn:E2.
  { apply str_eqb_eq in E2. subst fmt. cbn [metadata In]. repeat split; auto.
    intros H. exfalso. apply H. auto. }
  destruct (str_eqb fmt (js "outline")) eqn:E3.
  { apply str_eqb_eq in E3. subst fmt. cbn [metadata In]. repeat split; auto 6.
    intros H. exfalso. apply H. auto 6. }
  destruct (str_eqb fmt (js "plain")) eqn:E4.
  { apply str_eqb_eq in E4. subst fmt. cbn [metadata In]. repeat split; auto 6.
    intros H. exfalso. apply H. auto 6. }
  apply str_eqb_neq in E1, E2, E3, E4. cbn [metadata In]. split; [auto 8|]. split.
  - intros [H|[H|[H|[H|[H|[]]]]]]; congruence.
  - reflexivity.
Qed.

(** The range test on a binary64 level.  The comparisons are those of
    IEEE 754: both are false on NaN, so NaN passes the test. *)
Lemma SFcompare_antisym (x y : spec_float) :
  SFcompare y x = option_map CompOpp (SFcompare x y).
Proof.
  destruct x as [s1|s1| |s1 m1 e1], y as [s2|s2| |s2 m2 e2]; cbn;
    try reflexivity;
    try (destruct s1; reflexivity); try (destruct s2; reflexivity);
    try (destruct s1, s2; reflexivity).
  destruct s1, s2; try reflexivity.
  - rewrite (Z.compare_antisym e1 e2).
    destruct (e1 ?= e2)%Z; cbn; try reflexivity.
    change (PosDef.Pos.compare_cont Eq m2 m1) with (Pos.compare m2 m1).
    change (PosDef.Pos.compare_cont Eq m1 m2) with (Pos.compare m1 m2).
    rewrite (Pos.compare_antisym m1 m2). reflexivity.
  - rewrite (Z.compare_antisym e1 e2).
    destruct (e1 ?= e2)%Z; cbn; try reflexivity.
    change (PosDef.Pos.compare_cont Eq m2 m1) with (Pos.compare m2 m1).
    change (PosDef.Pos.compare_cont Eq m1 m2) with (Pos.compare m1 m2).
    rewrite (Pos.compare_antisym m1 m2). reflexivity.
Qed.

Lemma SFcompare_none (x y : spec_float) :
  SFcompare x y = None -> x = S754_nan \/ y = S754_nan.
Proof.
  destruct x, y; cbn; auto; discriminate.
Qed.

Lemma SFcompare_refl (x : spec_float) :
  x <> S754_nan -> SFcompare x x = Some Eq.
Proof.
  destruct x as [s|s| |s m e]; cbn; intros H; try congruence.
  - destruct s; reflexivity.
  - rewrite Z.compare_refl.
    change (PosDef.Pos.compare_cont Eq m m) with (Pos.compare m m).
    rewrite Pos.compare_refl. destruct s; reflexivity.
Qed.

Lemma level_check_iff (l : float) :
  (l <? 1)%float || (5 <? l)%float = false
  <-> is_nan l = true \/ ((1 <=? l) && (l <=? 5))%float = true.
Proof.
  unfold is_nan. rewrite !ltb_spec, !leb_spec, eqb_spec.
  unfold SFltb, SFleb, SFeqb.
  rewrite (SFcompare_antisym (Prim2SF l) (Prim2SF 5)).
  rewrite (SFcompare_antisym (Prim2SF l) (Prim2SF 1)).
  assert (H1 : Prim2SF 1 <> S754_nan) by (vm_compute; discriminate).
  assert (H5 : Prim2SF 5 <> S754_nan) by (vm_compute; discriminate).
  generalize dependent (Prim2SF 1). generalize dependent (Prim2SF 5).
  generalize (Prim2SF l). intros x five H5 one H1.
  destruct (SFcompare x x) as [cxx|] eqn:Exx.
  - assert (Hx : x <> S754_nan) by (intros ->; discriminate Exx).
    rewrite (SFcompare_refl x Hx) in Exx. injection Exx as <-.
    destruct (SFcompare x one) as [c1|] eqn:E1;
      [|apply SFcompare_none in E1; tauto].
    destruct (SFcompare x five) as [c5|] eqn:E5;
      [|apply SFcompare_none in E5; tauto].
    destruct c1, c5; cbn; split; intros H; auto;
      try discriminate H; try (destruct H as [H|H]; discriminate H).
  - assert (Hx : x = S754_nan).
    { destruct x; cbn in Exx; try discriminate Exx; reflexivity. }
    subst x. cbn. split; auto.
Qed.

(** X2: a result of [execute] has one of two shapes.  A success carries an
    output and data and no error; its data echo the abstraction level of
    the call, which is a number between 1 and 5 or NaN (the range test of
    [execute] lets NaN through), and report the length of the output and a
    metadata format that is one of the five known formats: the requested
    one when that is known, [markdown] otherwise.  A failure carries a
    non-empty error message and neither output nor data. *)
Theorem result_shape :
  forall lower h args,
    let r := execute lower h args in
    (success r = true /\ error r = None
     /\ exists out d,
          output r = Some out /\ data r = Some d
          /\ abstractionLevel d = orDefault (abstraction_level args) 3%float
          /\ (is_nan (abstractionLevel d) = true
              \/ ((1 <=? abstractionLevel d) && (abstractionLevel d <=? 5))%float
                 = true)
          /\ summaryLength d = length out
          /\ dMode d = orDefault (mode args) (js "auto")
          /\ dFormat d = orDefault (format args) (js "markdown")
          /\ In (dMetadata d) knownFormats
          /\ (In (dFormat d) knownFormats -> dMetadata d = dFormat d)
          /\ (~ In (dFormat d) knownFormats -> dMetadata d = js "markdown"))
    \/ (success r = false /\ output r = None /\ data r = None
        /\ exists msg, error r = Some msg /\ msg <> []).
Proof.
  intros lower h args r. subst r. unfold execute.
  destruct (negb (truthy_opt (text args)) && negb (truthy_opt (file args)));
    [right; cbn; repeat split; eexists; split; [reflexivity|discriminate]|].
  destruct (truthy_opt (text args) && truthy_opt (file args));
    [right; cbn; repeat split; eexists; split; [reflexivity|discriminate]|].
  destruct ((orDefault (abstraction_level args) 3 <? 1)%float
            || (5 <? orDefault (abstraction_level args) 3)%float) eqn:Hlvl;
    [right; cbn; repeat split; eexists; split; [reflexivity|discriminate]|].
  apply level_check_iff in Hlvl.
  assert (Hok : forall c,
             success (summarize lower h args c) = true
             /\ error (summarize lower h args c) = None
             /\ exists out d,
                  output (summarize lower h args c) = Some out
                  /\ data (summarize lower h args c) = Some d
                  /\ abstractionLevel d = orDefault (abstraction_level args) 3%float
                  /\ (is_nan (abstractionLevel d) = true
                      \/ ((1 <=? abstractionLevel d)
                          && (abstractionLevel d <=? 5))%float = true)
                  /\ summaryLength d = length out
                  /\ dMode d = orDefault (mode args) (js "auto")
                  /\ dFormat d = orDefault (format args) (js "markdown")
                  /\ In (dMetadata d) knownFormats
                  /\ (In (dFormat d) knownFormats -> dMetadata d = dFormat d)
                  /\ (~ In (dFormat d) knownFormats -> dMetadata d = js "markdown")).
  { intros c. unfold summarize. cbn [success error output data].
    split; [reflexivity|]. split; [reflexivity|].
    eexists. eexists. split; [reflexivity|]. split; [reflexivity|].
    cbn [abstractionLevel summaryLength dMode dFormat dMetadata].
    split; [reflexivity|]. split; [exact Hlvl|]. split; [reflexivity|].
    split; [reflexivity|]. split; [reflexivity|].
    match goal with
    | |- context [formatOutput ?k ?s ?f ?m] =>
        destruct (formatOutput_metadata k s f m) as [M1 [M2 M3]]
    end.
    split; [exact M1|]. split; [exact M2|].
    intros Hn. rewrite (M3 Hn). reflexivity. }
  destruct (file args) as [[|c f]|]; try (left; apply Hok).
  destruct (readFile h (c :: f)).
  - right. cbn. repeat split. eexists. split; [reflexivity|discriminate].
  - left. apply Hok.
  - right. cbn. repeat split. eexists. split; [reflexivity|discriminate].
Qed.


(** ** Document statistics *)

Lemma wsTokens_length (rest : jsstring) :
  forall inSep cur, length (wsTokens inSep cur rest) <= length rest + 1.
Proof.
  induction rest as [|c rest IH]; intros inSep cur; cbn [wsTokens length].
  - lia.
  - destruct (isSpace c).
    + destruct inSep.
      * specialize (IH true []). lia.
      * cbn [length]. specialize (IH true []). lia.
    + specialize (IH false (c :: cur)). lia.
Qed.

(** X3: the statistics of any text, the empty one included, count at least
    one word and at most one more than the text has characters; the reading
    time is the word count over 200 rounded up, so never below one minute;
    the average is 0 when the text has no sentence terminator and the word
    count over the sentence count, rounded half up, otherwise. *)
Theorem statistics_bounds :
  forall text,
    let s := generateStats text in
    1 <= stWords s <= length text + 1
    /\ stCharacters s = length text
    /\ 1 <= stReadingTime s
    /\ 200 * (stReadingTime s - 1) < stWords s <= 200 * stReadingTime s
    /\ (stSentences s = 0 -> stAvgWordsPerSentence s = 0)
    /\ (0 < stSentences s ->
        2 * stSentences s * stAvgWordsPerSentence s
        <= 2 * stWords s + stSentences s
        < 2 * stSentences s * (stAvgWordsPerSentence s + 1)).
Proof.
  intros text s. subst s. unfold generateStats.
  cbn [stWords stCharacters stReadingTime stSentences stAvgWordsPerSentence].
  rewrite splitRe_spaces.
  pose proof (wsTokens_length text false []) as Hle.
  pose proof (wsTokens_nonempty text false []) as Hne.
  set (words := length (wsTokens false [] text)) in *.
  assert (Hw : 1 <= words).
  { subst words. destruct (wsTokens false [] text); [congruence|cbn; lia]. }
  set (ns := length (matchAll false reTerminators text)).
  clearbody words ns. clear Hne.
  pose proof (Nat.div_mod_eq (words + 199) 200) as Hd.
  pose proof (Nat.mod_upper_bound (words + 199) 200 ltac:(lia)) as Hm.
  split; [lia|]. split; [reflexivity|]. split; [lia|]. split; [lia|]. split.
  - intros ->. reflexivity.
  - intros Hpos. destruct (0 <? ns) eqn:E; [|apply Nat.ltb_ge in E; lia].
    pose proof (Nat.div_mod_eq (2 * words + ns) (2 * ns)) as Hd2.
    pose proof (Nat.mod_upper_bound (2 * words + ns) (2 * ns) ltac:(lia)) as Hm2.
    nia.
Qed.

(** ** The focus filter *)

Lemma join_splitChar (c : N) (s : jsstring) : join [c] (splitChar c s) = s.
Proof.
  induction s as [|x s IH]; [reflexivity|].
  cbn [splitChar]. pose proof (splitChar_nonempty c s) as Hne.
  destruct (N.eqb_spec x c) as [->|Hx].
  - destruct (splitChar c s) as [|p rest]; [congruence|].
    change (join [c] ([] :: p :: rest)) with ([] ++ [c] ++ join [c] (p :: rest)).
    rewrite IH. reflexivity.
  - destruct (splitChar c s) as [|p rest]; [congruence|].
    rewrite <- IH. destruct rest; reflexivity.
Qed.

Lemma filter_idempotent {A} (f : A -> bool) (l : list A) :
  filter f (filter f l) = filter f l.
Proof.
  induction l as [|x l IH]; [reflexivity|].
  cbn [filter]. destruct (f x) eqn:E; [|exact IH].
  cbn [filter]. rewrite E, IH. reflexivity.
Qed.

Lemma filter_all {A} (f : A -> bool) (l : list A) :
  Forall (fun x => f x = true) l -> filter f l = l.
Proof.
  induction 1 as [|x l Hx _ IH]; [reflexivity|].
  cbn [filter]. rewrite Hx, IH. reflexivity.
Qed.

(** X4: filtering by focus twice is filtering once, whatever analysis is
    passed along. *)
Theorem focus_filter_idempotent :
  forall lower summary focus a a',
    applyFocusFilter lower (applyFocusFilter lower summary focus a) focus a'
    = applyFocusFilter lower summary focus a.
Proof.
  intros lower summary focus a a'. unfold applyFocusFilter at 2 3.
  destruct (2 * length (filter (keepsLine lower (lower focus)) (splitChar LF summary))
            <? length (splitChar LF summary)) eqn:E.
  - unfold applyFocusFilter. rewrite E. reflexivity.
  - apply Nat.ltb_ge in E.
    pose proof (splitChar_nonempty LF summary) as Hne.
    pose proof (Forall_filter _ (keepsLine lower (lower focus)) _
                  (splitChar_free LF summary)) as Hfree.
    set (kept := filter (keepsLine lower (lower focus)) (splitChar LF summary)) in *.
    assert (Hk : kept <> []).
    { intros Hk. rewrite Hk in E. cbn in E.
      destruct (splitChar LF summary); [congruence|cbn in E; lia]. }
    unfold applyFocusFilter.
    rewrite (splitChar_join LF kept Hk Hfree).
    assert (Hff : filter (keepsLine lower (lower focus)) kept = kept).
    { subst kept. apply filter_idempotent. }
    rewrite Hff.
    destruct (2 * length kept <? length kept) eqn:E2; [|reflexivity].
    apply Nat.ltb_lt in E2. lia.
Qed.

(** X5: a summary in which every line is shorter than 50 characters or
    mentions the focus comes back from the focus filter unchanged. *)
Theorem focus_filter_unchanged :
  forall lower summary focus a,
    Forall (fun line => length line < 50
                        \/ includes (lower line) (lower focus) = true)
           (splitChar LF summary) ->
    applyFocusFilter lower summary focus a = summary.
Proof.
  intros lower summary focus a Hall. unfold applyFocusFilter.
  rewrite (filter_all (keepsLine lower (lower focus)) (splitChar LF summary)).
  - destruct (2 * length (splitChar LF summary) <? length (splitChar LF summary));
      [reflexivity|apply join_splitChar].
  - eapply Forall_impl; [|exact Hall]. intros line [Hlen|Hinc]; unfold keepsLine.
    + apply Nat.ltb_lt in Hlen. rewrite Hlen. apply orb_true_r.
    + rewrite Hinc. reflexivity.
Qed.

(** X5 on a two-line summary and a focus neither line mentions. *)
Lemma focus_filter_unchanged_witness :
  Forall (fun line => length line < 50
                      \/ includes (asciiLower line) (asciiLower (js "cost")) = true)
         (splitChar LF (js "Short line." ++ [LF] ++ js "Another one."))
  /\ forall a,
       applyFocusFilter asciiLower (js "Short line." ++ [LF] ++ js "Another one.")
         (js "cost") a
       = js "Short line." ++ [LF] ++ js "Another one.".
Proof.
  assert (H : Forall (fun line => length line < 50
                        \/ includes (asciiLower line) (asciiLower (js "cost")) = true)
                (splitChar LF (js "Short line." ++ [LF] ++ js "Another one."))).
  { repeat constructor; left; cbn; lia. }
  split; [exact H|].
  intros a.
  exact (focus_filter_unchanged asciiLower _ (js "cost") a H).
Defined.

(** ** Entities and lists *)

Lemma existsb_str_eqb (x : jsstring) (l : list jsstring) :
  existsb (str_eqb x) l = true <-> In x l.
Proof.
  rewrite existsb_exists. split.
  - intros [y [Hin Heq]]. apply str_eqb_eq in Heq. subst y. exact Hin.
  - intros Hin. exists x. split; [exact Hin|apply str_eqb_eq; reflexivity].
Qed.

Lemma dedup_spec (l : list jsstring) :
  forall seen,
    NoDup (dedup l seen)
    /\ forall x, In x (dedup l seen) <-> In x l /\ ~ In x seen.
Proof.
  induction l as [|y l IH]; intros seen; cbn [dedup].
  - split; [constructor|]. intros x. cbn. tauto.
  - destruct (existsb (str_eqb y) seen) eqn:E.
    + apply existsb_str_eqb in E. destruct (IH seen) as [Hnd Hin].
      split; [exact Hnd|]. intros x. rewrite Hin. cbn [In]. split.
      * intros [H1 H2]. auto.
      * intros [[->|H1] H2]; [contradiction|auto].
    + assert (Hy : ~ In y seen).
      { intros Hy. apply existsb_str_eqb in Hy. congruence. }
      destruct (IH (y :: seen)) as [Hnd Hin]. split.
      * constructor; [|exact Hnd]. rewrite Hin. cbn [In]. tauto.
      * intros x. cbn [In]. rewrite Hin. cbn [In]. split.
        -- intros [->|[H1 H2]]; [auto|]. split; [auto|tauto].
        -- intros [[->|H1] H2]; [auto|].
           destruct (list_eq_dec N.eq_dec y x) as [->|Hne]; [auto|].
           right. split; [exact H1|]. intros [H|H]; auto.
Qed.

Lemma subseq_dedup (l : list jsstring) :
  forall seen, subseq (dedup l seen) l.
Proof.
  induction l as [|y l IH]; intros seen; cbn [dedup].
  - constructor.
  - destruct (existsb (str_eqb y) seen).
    + apply subseq_skip, IH.
    + apply subseq_take, IH.
Qed.

Lemma indexOf_In (l : list jsstring) (x : jsstring) :
  In x l -> exists i, indexOf l x = Some i.
Proof.
  induction l as [|y l IH]; intros Hin; [destruct Hin|]. cbn [indexOf].
  destruct (str_eqb y x) eqn:E; [exists 0; reflexivity|].
  destruct Hin as [->|Hin].
  - apply str_eqb_neq in E. congruence.
  - destruct (IH Hin) as [i Hi]. exists (S i). rewrite Hi. reflexivity.
Qed.

Lemma StronglySorted_impl_in {A} (R R' : A -> A -> Prop) (l : list A) :
  (forall x y, In x l -> In y l -> R x y -> R' x y) ->
  StronglySorted R l -> StronglySorted R' l.
Proof.
  intros Himp Hs. induction Hs as [|x l _ IH Hx]; constructor.
  - apply IH. intros a b Ha Hb. apply Himp; right; assumption.
  - rewrite Forall_forall in *. intros y Hy.
    apply Himp; [left; reflexivity|right; exact Hy|apply Hx, Hy].
Qed.

(** The elements kept by [dedup] stand in the order of their first
    occurrences in the list. *)
Lemma dedup_first_occurrences (l : list jsstring) :
  forall seen,
    StronglySorted
      (fun e1 e2 => exists i j,
           indexOf l e1 = Some i /\ indexOf l e2 = Some j /\ i < j)
      (dedup l seen).
Proof.
  induction l as [|y l IH]; intros seen; cbn [dedup]; [constructor|].
  assert (Hlift : forall seen',
             (forall e, In e (dedup l seen') -> e <> y) ->
             StronglySorted
               (fun e1 e2 => exists i j,
                    indexOf (y :: l) e1 = Some i /\ indexOf (y :: l) e2 = Some j
                    /\ i < j)
               (dedup l seen')).
  { intros seen' Hne.
    apply (StronglySorted_impl_in
             (fun e1 e2 => exists i j,
                  indexOf l e1 = Some i /\ indexOf l e2 = Some j /\ i < j));
      [|apply IH].
    intros e1 e2 H1 H2 [i [j [Hi [Hj Hij]]]].
    exists (S i), (S j). cbn [indexOf].
    assert (E1 : str_eqb y e1 = false)
      by (apply str_eqb_neq; intros ->; apply (Hne e1 H1); reflexivity).
    assert (E2 : str_eqb y e2 = false)
      by (apply str_eqb_neq; intros ->; apply (Hne e2 H2); reflexivity).
    rewrite E1, E2, Hi, Hj. repeat split. lia. }
  destruct (existsb (str_eqb y) seen) eqn:E.
  - apply Hlift. intros e He ->.
    apply (proj2 (dedup_spec l seen)) in He. destruct He as [_ He].
    apply He. apply existsb_str_eqb. exact E.
  - assert (Hne : forall e, In e (dedup l (y :: seen)) -> e <> y).
    { intros e He ->. apply (proj2 (dedup_spec l (y :: seen))) in He.
      destruct He as [_ He]. apply He. left. reflexivity. }
    constructor; [apply Hlift, Hne|].
    apply Forall_forall. intros e He.
    pose proof (Hne e He) as Hey.
    apply (proj2 (dedup_spec l (y :: seen))) in He. destruct He as [He _].
    destruct (indexOf_In l e He) as [j Hj].
    exists 0, (S j). cbn [indexOf].
    assert (E0 : str_eqb y y = true) by (apply str_eqb_eq; reflexivity).
    assert (E1 : str_eqb y e = false) by (apply str_eqb_neq; congruence).
    rewrite E0, E1, Hj. repeat split. lia.
Qed.

(** X6: the entities are the matches of the capitalized-words pattern with
    repeats removed: no entity is listed twice, every match is listed, and
    the entities stand in the order of their first occurrences among the
    matches: of two entities the one listed first is the one whose first
    match comes first. *)
Theorem entities_distinct :
  forall text,
    let found := matchAll false reEntity text in
    NoDup (extractEntities text)
    /\ (forall e, In e (extractEntities text) <-> In e found)
    /\ subseq (extractEntities text) found
    /\ StronglySorted
         (fun e1 e2 => exists i j,
              indexOf found e1 = Some i /\ indexOf found e2 = Some j /\ i < j)
         (extractEntities text).
Proof.
  intros text found. subst found. unfold extractEntities.
  destruct (dedup_spec (matchAll false reEntity text) []) as [Hnd Hin].
  split; [exact Hnd|]. split; [|split; [apply subseq_dedup|]].
  - intros e. rewrite Hin. cbn [In]. tauto.
  - apply dedup_first_occurrences.
Qed.

Lemma listStep_fold (lines : list jsstring) :
  forall ls cur,
    Forall (fun g => g <> []) ls ->
    Forall (fun g => g <> []) (fst (fold_left listStep lines (ls, cur)))
    /\ concat (fst (fold_left listStep lines (ls, cur)))
       ++ snd (fold_left listStep lines (ls, cur))
       = concat ls ++ cur ++ map trim (filter isListLine lines).
Proof.
  induction lines as [|line lines IH]; intros ls cur Hls; cbn [fold_left].
  - cbn [fst snd filter map]. rewrite app_nil_r. split; [exact Hls|reflexivity].
  - unfold listStep at 2 4 6. cbn [filter]. destruct (isListLine line).
    + destruct (IH ls (cur ++ [trim line]) Hls) as [H1 H2].
      split; [exact H1|]. rewrite H2. cbn [map]. rewrite <- !app_assoc. reflexivity.
    + destruct (0 <? length cur) eqn:E.
      * assert (Hc : cur <> []).
        { apply Nat.ltb_lt in E. intros ->. cbn in E. lia. }
        destruct (IH (ls ++ [cur]) []) as [H1 H2].
        { apply Forall_app. split; [exact Hls|]. constructor; [exact Hc|constructor]. }
        split; [exact H1|]. rewrite H2. rewrite concat_app. cbn [concat].
        rewrite !app_nil_r, <- app_assoc. reflexivity.
      * apply IH. exact Hls.
Qed.

(** X7: the list groups of a text, laid end to end, are the trimmed forms of
    its list lines (bulleted or numbered) in order, and no group is empty. *)
Theorem list_groups :
  forall text,
    Forall (fun g => g <> []) (extractLists text)
    /\ concat (extractLists text)
       = map trim (filter isListLine (splitChar LF text)).
Proof.
  intros text. unfold extractLists.
  destruct (listStep_fold (splitChar LF text) [] [] (Forall_nil _)) as [H1 H2].
  destruct (fold_left listStep (splitChar LF text) ([], [])) as [ls cur].
  cbn [fst snd concat app] in H1, H2.
  destruct (0 <? length cur) eqn:E.
  - split.
    + apply Forall_app. split; [exact H1|]. constructor; [|constructor].
      apply Nat.ltb_lt in E. intros ->. cbn in E. lia.
    + rewrite concat_app. cbn [concat]. rewrite app_nil_r. exact H2.
  - split; [exact H1|].
    apply Nat.ltb_ge in E. destruct cur; [|cbn in E; lia].
    rewrite app_nil_r in H2. exact H2.
Qed.


(** ** The sections map *)

Lemma mapGet_mapSet_same {V} (m : omap V) (k : jsstring) (v : V) :
  mapGet (mapSet m k v) k = Some v.
Proof.
  induction m as [|[k' v'] m IH]; cbn [mapSet mapGet].
  - assert (E : str_eqb k k = true) by (apply str_eqb_eq; reflexivity).
    rewrite E. reflexivity.
  - destruct (str_eqb k' k) eqn:E; cbn [mapGet]; rewrite E; [reflexivity|exact IH].
Qed.

Lemma mapSet_keys {V} (m : omap V) (k : jsstring) (v : V) :
  forall k', In k' (map fst (mapSet m k v)) <-> k' = k \/ In k' (map fst m).
Proof.
  induction m as [|[k0 v0] m IH]; intros k'; cbn [mapSet map fst In].
  - split; [intros [H|[]]; auto|intros [H|[]]; auto].
  - destruct (str_eqb k0 k) eqn:E; cbn [map fst In].
    + apply str_eqb_eq in E. subst k0. split; [tauto|].
      intros [H|H]; [left; congruence|exact H].
    + rewrite IH. tauto.
Qed.

Lemma mapSet_NoDup {V} (m : omap V) (k : jsstring) (v : V) :
  NoDup (map fst m) -> NoDup (map fst (mapSet m k v)).
Proof.
  induction m as [|[k0 v0] m IH]; intros Hnd; cbn [mapSet map fst].
  - constructor; [intros []|constructor].
  - inversion Hnd as [|? ? Hnot Hrest]; subst.
    destruct (str_eqb k0 k) eqn:E; cbn [map fst].
    + constructor; assumption.
    + constructor; [|apply IH; exact Hrest].
      rewrite mapSet_keys. intros [H|H]; [|contradiction].
      apply str_eqb_neq in E. congruence.
Qed.

Lemma mapSet_Forall {V} (P : jsstring * V -> Prop) (m : omap V) (k : jsstring) (v : V) :
  Forall P m -> P (k, v) -> Forall P (mapSet m k v).
Proof.
  induction m as [|[k0 v0] m IH]; intros Hm Hk; cbn [mapSet].
  - constructor; [exact Hk|constructor].
  - inversion Hm; subst. destruct (str_eqb k0 k) eqn:E.
    + apply str_eqb_eq in E. subst k0. constructor; assumption.
    + constructor; [assumption|apply IH; assumption].
Qed.

Lemma mapGet_In {V} (m : omap V) (k : jsstring) (v : V) :
  mapGet m k = Some v -> In (k, v) m.
Proof.
  induction m as [|[k0 v0] m IH]; cbn [mapGet]; [discriminate|].
  destruct (str_eqb k0 k) eqn:E.
  - apply str_eqb_eq in E. subst k0. intros [= ->]. left. reflexivity.
  - intros H. right. apply IH, H.
Qed.

(** What holds of the state of the loop over the lines of [lines]: the
    current title and every key is [Introduction] or the title of a line,
    no key occurs twice, and every stored line is a non-blank line of the
    text that is not a title. *)
Lemma sectionStep_invariant (lines : list jsstring) :
  let okKey := fun k =>
    k = introduction \/ exists line, In line lines /\ sectionTitle line = Some k in
  let okEntry := fun e : jsstring * list jsstring =>
    okKey (fst e)
    /\ Forall (fun l => In l lines /\ bodyLine l = true /\ sectionTitle l = None)
              (snd e) in
  forall todo st,
    (forall l, In l todo -> In l lines) ->
    okKey (fst st) -> NoDup (map fst (snd st)) -> Forall okEntry (snd st) ->
    NoDup (map fst (snd (fold_left sectionStep todo st)))
    /\ Forall okEntry (snd (fold_left sectionStep todo st)).
Proof.
  intros okKey okEntry todo.
  induction todo as [|line todo IH]; intros [lastSection secs] Hin Hlast Hnd Hall;
    cbn [fold_left].
  - split; assumption.
  - cbn [fst snd] in Hlast, Hnd, Hall.
    assert (Hline : In line lines) by (apply Hin; left; reflexivity).
    assert (Hin' : forall l, In l todo -> In l lines)
      by (intros l Hl; apply Hin; right; exact Hl).
    unfold sectionStep at 2 4.
    destruct (sectionTitle line) as [title|] eqn:Et.
    + assert (Hk : okKey title) by (right; exists line; split; assumption).
      apply IH; cbn [fst snd]; [exact Hin'|exact Hk|apply mapSet_NoDup, Hnd|].
      apply mapSet_Forall; [exact Hall|]. split; [exact Hk|constructor].
    + destruct (truthy (trim line)) eqn:Eb.
      * apply IH; cbn [fst snd]; [exact Hin'|exact Hlast|apply mapSet_NoDup, Hnd|].
        apply mapSet_Forall; [exact Hall|]. split; [exact Hlast|]. cbn [snd].
        apply Forall_app. split.
        -- destruct (mapGet secs lastSection) as [cur|] eqn:Eg; [|constructor].
           apply mapGet_In in Eg. rewrite Forall_forall in Hall.
           apply (Hall _ Eg).
        -- constructor; [|constructor]. repeat split; assumption.
      * apply IH; cbn [fst snd]; assumption.
Qed.

(** X8: in the sections of a text no title occurs twice; every title is
    [Introduction] or the title of one of its lines; every line filed under
    a title is a line of the text that is not blank and not itself a title
    line. *)
Theorem sections_well_formed :
  forall text,
    let lines := splitChar LF text in
    NoDup (map fst (extractSections text))
    /\ Forall (fun e =>
                 (fst e = introduction
                  \/ exists line, In line lines /\ sectionTitle line = Some (fst e))
                 /\ Forall (fun l => In l lines /\ bodyLine l = true
                                     /\ sectionTitle l = None) (snd e))
              (extractSections text).
Proof.
  intros text lines. unfold extractSections.
  apply (sectionStep_invariant lines lines (js "Introduction", [])).
  - auto.
  - left. reflexivity.
  - constructor.
  - constructor.
Qed.

Lemma sections_body_lines (body : list jsstring) :
  forall t secs acc,
    Forall (fun line => sectionTitle line = None) body ->
    mapGet secs t = Some acc ->
    exists secs',
      fold_left sectionStep body (t, secs) = (t, secs')
      /\ mapGet secs' t = Some (acc ++ filter bodyLine body).
Proof.
  induction body as [|line body IH]; intros t secs acc Hno Hget; cbn [fold_left].
  - exists secs. cbn [filter]. rewrite app_nil_r. split; [reflexivity|exact Hget].
  - inversion Hno as [|? ? Hline Hrest]; subst.
    unfold sectionStep at 2. rewrite Hline. cbn [filter]. unfold bodyLine at 1.
    destruct (truthy (trim line)).
    + rewrite Hget.
      destruct (IH t (mapSet secs t (acc ++ [line])) (acc ++ [line]) Hrest
                  (mapGet_mapSet_same _ _ _)) as [secs' [H1 H2]].
      exists secs'. split; [exact H1|]. rewrite H2, <- app_assoc. reflexivity.
    + apply IH; assumption.
Qed.

Lemma sections_other_titles (rest : list jsstring) (t : jsstring) :
  forall lastSection secs,
    lastSection <> t ->
    Forall (fun line => sectionTitle line <> Some t) rest ->
    mapGet (snd (fold_left sectionStep rest (lastSection, secs))) t = mapGet secs t.
Proof.
  induction rest as [|line rest IH]; intros lastSection secs Hlast Hno;
    cbn [fold_left]; [reflexivity|].
  inversion Hno as [|? ? Hline Hrest]; subst.
  unfold sectionStep at 2. destruct (sectionTitle line) as [title|] eqn:Et.
  - assert (Hne : title <> t) by congruence.
    rewrite (IH title _ Hne Hrest). apply mapGet_mapSet_other. exact Hne.
  - destruct (truthy (trim line)).
    + rewrite (IH lastSection _ Hlast Hrest). apply mapGet_mapSet_other. exact Hlast.
    + apply IH; assumption.
Qed.

(** X9: the lines filed under a title are the non-blank lines between the
    last line carrying that title and the next title line: when the lines of
    the text are [before], a line with title [t], untitled lines [body], and
    then [rest], where [rest] is empty or starts with a title line and holds
    no line with title [t], the section [t] is the non-blank lines of
    [body].  Whatever an earlier line with the same title had collected is
    dropped. *)
Theorem section_holds_lines_after_last_title :
  forall text before line t body rest,
    splitChar LF text = before ++ line :: body ++ rest ->
    sectionTitle line = Some t ->
    Forall (fun l => sectionTitle l = None) body ->
    (forall l, hd_error rest = Some l -> sectionTitle l <> None) ->
    Forall (fun l => sectionTitle l <> Some t) rest ->
    mapGet (extractSections text) t = Some (filter bodyLine body).
Proof.
  intros text before line t body rest Hsplit Ht Hbody Hhd Hrest.
  unfold extractSections. rewrite Hsplit.
  rewrite fold_left_app. cbn [fold_left].
  destruct (fold_left sectionStep before (js "Introduction", [])) as [last0 secs0].
  unfold sectionStep at 2. rewrite Ht.
  rewrite fold_left_app.
  destruct (sections_body_lines body t (mapSet secs0 t []) [] Hbody
              (mapGet_mapSet_same _ _ _)) as [secs1 [H1 H2]].
  rewrite H1. cbn [app] in H2.
  destruct rest as [|l rest]; [exact H2|].
  cbn [fold_left]. inversion Hrest as [|? ? Hl Hrest']; subst.
  unfold sectionStep at 2.
  destruct (sectionTitle l) as [title|] eqn:El.
  - assert (Hne : title <> t) by congruence.
    rewrite (sections_other_titles rest t title _ Hne Hrest').
    rewrite (mapGet_mapSet_other _ _ _ _ Hne). exact H2.
  - exfalso. apply (Hhd l); [reflexivity|exact El].
Qed.


(** X9 on a text whose heading [A] comes back: the section keeps the line
    after the second heading only. *)
Lemma section_holds_lines_after_last_title_witness :
  (splitChar LF repeatedHeadingText
   = [js "# A"; js "one"; js "# B"; js "two"] ++ js "# A" :: [js "three"] ++ []
   /\ sectionTitle (js "# A") = Some (js "A")
   /\ Forall (fun l => sectionTitle l = None) [js "three"])
  /\ mapGet (extractSections repeatedHeadingText) (js "A") = Some [js "three"].
Proof.
  assert (H1 : splitChar LF repeatedHeadingText
               = [js "# A"; js "one"; js "# B"; js "two"]
                 ++ js "# A" :: [js "three"] ++ []) by reflexivity.
  assert (H2 : sectionTitle (js "# A") = Some (js "A")) by (vm_compute; reflexivity).
  assert (H3 : Forall (fun l => sectionTitle l = None) [js "three"]).
  { constructor; [vm_compute; reflexivity|constructor]. }
  split; [repeat split; assumption|].
  apply (section_holds_lines_after_last_title repeatedHeadingText
           [js "# A"; js "one"; js "# B"; js "two"] (js "# A") (js "A")
           [js "three"] [] H1 H2 H3).
  - intros l Hl. discriminate Hl.
  - constructor.
Defined.

(** ** The keyword table *)

Lemma keywordStep_fold (lower : jsstring -> jsstring) (words : list jsstring) :
  forall (kw : omap nat) (seen : jsstring -> nat),
    NoDup (map fst kw) ->
    (forall w, mapGet kw w = if isCommonWord lower w then None else tally (seen w)) ->
    NoDup (map fst (fold_left (keywordStep lower) words kw))
    /\ forall w,
         mapGet (fold_left (keywordStep lower) words kw) w
         = if isCommonWord lower w then None
           else tally (seen w + count_occ (list_eq_dec N.eq_dec) words w).
Proof.
  induction words as [|x words IH]; intros kw seen Hnd Hget; cbn [fold_left].
  - split; [exact Hnd|]. intros w. cbn [count_occ]. rewrite Nat.add_0_r. apply Hget.
  - destruct (IH (keywordStep lower kw x)
                 (fun w => seen w + if list_eq_dec N.eq_dec x w then 1 else 0))
      as [H1 H2].
    + unfold keywordStep. destruct (isCommonWord lower x); [exact Hnd|].
      apply mapSet_NoDup, Hnd.
    + intros w. unfold keywordStep. destruct (isCommonWord lower x) eqn:Ex.
      * rewrite Hget. destruct (list_eq_dec N.eq_dec x w) as [->|Hne].
        -- rewrite Ex. reflexivity.
        -- rewrite Nat.add_0_r. reflexivity.
      * destruct (list_eq_dec N.eq_dec x w) as [->|Hne].
        -- rewrite mapGet_mapSet_same, Hget, Ex.
           destruct (seen w) as [|n]; cbn [tally]; [reflexivity|].
           rewrite Nat.add_1_r. reflexivity.
        -- rewrite (mapGet_mapSet_other _ _ _ _ Hne), Hget, Nat.add_0_r. reflexivity.
    + split; [exact H1|]. intros w. rewrite H2. cbn [count_occ].
      destruct (isCommonWord lower w); [reflexivity|].
      destruct (list_eq_dec N.eq_dec x w); f_equal; lia.
Qed.

(** X10: the keyword table is a frequency table of the lower-cased text: no
    word is listed twice, a common word is never listed, and any other word
    is listed with the number of its occurrences among the matches of the
    keyword pattern, or not listed when it does not occur. *)
Theorem keywords_count_occurrences :
  forall lower text,
    let words := matchAll false reKeyword (lower text) in
    NoDup (map fst (extractKeywords lower text))
    /\ forall w,
         mapGet (extractKeywords lower text) w
         = if isCommonWord lower w then None
           else tally (count_occ (list_eq_dec N.eq_dec) words w).
Proof.
  intros lower text words. unfold extractKeywords.
  destruct (keywordStep_fold lower words [] (fun _ => 0)) as [H1 H2].
  - constructor.
  - intros w. cbn [mapGet tally]. destruct (isCommonWord lower w); reflexivity.
  - split; [exact H1|]. intros w. rewrite H2. reflexivity.
Qed.

(** ** Ranking *)

Lemma insertDesc_perm {A} (key : A -> Z) (x : A) (l : list A) :
  Permutation (insertDesc key x l) (x :: l).
Proof.
  induction l as [|y l IH]; cbn [insertDesc]; [apply Permutation_refl|].
  destruct (key y <=? key x)%Z; [apply Permutation_refl|].
  eapply Permutation_trans; [apply perm_skip, IH|apply perm_swap].
Qed.

Lemma sortDesc_perm {A} (key : A -> Z) (l : list A) :
  Permutation (sortDesc key l) l.
Proof.
  induction l as [|x l IH]; [apply Permutation_refl|].
  cbn [sortDesc fold_right]. fold (sortDesc key l).
  eapply Permutation_trans; [apply insertDesc_perm|apply perm_skip, IH].
Qed.

Lemma insertDesc_sorted {A} (key : A -> Z) (x : A) (l : list A) :
  StronglySorted (fun a b => (key b <= key a)%Z) l ->
  StronglySorted (fun a b => (key b <= key a)%Z) (insertDesc key x l).
Proof.
  induction l as [|y l IH]; intros Hs; cbn [insertDesc].
  - constructor; constructor.
  - inversion Hs as [|? ? Hl Hy]; subst.
    destruct (key y <=? key x)%Z eqn:E.
    + apply Z.leb_le in E. constructor; [exact Hs|].
      constructor; [exact E|].
      eapply Forall_impl; [|exact Hy]. cbn. intros z Hz. lia.
    + apply Z.leb_gt in E. constructor; [apply IH, Hl|].
      apply Forall_forall. intros z Hz.
      apply (Permutation_in _ (insertDesc_perm key x l)) in Hz.
      destruct Hz as [<-|Hz]; [lia|].
      rewrite Forall_forall in Hy. apply Hy, Hz.
Qed.

Lemma sortDesc_sorted {A} (key : A -> Z) (l : list A) :
  StronglySorted (fun a b => (key b <= key a)%Z) (sortDesc key l).
Proof.
  induction l as [|x l IH]; [constructor|].
  cbn [sortDesc fold_right]. apply insertDesc_sorted, IH.
Qed.

Lemma insertDesc_map {A B} (f : A -> B) (key : B -> Z) (x : A) (l : list A) :
  insertDesc key (f x) (map f l) = map f (insertDesc (fun a => key (f a)) x l).
Proof.
  induction l as [|y l IH]; cbn [insertDesc map]; [reflexivity|].
  destruct (key (f y) <=? key (f x))%Z; cbn [map]; [reflexivity|].
  rewrite IH. reflexivity.
Qed.

Lemma sortDesc_map {A B} (f : A -> B) (key : B -> Z) (l : list A) :
  sortDesc key (map f l) = map f (sortDesc (fun a => key (f a)) l).
Proof.
  induction l as [|x l IH]; [reflexivity|].
  cbn [sortDesc fold_right map].
  change (fold_right (insertDesc key) [] (map f l)) with (sortDesc key (map f l)).
  rewrite IH. apply insertDesc_map.
Qed.

Lemma StronglySorted_impl {A} (R R' : A -> A -> Prop) (l : list A) :
  (forall x y, R x y -> R' x y) -> StronglySorted R l -> StronglySorted R' l.
Proof.
  intros Himp Hs. induction Hs as [|x l _ IH Hx]; constructor; [exact IH|].
  eapply Forall_impl; [|exact Hx]. intros y. apply Himp.
Qed.

(** X11: the key points are the first [count] candidates in a ranking by
    score: the ranking is a rearrangement of the candidate sentences (all
    sentences, or those mentioning a non-empty focus) in which no sentence
    comes before one with a higher score, and each point is the trimmed
    sentence.  So there are [count] points, or as many as there are
    candidates when these are fewer. *)
Theorem key_points_ranked :
  forall lower a count focus,
    let candidates :=
      match focus with
      | Some (c :: f) =>
          filter (fun s => includes (lower s) (lower (c :: f))) (sentences a)
      | _ => sentences a
      end in
    exists ranked,
      Permutation ranked candidates
      /\ StronglySorted
           (fun s t => keyPointScore lower a t <= keyPointScore lower a s) ranked
      /\ extractKeyPoints lower a count focus = map trim (firstn count ranked)
      /\ length (extractKeyPoints lower a count focus)
         = Nat.min count (length candidates).
Proof.
  intros lower a count focus candidates.
  exists (sortDesc (fun s => Z.of_nat (keyPointScore lower a s)) candidates).
  pose proof (sortDesc_perm (fun s => Z.of_nat (keyPointScore lower a s)) candidates)
    as Hperm.
  assert (Heq : extractKeyPoints lower a count focus
                = map trim (firstn count
                     (sortDesc (fun s => Z.of_nat (keyPointScore lower a s))
                               candidates))).
  { unfold extractKeyPoints. cbv zeta. unfold candidates.
    match goal with
    | |- context [sortDesc ?key (map ?f ?l)] => rewrite (sortDesc_map f key l)
    end.
    cbn [snd]. rewrite firstn_map, map_map. cbn [fst]. reflexivity. }
  split; [exact Hperm|]. split.
  - eapply StronglySorted_impl;
      [|apply (sortDesc_sorted (fun s => Z.of_nat (keyPointScore lower a s)))].
    cbn. intros x y Hxy. lia.
  - split; [exact Heq|].
    rewrite Heq, length_map, length_firstn.
    rewrite (Permutation_length Hperm). reflexivity.
Qed.


(** ** What the matcher returns *)

Lemma orElse_eq_some (a b : mresult) (res : mstate * caps) :
  orElse a b = Some res -> a = Some res \/ b = Some res.
Proof. destruct a; cbn; auto. Qed.

Lemma repChr_sound (ic : bool) (p : N -> bool) (lo : nat) (hi : option nat)
    (greedy : bool) (k : mstate -> caps -> mresult) (rest : jsstring) :
  forall cnt prev cs res,
    repChr ic p lo hi greedy k cnt prev rest cs = Some res ->
    exists taken rest',
      rest = taken ++ rest'
      /\ forallb (chrTest ic p) taken = true
      /\ lo <= cnt + length taken
      /\ (taken = [] \/ atMost (cnt + length taken) hi)
      /\ k (lastOr prev taken, rest') cs = Some res.
Proof.
  induction rest as [|c rest IH]; intros cnt prev cs res H.
  - cbn [repChr] in H.
    assert (Hstop : (if lo <=? cnt then k (prev, []) cs else None) = Some res).
    { destruct greedy; apply orElse_eq_some in H; destruct H as [H|H];
        first [discriminate H|exact H]. }
    destruct (lo <=? cnt) eqn:E; [|discriminate Hstop].
    apply Nat.leb_le in E. exists [], []. cbn. repeat split; auto. lia.
  - pose (more := if belowHi cnt hi && chrTest ic p c
                  then repChr ic p lo hi greedy k (S cnt) (Some c) rest cs
                  else None).
    pose (stop := if lo <=? cnt then k (prev, c :: rest) cs else None).
    change (repChr ic p lo hi greedy k cnt prev (c :: rest) cs)
      with (if greedy then orElse more stop else orElse stop more) in H.
    assert (Hcase : more = Some res \/ stop = Some res).
    { destruct greedy; apply orElse_eq_some in H; tauto. }
    destruct Hcase as [Hmore|Hstop].
    + subst more. destruct (belowHi cnt hi) eqn:Ehi; [|cbn in Hmore; congruence].
      destruct (chrTest ic p c) eqn:Ec; [|cbn in Hmore; congruence].
      cbn [andb] in Hmore. apply IH in Hmore.
      destruct Hmore as [taken [rest' [-> [Hall [Hlo [Hhi Hk]]]]]].
      exists (c :: taken), rest'. cbn [app forallb length lastOr fold_left].
      rewrite Ec, Hall. repeat split; auto; try lia.
      right. destruct hi as [h|]; cbn in *; [|exact I].
      apply Nat.ltb_lt in Ehi. destruct Hhi as [->|Hhi]; cbn; lia.
    + subst stop. destruct (lo <=? cnt) eqn:E; [|congruence].
      apply Nat.leb_le in E. exists [], (c :: rest). cbn.
      repeat split; auto. lia.
Qed.

(** Soundness of the matcher with the result it returns: what reaches the
    continuation is a state the literal can match to. *)
Lemma rmatch_sound (ic : bool) (r : regex) :
  simple r = true ->
  forall k st cs res,
    rmatch ic r st cs k = Some res ->
    exists st' cs', matchesAt ic r st st' /\ k st' cs' = Some res.
Proof.
  induction r as [|p|a IHa b IHb|a IHa b IHb|a IHa lo hi greedy|i a IHa| | |];
    intros Hs k st cs res H.
  - exists st, cs. split; [reflexivity|exact H].
  - cbn [rmatch] in H. destruct (snd st) as [|c rest] eqn:E; [discriminate H|].
    destruct (chrTest ic p c) eqn:Ec; [|discriminate H].
    exists (Some c, rest), cs. split; [|exact H]. exists c, rest. auto.
  - cbn [simple] in Hs. apply andb_true_iff in Hs. destruct Hs as [Hsa Hsb].
    cbn [rmatch] in H. apply (IHa Hsa) in H. destruct H as [mid [cs1 [Ha H]]].
    apply (IHb Hsb) in H. destruct H as [st' [cs' [Hb H]]].
    exists st', cs'. split; [|exact H]. exists mid. auto.
  - cbn [simple] in Hs. apply andb_true_iff in Hs. destruct Hs as [Hsa Hsb].
    cbn [rmatch] in H. apply orElse_eq_some in H. destruct H as [H|H].
    + apply (IHa Hsa) in H. destruct H as [st' [cs' [Ha H]]].
      exists st', cs'. split; [left; exact Ha|exact H].
    + apply (IHb Hsb) in H. destruct H as [st' [cs' [Hb H]]].
      exists st', cs'. split; [right; exact Hb|exact H].
  - destruct a; cbn [simple] in Hs; try discriminate Hs.
    rewrite rmatch_rep_chr in H. apply repChr_sound in H.
    destruct H as [taken [rest' [H1 [H2 [H3 [H4 H5]]]]]].
    exists (lastOr (fst st) taken, rest'), cs. split; [|exact H5].
    exists taken, rest'. auto.
  - cbn [simple] in Hs. cbn [rmatch] in H. apply (IHa Hs) in H.
    destruct H as [st' [cs' [Ha H]]].
    exists st'. eexists. split; [exact Ha|exact H].
  - cbn [rmatch] in H. destruct (fst st) eqn:E; [discriminate H|].
    exists st, cs. split; [split; auto|exact H].
  - cbn [rmatch] in H. destruct (snd st) eqn:E; [|discriminate H].
    exists st, cs. split; [split; auto|exact H].
  - cbn [rmatch] in H.
    destruct (xorb (isWordOpt (fst st)) (isWordOpt (hd_error (snd st)))) eqn:E;
      [|discriminate H].
    exists st, cs. split; [split; auto|exact H].
Qed.

Lemma execAt_sound (ic : bool) (r : regex) (st st' : mstate) (cs : caps) :
  simple r = true ->
  execAt ic r st = Some (st', cs) -> matchesAt ic r st st'.
Proof.
  intros Hs H. unfold execAt in H. apply (rmatch_sound ic r Hs) in H.
  destruct H as [st'' [cs' [Hm Heq]]]. injection Heq as <- _. exact Hm.
Qed.

(** Every match found by a scan is what a match attempt at some position
    consumed. *)
Lemma search_sound (ic : bool) (r : regex) (rest : jsstring) :
  forall prev f,
    search ic r prev rest = Some f ->
    exists prev' rest',
      rest = skipped f ++ rest'
      /\ execAt ic r (prev', rest') = Some (after f, groups f)
      /\ matched f = firstn (length rest' - length (snd (after f))) rest'.
Proof.
  induction rest as [|c rest IH]; intros prev f H; cbn [search] in H.
  - match type of H with
    | context [execAt ?a ?b ?c] => destruct (execAt a b c) as [[st' cs]|] eqn:E
    end; [|discriminate H].
    injection H as <-. exists prev, []. cbn [skipped after groups matched app].
    auto.
  - match type of H with
    | context [execAt ?a ?b ?c] => destruct (execAt a b c) as [[st' cs]|] eqn:E
    end.
    + injection H as <-. exists prev, (c :: rest).
      cbn [skipped after groups matched app]. auto.
    + destruct (search ic r (Some c) rest) as [f'|] eqn:Es; [|discriminate H].
      injection H as <-. destruct (IH _ _ Es) as [prev' [rest' [H1 [H2 H3]]]].
      exists prev', rest'. cbn [skipped after groups matched app].
      split; [f_equal; exact H1|]. auto.
Qed.

Lemma matchAllFrom_Forall (ic : bool) (r : regex) (P : jsstring -> Prop) :
  (forall prev rest st' cs,
      execAt ic r (prev, rest) = Some (st', cs) ->
      P (firstn (length rest - length (snd st')) rest)) ->
  forall fuel prev rest, Forall P (matchAllFrom fuel ic r prev rest).
Proof.
  intros HP. induction fuel as [|fuel IH]; intros prev rest; cbn [matchAllFrom].
  - constructor.
  - destruct (search ic r prev rest) as [f|] eqn:Es; [|constructor].
    destruct (search_sound ic r rest prev f Es) as [prev' [rest' [_ [H2 H3]]]].
    constructor.
    + rewrite H3. apply (HP prev' rest' (after f) (groups f) H2).
    + destruct (matched f); [destruct (snd (after f)); [constructor|]|]; apply IH.
Qed.

Lemma firstn_consumed {A} (taken rest : list A) :
  firstn (length (taken ++ rest) - length rest) (taken ++ rest) = taken.
Proof.
  rewrite length_app, Nat.add_sub. rewrite firstn_app, Nat.sub_diag, firstn_all.
  cbn [firstn]. apply app_nil_r.
Qed.

Lemma execAt_sentence (prev : option N) (rest : jsstring) (st' : mstate) (cs : caps) :
  execAt false reSentence (prev, rest) = Some (st', cs) ->
  sentenceShape (firstn (length rest - length (snd st')) rest).
Proof.
  intros H. apply execAt_sound in H; [|reflexivity].
  destruct H as [mid [[body [rest1 [H1 [H2 [H3 [_ ->]]]]]]
                        [marks [rest2 [H4 [H5 [H6 [_ ->]]]]]]]].
  cbn [fst snd] in *. subst rest rest1.
  rewrite app_assoc, firstn_consumed.
  exists body, marks. split; [reflexivity|].
  split; [intros ->; cbn in H3; lia|].
  split; [intros ->; cbn in H6; lia|]. split; assumption.
Qed.

Lemma search_unterminated (rest : jsstring) :
  forall prev, unterminated rest -> search false reSentence prev rest = None.
Proof.
  assert (Hexec : forall prev rest,
             unterminated rest -> execAt false reSentence (prev, rest) = None).
  { intros prev rest0 Hun.
    destruct (execAt false reSentence (prev, rest0)) as [[st' cs]|] eqn:E;
      [|reflexivity].
    apply execAt_sound in E; [|reflexivity].
    destruct E as [mid [[body [rest1 [H1 [H2 [H3 [_ ->]]]]]]
                          [marks [rest2 [H4 [H5 [H6 [_ _]]]]]]]].
    cbn [fst snd] in *. subst rest0 rest1. unfold unterminated in Hun.
    rewrite forallb_app in Hun. apply andb_true_iff in Hun. destruct Hun as [_ Hun].
    rewrite forallb_app in Hun. apply andb_true_iff in Hun. destruct Hun as [Hun _].
    destruct marks as [|c marks]; [cbn in H6; lia|].
    cbn [forallb] in Hun, H5. apply andb_true_iff in Hun. destruct Hun as [Hun _].
    apply andb_true_iff in H5. destruct H5 as [H5 _].
    unfold chrTest, noneOf in *. rewrite H5 in Hun. discriminate Hun. }
  induction rest as [|c rest IH]; intros prev Hun; cbn [search].
  - rewrite (Hexec prev [] Hun). reflexivity.
  - rewrite (Hexec prev (c :: rest) Hun).
    assert (Hun' : unterminated rest).
    { unfold unterminated in *. cbn [forallb] in Hun.
      apply andb_true_iff in Hun. tauto. }
    rewrite (IH (Some c) Hun'). reflexivity.
Qed.

(** X12: every sentence of the analysis is one or more characters other
    than [.], [!] and [?] followed by one or more of these three, whatever
    the text; so are the candidates for quotes. *)
Theorem sentences_are_terminated :
  forall lower text,
    Forall sentenceShape (sentences (analyzeContent lower text))
    /\ Forall sentenceShape (questions (analyzeContent lower text))
    /\ Forall sentenceShape (actionableItems (analyzeContent lower text))
    /\ forall summary,
         Forall sentenceShape (extractRelevantQuotes lower text summary).
Proof.
  intros lower text.
  assert (H : Forall sentenceShape (matchAll false reSentence text)).
  { unfold matchAll. apply matchAllFrom_Forall. intros prev rest st' cs.
    apply execAt_sentence. }
  cbn [analyzeContent sentences questions actionableItems].
  split; [exact H|]. split; [apply Forall_filter, H|].
  split; [unfold extractActionableItems; apply Forall_filter, H|].
  intros summary. unfold extractRelevantQuotes.
  apply Forall_firstn_keep, Forall_filter, H.
Qed.


Lemma search_never (ic : bool) (r : regex) (Q : jsstring -> Prop) :
  (forall c rest, Q (c :: rest) -> Q rest) ->
  (forall prev rest, Q rest -> execAt ic r (prev, rest) = None) ->
  forall rest prev, Q rest -> search ic r prev rest = None.
Proof.
  intros Htl Hexec. induction rest as [|c rest IH]; intros prev HQ; cbn [search].
  - rewrite (Hexec prev [] HQ). reflexivity.
  - rewrite (Hexec prev (c :: rest) HQ), (IH (Some c) (Htl c rest HQ)). reflexivity.
Qed.

Lemma unterminated_tl (c : N) (rest : jsstring) :
  unterminated (c :: rest) -> unterminated rest.
Proof.
  unfold unterminated. cbn [forallb]. intros H.
  apply andb_true_iff in H. tauto.
Qed.

Lemma search_terminators_unterminated (rest : jsstring) (prev : option N) :
  unterminated rest -> search false reTerminators prev rest = None.
Proof.
  apply (search_never false reTerminators unterminated unterminated_tl).
  clear. intros prev rest Hun.
  destruct (execAt false reTerminators (prev, rest)) as [[st' cs]|] eqn:E;
    [|reflexivity].
  apply execAt_sound in E; [|reflexivity].
  destruct E as [marks [rest2 [H4 [H5 [H6 _]]]]].
  cbn [fst snd] in *. subst rest. unfold unterminated in Hun.
  rewrite forallb_app in Hun. apply andb_true_iff in Hun. destruct Hun as [Hun _].
  destruct marks as [|c marks]; [cbn in H6; lia|].
  cbn [forallb] in Hun, H5. apply andb_true_iff in Hun. destruct Hun as [Hun _].
  apply andb_true_iff in H5. destruct H5 as [H5 _].
  unfold chrTest, noneOf in *. rewrite H5 in Hun. discriminate Hun.
Qed.

Lemma no_sentences_key_points (lower : jsstring -> jsstring) (a : ContentAnalysis) :
  sentences a = [] ->
  forall count focus, extractKeyPoints lower a count focus = [].
Proof.
  intros Hs count focus. unfold extractKeyPoints. rewrite Hs.
  destruct focus as [[|c f]|]; cbn [filter map sortDesc fold_right];
    rewrite firstn_nil; reflexivity.
Qed.

(** X13: a text without [.], [!] and [?] has no sentences.  Its analysis
    has no questions and no actionable items, no key points are found for
    any count and focus, the statistics report 0 sentences and an average
    of 0, the brief and bullet-point summaries are empty, the action-item
    summary is the fixed notice, and the conversational summary prints
    [undefined] for its first two points. *)
Theorem unterminated_text_has_no_sentences :
  forall lower text,
    unterminated text ->
    let a := analyzeContent lower text in
    sentences a = [] /\ questions a = [] /\ actionableItems a = []
    /\ (forall count focus, extractKeyPoints lower a count focus = [])
    /\ stSentences (generateStats text) = 0
    /\ stAvgWordsPerSentence (generateStats text) = 0
    /\ (forall lvl, generateBriefSummary lower a lvl = [])
    /\ (forall focus, generateBulletPoints lower a focus = [])
    /\ generateActionItems a = js "No explicit action items found."
    /\ generateConversationalSummary lower a
       = js "So basically, here's what we're looking at: undefined Also worth noting that undefined And get this - there are some interesting details here.".
Proof.
  intros lower text Hun a.
  assert (Hs : sentences a = []).
  { subst a. cbn [analyzeContent sentences]. unfold matchAll. cbn [matchAllFrom].
    rewrite (search_unterminated text None Hun). reflexivity. }
  assert (Hq : questions a = []).
  { subst a. cbn [analyzeContent sentences questions] in *. rewrite Hs. reflexivity. }
  assert (Ha : actionableItems a = []).
  { subst a. cbn [analyzeContent sentences actionableItems] in *.
    rewrite Hs. reflexivity. }
  pose proof (no_sentences_key_points lower a Hs) as Hk.
  assert (Hn : length (matchAll false reTerminators text) = 0).
  { unfold matchAll. cbn [matchAllFrom].
    rewrite (search_terminators_unterminated text None Hun). reflexivity. }
  split; [exact Hs|]. split; [exact Hq|]. split; [exact Ha|]. split; [exact Hk|].
  split; [exact Hn|].
  split; [unfold generateStats; cbn [stAvgWordsPerSentence]; rewrite Hn; reflexivity|].
  split; [intros lvl; unfold generateBriefSummary; rewrite Hk; reflexivity|].
  split; [intros focus; unfold generateBulletPoints; rewrite Hk; reflexivity|].
  split; [unfold generateActionItems; rewrite Ha; reflexivity|].
  unfold generateConversationalSummary. rewrite Hk. reflexivity.
Qed.

(** X13 on a two-word text. *)
Lemma unterminated_text_has_no_sentences_witness :
  unterminated (js "hello world")
  /\ sentences (analyzeContent asciiLower (js "hello world")) = []
  /\ generateBriefSummary asciiLower (analyzeContent asciiLower (js "hello world")) 3
     = [].
Proof.
  assert (H : unterminated (js "hello world")) by reflexivity.
  split; [exact H|].
  destruct (unterminated_text_has_no_sentences asciiLower (js "hello world") H)
    as [H1 [_ [_ [_ [_ [_ [H7 _]]]]]]].
  split; [exact H1|apply H7].
Defined.

(** ** The shape of the keywords *)

Lemma execAt_keyword (prev : option N) (rest : jsstring) (st' : mstate) (cs : caps) :
  execAt false reKeyword (prev, rest) = Some (st', cs) ->
  let w := firstn (length rest - length (snd st')) rest in
  4 <= length w /\ forallb isLower w = true.
Proof.
  intros H. apply execAt_sound in H; [|reflexivity].
  destruct H as [mid [[_ ->] [mid2 [[taken [rest' [H1 [H2 [H3 [_ ->]]]]]] [_ ->]]]]].
  cbn [fst snd] in *. subst rest. cbv zeta. rewrite firstn_consumed.
  split; [exact H3|exact H2].
Qed.

Lemma keywordStep_entries (lower : jsstring -> jsstring) (P : jsstring -> Prop)
    (words : list jsstring) :
  forall kw,
    Forall P words ->
    Forall (fun e => P (fst e) /\ 1 <= snd e) kw ->
    Forall (fun e => P (fst e) /\ 1 <= snd e)
           (fold_left (keywordStep lower) words kw).
Proof.
  induction words as [|x words IH]; intros kw Hw Hkw; cbn [fold_left]; [exact Hkw|].
  inversion Hw as [|? ? Hx Hrest]; subst. apply IH; [exact Hrest|].
  unfold keywordStep. destruct (isCommonWord lower x); [exact Hkw|].
  apply mapSet_Forall; [exact Hkw|]. cbn [fst snd]. split; [exact Hx|lia].
Qed.

(** X14: every keyword is a run of at least four letters [a] to [z], and is
    listed with a count of at least 1. *)
Theorem keywords_are_lowercase_words :
  forall lower text,
    Forall (fun e => (4 <= length (fst e) /\ forallb isLower (fst e) = true)
                     /\ 1 <= snd e)
           (extractKeywords lower text).
Proof.
  intros lower text. unfold extractKeywords.
  apply (keywordStep_entries lower
           (fun w => 4 <= length w /\ forallb isLower w = true));
    [|constructor].
  unfold matchAll. apply matchAllFrom_Forall. intros prev rest st' cs H.
  apply (execAt_keyword prev rest st' cs H).
Qed.

(** ** When [execute] succeeds, and what it ignores *)

(** X15: [execute] succeeds exactly when one of [text] and [file] is given
    and the other is not, the abstraction level is a number between 1 and 5
    or is NaN, which the range test lets through, and, for a file, reading
    it gives its content.  The mode and the format are never a reason to
    fail. *)
Theorem execute_succeeds_iff :
  forall lower h args,
    success (execute lower h args) = true
    <-> (truthy_opt (text args) <> truthy_opt (file args))
        /\ (is_nan (orDefault (abstraction_level args) 3%float) = true
            \/ levelInRange (abstraction_level args))
        /\ (forall path, file args = Some path -> path <> [] ->
            exists c, readFile h path = FileContent c).
Proof.
  intros lower h args. unfold execute, levelInRange.
  rewrite <- (level_check_iff (orDefault (abstraction_level args) 3%float)).
  destruct (truthy_opt (text args)) eqn:Et, (truthy_opt (file args)) eqn:Ef;
    cbn [negb andb].
  - cbn. split; [discriminate|]. intros [H _]. congruence.
  - destruct ((orDefault (abstraction_level args) 3 <? 1)%float
              || (5 <? orDefault (abstraction_level args) 3)%float) eqn:El.
    + cbn. split; [discriminate|]. intros [_ [Hl _]]. discriminate Hl.
    + destruct (file args) as [[|c f]|]; cbn in Ef; try discriminate Ef.
      * split; [|reflexivity]. intros _. split; [discriminate|].
        split; [reflexivity|]. intros path [= <-] Hp. congruence.
      * split; [|reflexivity]. intros _. split; [discriminate|].
        split; [reflexivity|]. intros path Hp. discriminate Hp.
  - destruct ((orDefault (abstraction_level args) 3 <? 1)%float
              || (5 <? orDefault (abstraction_level args) 3)%float) eqn:El.
    + cbn. split; [discriminate|]. intros [_ [Hl _]]. discriminate Hl.
    + destruct (file args) as [[|c f]|]; cbn in Ef; try discriminate Ef.
      destruct (readFile h (c :: f)) eqn:Er.
      * cbn. split; [discriminate|]. intros [_ [_ H]].
        destruct (H (c :: f) eq_refl) as [x Hx]; [discriminate|]. congruence.
      * split; [|reflexivity]. intros _. split; [discriminate|].
        split; [reflexivity|]. intros path [= <-] _. eexists. exact Er.
      * cbn. split; [discriminate|]. intros [_ [_ H]].
        destruct (H (c :: f) eq_refl) as [x Hx]; [discriminate|]. congruence.
  - cbn. split; [discriminate|]. intros [H _]. congruence.
Qed.

Lemma generateSummary_tuning (lower : jsstring -> jsstring) (a : ContentAnalysis)
    (mode : jsstring) (lv lv' : float) (focus i i' : option jsstring) :
  generateSummary lower a mode lv focus i = generateSummary lower a mode lv' focus i'.
Proof.
  unfold generateSummary.
  repeat match goal with
         | |- (if ?b then _ else _) = _ => destruct b; [reflexivity|]
         end.
  reflexivity.
Qed.

(** X16: the parameters [instructions] and [language] are never read for
    the summary, and an abstraction level in the accepted range is only
    echoed: replacing the three changes neither success, output nor error,
    nor any field of the data other than the echoed level. *)
Theorem tuning_parameters_without_effect :
  forall lower h args i l lv,
    levelInRange (abstraction_level args) ->
    levelInRange lv ->
    let r := execute lower h args in
    let r' := execute lower h (withTuning args i l lv) in
    success r' = success r /\ output r' = output r /\ error r' = error r
    /\ option_map dataButLevel (data r') = option_map dataButLevel (data r)
    /\ (success r' = true ->
        option_map abstractionLevel (data r') = Some (orDefault lv 3%float)).
Proof.
  intros lower h args i l lv Hl Hl' r r'. subst r r'. unfold levelInRange in *.
  assert (Hsum : forall c,
             let r := summarize lower h args c in
             let r' := summarize lower h (withTuning args i l lv) c in
             success r' = success r /\ output r' = output r /\ error r' = error r
             /\ option_map dataButLevel (data r') = option_map dataButLevel (data r)
             /\ (success r' = true ->
                 option_map abstractionLevel (data r') = Some (orDefault lv 3%float))).
  { intros c. cbv zeta. unfold summarize.
    cbn [withTuning mode format max_length abstraction_level focus instructions
         include_quotes include_stats file success output error data option_map
         dataButLevel dMode dFormat originalLength summaryLength compressionRatio
         source method dMetadata abstractionLevel].
    rewrite (generateSummary_tuning lower (analyzeContent lower c)
               (orDefault (mode args) (js "auto"))
               (orDefault lv 3%float) (orDefault (abstraction_level args) 3%float)
               (focus args) i (instructions args)).
    repeat split; reflexivity. }
  unfold execute. cbn [withTuning text file abstraction_level].
  destruct (negb (truthy_opt (text args)) && negb (truthy_opt (file args)));
    [cbn; repeat split; discriminate|].
  destruct (truthy_opt (text args) && truthy_opt (file args));
    [cbn; repeat split; discriminate|].
  assert (E1 : ((orDefault (abstraction_level args) 3 <? 1)%float
                || (5 <? orDefault (abstraction_level args) 3)%float) = false).
  { apply level_check_iff. right. exact Hl. }
  assert (E2 : ((orDefault lv 3 <? 1)%float || (5 <? orDefault lv 3)%float) = false).
  { apply level_check_iff. right. exact Hl'. }
  rewrite E1, E2.
  destruct (file args) as [[|c f]|]; try apply Hsum.
  destruct (readFile h (c :: f)); try apply Hsum; cbn; repeat split; discriminate.
Qed.

(** X16 on the one-line example, with instructions, a language and the
    highest abstraction level added. *)
Lemma tuning_parameters_without_effect_witness :
  (levelInRange (abstraction_level (textArgs foxText "auto" "markdown"))
   /\ levelInRange (Some 5%float))
  /\ output (execute asciiLower bareHost
               (withTuning (textArgs foxText "auto" "markdown")
                  (Some (js "be brief")) (Some (js "french")) (Some 5%float)))
     = output (execute asciiLower bareHost (textArgs foxText "auto" "markdown")).
Proof.
  assert (H1 : levelInRange (abstraction_level (textArgs foxText "auto" "markdown")))
    by reflexivity.
  assert (H2 : levelInRange (Some 5%float)) by reflexivity.
  split; [split; assumption|].
  destruct (tuning_parameters_without_effect asciiLower bareHost
              (textArgs foxText "auto" "markdown")
              (Some (js "be brief")) (Some (js "french")) (Some 5%float) H1 H2)
    as [_ [Hout _]].
  exact Hout.
Defined.


(** ** Replacing *)

Lemma execAt_chr (p : N -> bool) (prev : option N) (rest : jsstring) :
  execAt false (Chr p) (prev, rest)
  = match rest with
    | c :: rest' => if p c then Some ((Some c, rest'), []) else None
    | [] => None
    end.
Proof. destruct rest; reflexivity. Qed.

(** Replacing every match of a one-character class by a fixed string is a
    character-by-character substitution. *)
Lemma replaceAllFrom_chr (p : N -> bool) (r : jsstring) (rest : jsstring) :
  forall fuel prev,
    length rest < fuel ->
    replaceAllFrom fuel false (Chr p) (fun _ _ => r) prev rest
    = flat_map (fun c => if p c then r else [c]) rest.
Proof.
  induction rest as [|c rest IH]; intros fuel prev Hfuel.
  - destruct fuel; [cbn in Hfuel; lia|]. reflexivity.
  - destruct fuel as [|fuel]; [cbn in Hfuel; lia|]. cbn [length] in Hfuel.
    cbn [replaceAllFrom search flat_map]. rewrite execAt_chr.
    destruct (p c) eqn:Ec.
    + cbn [skipped matched after groups fst snd length].
      assert (E : S (length rest) - length rest = 1) by lia.
      unfold jsstring in *. rewrite E. cbn [firstn app].
      rewrite (IH fuel (Some c)) by lia. reflexivity.
    + specialize (IH (S fuel) (Some c) ltac:(lia)).
      cbn [replaceAllFrom] in IH.
      destruct (search false (Chr p) (Some c) rest) as [f|].
      * cbn [skipped matched after groups]. rewrite <- IH. reflexivity.
      * rewrite <- IH. reflexivity.
Qed.

Lemma replaceAll_chr (p : N -> bool) (r s : jsstring) :
  replaceAll false (Chr p) (fun _ _ => r) s
  = flat_map (fun c => if p c then r else [c]) s.
Proof. unfold replaceAll. apply replaceAllFrom_chr. lia. Qed.

(** The matcher only moves along its input: whatever is true of every
    character of the input is true of every character of the rest and of
    the captures handed to the continuation. *)
Lemma repLoop_chars (ok : N -> Prop)
    (body : mstate -> caps -> (mstate -> caps -> mresult) -> mresult)
    (lo : nat) (hi : option nat) (greedy : bool) (k : mstate -> caps -> mresult)
    (P : mresult -> Prop) :
  (forall st cs k',
      Forall ok (snd st) -> capsOk ok cs ->
      (forall st' cs', Forall ok (snd st') -> capsOk ok cs' -> P (k' st' cs')) ->
      P (body st cs k')) ->
  P None ->
  (forall st' cs', Forall ok (snd st') -> capsOk ok cs' -> P (k st' cs')) ->
  forall fuel cnt st cs,
    Forall ok (snd st) -> capsOk ok cs ->
    P (repLoop body lo hi greedy k fuel cnt st cs).
Proof.
  intros Hbody Hnone Hk.
  assert (Hor : forall a b, P a -> P b -> P (orElse a b)).
  { intros [x|] b Ha Hb; cbn; assumption. }
  induction fuel as [|fuel IH]; intros cnt st cs Hst Hcs; cbn [repLoop].
  - destruct greedy; apply Hor; try exact Hnone;
      destruct (lo <=? cnt); auto.
  - assert (Hstop : P (if lo <=? cnt then k st cs else None))
      by (destruct (lo <=? cnt); auto).
    assert (Hmore : P (if belowHi cnt hi
                       then body st cs
                              (fun st' cs' =>
                                 if (length (snd st') <? length (snd st)) || (cnt <? lo)
                                 then repLoop body lo hi greedy k fuel (S cnt) st' cs'
                                 else None)
                       else None)).
    { destruct (belowHi cnt hi); [|exact Hnone].
      apply Hbody; [exact Hst|exact Hcs|]. intros st' cs' Hst' Hcs'. cbv beta.
      match goal with
      | |- P (if ?b then _ else _) => destruct b
      end; [apply IH; assumption|exact Hnone]. }
    destruct greedy; apply Hor; assumption.
Qed.

Lemma rmatch_chars (ok : N -> Prop) (ic : bool) (r : regex) :
  forall (P : mresult -> Prop) st cs k,
    P None ->
    Forall ok (snd st) -> capsOk ok cs ->
    (forall st' cs', Forall ok (snd st') -> capsOk ok cs' -> P (k st' cs')) ->
    P (rmatch ic r st cs k).
Proof.
  induction r as [|p|a IHa b IHb|a IHa b IHb|a IHa lo hi greedy|i a IHa| | |];
    intros P [prev rest] cs k Hnone Hst Hcs Hk; cbn [rmatch fst snd] in *.
  - auto.
  - destruct rest as [|c rest]; [exact Hnone|].
    destruct (chrTest ic p c); [|exact Hnone].
    apply Hk; [|exact Hcs]. cbn [snd]. inversion Hst; assumption.
  - apply IHa; auto. intros st' cs' Hst' Hcs'. apply IHb; auto.
  - assert (Ha : P (rmatch ic a (prev, rest) cs k)) by (apply IHa; auto).
    assert (Hb : P (rmatch ic b (prev, rest) cs k)) by (apply IHb; auto).
    destruct (rmatch ic a (prev, rest) cs k); cbn; assumption.
  - apply (repLoop_chars ok); auto.
    intros st0 cs0 k' Hst0 Hcs0 Hk'. apply IHa; auto.
  - apply IHa; auto. intros st' cs' Hst' Hcs'. apply Hk; [exact Hst'|].
    constructor; [|exact Hcs']. cbn [snd]. apply Forall_firstn_keep, Hst.
  - destruct prev; auto.
  - destruct rest; auto.
  - match goal with
    | |- P (if ?b then _ else _) => destruct b
    end; auto.
Qed.

Lemma execAt_chars (ok : N -> Prop) (ic : bool) (r : regex) (st : mstate) :
  Forall ok (snd st) -> resultOk ok (execAt ic r st).
Proof.
  intros Hst. unfold execAt.
  apply (rmatch_chars ok ic r (resultOk ok)); [exact I|exact Hst|constructor|].
  intros st' cs' H1 H2. split; assumption.
Qed.

Lemma search_chars (ok : N -> Prop) (ic : bool) (r : regex) (rest : jsstring) :
  forall prev f,
    Forall ok rest ->
    search ic r prev rest = Some f ->
    Forall ok (skipped f) /\ Forall ok (matched f)
    /\ Forall ok (snd (after f)) /\ capsOk ok (groups f).
Proof.
  induction rest as [|c rest IH]; intros prev f Hrest H; cbn [search] in H.
  - pose proof (execAt_chars ok ic r (prev, []) Hrest) as Hex.
    match type of H with
    | context [execAt ?a ?b ?c] =>
        change (resultOk ok (execAt a b c)) in Hex;
        destruct (execAt a b c) as [[st' cs]|]
    end; [|discriminate H].
    injection H as <-. cbn [skipped matched after groups].
    cbn [resultOk] in Hex. destruct Hex as [H1 H2].
    repeat split; auto; rewrite firstn_nil; constructor.
  - pose proof (execAt_chars ok ic r (prev, c :: rest) Hrest) as Hex.
    match type of H with
    | context [execAt ?a ?b ?c] =>
        change (resultOk ok (execAt a b c)) in Hex;
        destruct (execAt a b c) as [[st' cs]|]
    end.
    + injection H as <-. cbn [skipped matched after groups].
      cbn [resultOk] in Hex. destruct Hex as [H1 H2].
      repeat split; auto. apply Forall_firstn_keep, Hrest.
    + inversion Hrest as [|? ? Hc Hrest']; subst.
      destruct (search ic r (Some c) rest) as [f'|] eqn:Es; [|discriminate H].
      injection H as <-. cbn [skipped matched after groups].
      destruct (IH _ _ Hrest' Es) as [H1 [H2 [H3 H4]]].
      repeat split; auto.
Qed.

(** A replacement built from the match and its captures puts no new
    character into the string. *)
Lemma replaceAll_chars (ok : N -> Prop) (ic : bool) (r : regex)
    (repl : jsstring -> caps -> jsstring) (s : jsstring) :
  (forall m cs, Forall ok m -> capsOk ok cs -> Forall ok (repl m cs)) ->
  Forall ok s -> Forall ok (replaceAll ic r repl s).
Proof.
  intros Hrepl. unfold replaceAll. generalize (S (length s)) as fuel.
  generalize (@None N) as prev. intros prev fuel. revert prev s.
  induction fuel as [|fuel IH]; intros prev rest Hrest; cbn [replaceAllFrom];
    [exact Hrest|].
  destruct (search ic r prev rest) as [f|] eqn:Es; [|exact Hrest].
  destruct (search_chars ok ic r rest prev f Hrest Es) as [H1 [H2 [H3 H4]]].
  apply Forall_app. split; [exact H1|]. apply Forall_app. split; [apply Hrepl; auto|].
  destruct (matched f).
  - destruct (snd (after f)) as [|c rest'] eqn:Ea; [constructor|].
    inversion H3; subst. constructor; [assumption|]. apply IH. assumption.
  - apply IH. exact H3.
Qed.

Lemma capture_chars (ok : N -> Prop) (cs : caps) (i : nat) :
  capsOk ok cs ->
  Forall ok (match capture cs i with Some t => t | None => [] end).
Proof.
  induction 1 as [|[j s] cs Hs _ IH]; cbn [capture]; [constructor|].
  destruct (Nat.eqb i j); [exact Hs|exact IH].
Qed.

(** ** The output formats *)

(** X17: the [plain] format leaves none of [*], [_], [#] and the backtick
    in the output, whatever the summary holds. *)
Theorem plain_output_has_no_markup :
  forall clock summary mode,
    Forall (fun c => markupChar c = false)
           (content (formatOutput clock summary (js "plain") mode))
    /\ metadata (formatOutput clock summary (js "plain") mode) = js "plain".
Proof.
  intros clock summary mode. split; [|reflexivity].
  change (content (formatOutput clock summary (js "plain") mode))
    with (replaceAll false reLink
            (fun _ cs => match capture cs 1 with Some t => t | None => [] end)
            (replaceAll false reMarkup (fun _ _ => []) summary)).
  apply replaceAll_chars.
  - intros m cs _ Hcs. apply capture_chars, Hcs.
  - unfold reMarkup. rewrite replaceAll_chr.
    induction summary as [|c s IH]; cbn [flat_map]; [constructor|].
    fold (markupChar c). destruct (markupChar c) eqn:E; cbn [app]; [exact IH|].
    constructor; [exact E|exact IH].
Qed.

Lemma outlineLine_one_line (line : jsstring) :
  ~ In LF line -> ~ In LF (outlineLine line).
Proof.
  intros Hline. unfold outlineLine.
  assert (Hpre : forall pre, ~ In LF pre -> ~ In LF (pre ++ line)).
  { intros pre Hp Hin. apply in_app_or in Hin. tauto. }
  destruct (startsWith line (js "**") && endsWith line (js "**")).
  - assert (H : Forall (fun c => c <> LF)
                  (replaceAll false reBold (fun _ _ => []) line)).
    { apply replaceAll_chars; [intros; constructor|].
      apply Forall_forall. intros c Hc ->. contradiction. }
    rewrite Forall_forall in H. intros Hin. apply (H LF Hin). reflexivity.
  - destruct (startsWith line (bullet [])).
    + apply Hpre. cbn. intros [H|[H|[]]]; discriminate H.
    + destruct (matchFirst false reNumberedLine line); apply Hpre; cbn;
        intuition discriminate.
Qed.

(** X18: the [outline] format works line by line: the output has as many
    lines as the summary, and each one is the reformatted line of the
    summary at the same place. *)
Theorem outline_keeps_the_lines :
  forall clock summary mode,
    let out := content (formatOutput clock summary (js "outline") mode) in
    splitChar LF out = map outlineLine (splitChar LF summary)
    /\ length (splitChar LF out) = length (splitChar LF summary).
Proof.
  intros clock summary mode out.
  assert (H : splitChar LF out = map outlineLine (splitChar LF summary)).
  { subst out.
    change (content (formatOutput clock summary (js "outline") mode))
      with (join [LF] (map outlineLine (splitChar LF summary))).
    apply splitChar_join.
    - pose proof (splitChar_nonempty LF summary) as Hne.
      destruct (splitChar LF summary); [congruence|discriminate].
    - pose proof (splitChar_free LF summary) as Hfree.
      induction Hfree as [|line lines Hline _ IH]; cbn [map]; constructor;
        [apply outlineLine_one_line, Hline|exact IH]. }
  split; [exact H|]. rewrite H. apply length_map.
Qed.


Lemma execAt_blank_line (prev : option N) (rest : jsstring) :
  ~ In LF rest -> execAt false reBlankLine (prev, rest) = None.
Proof.
  intros Hno. unfold execAt, reBlankLine, chr. cbn [rmatch snd].
  destruct rest as [|c rest]; [reflexivity|].
  unfold chrTest. destruct (N.eqb_spec LF c) as [<-|_]; [|reflexivity].
  exfalso. apply Hno. left. reflexivity.
Qed.

(** X19: in the [html] format the summary is put between the fixed parts
    of the page with every line break replaced, so the inserted body holds
    no line break; a summary of one line is inserted as it is, no character
    of it escaped. *)
Theorem html_body_has_no_line_break :
  forall clock summary mode,
    exists body,
      content (formatOutput clock summary (js "html") mode)
      = htmlBefore mode ++ body ++ htmlMiddle ++ localeDate clock ++ htmlAfter
      /\ ~ In LF body
      /\ (~ In LF summary -> body = summary).
Proof.
  intros clock summary mode.
  exists (replaceAll false reNewline (fun _ _ => js "<br>")
            (replaceAll false reBlankLine (fun _ _ => js "</p><p>") summary)).
  split; [reflexivity|].
  assert (Hflat : forall s,
             replaceAll false reNewline (fun _ _ => js "<br>") s
             = flat_map (fun c => if (LF =? c)%N then js "<br>" else [c]) s).
  { intros s. unfold reNewline, chr. apply replaceAll_chr. }
  split.
  - rewrite Hflat.
    generalize (replaceAll false reBlankLine (fun _ _ => js "</p><p>") summary).
    intros s. induction s as [|c s IH]; cbn [flat_map]; [intros []|].
    intros Hin. apply in_app_or in Hin. destruct Hin as [Hin|Hin]; [|exact (IH Hin)].
    destruct (N.eqb_spec LF c) as [_|Hne].
    + cbn in Hin. intuition discriminate.
    + destruct Hin as [Hin|[]]. congruence.
  - intros Hno.
    assert (Hblank : replaceAll false reBlankLine (fun _ _ => js "</p><p>") summary
                     = summary).
    { unfold replaceAll. cbn [replaceAllFrom].
      rewrite (search_never false reBlankLine (fun s => ~ In LF s)); auto.
      - intros c rest H Hin. apply H. right. exact Hin.
      - intros prev rest H. apply execAt_blank_line, H. }
    rewrite Hblank, Hflat. clear Hblank.
    induction summary as [|c s IH]; [reflexivity|].
    cbn [flat_map]. destruct (N.eqb_spec LF c) as [<-|_].
    + exfalso. apply Hno. left. reflexivity.
    + cbn [app]. f_equal. apply IH. intros Hin. apply Hno. right. exact Hin.
Qed.

Lemma hexDigit_printable (n : N) : (32 <= hexDigit n)%N.
Proof. unfold hexDigit. destruct (n <? 10)%N; lia. Qed.

Lemma unicodeEscape_printable (c : N) : Forall (fun x => (32 <= x)%N) (unicodeEscape c).
Proof.
  unfold unicodeEscape. cbn [js app].
  repeat (constructor; [first [apply hexDigit_printable | cbn; lia]|]). constructor.
Qed.

Lemma jsonEscape_printable (n : nat) :
  forall s, length s <= n -> Forall (fun x => (32 <= x)%N) (jsonEscape s).
Proof.
  induction n as [|n IH]; intros s Hlen.
  - destruct s; [constructor|cbn in Hlen; lia].
  - destruct s as [|c s]; [constructor|]. cbn [length] in Hlen.
    assert (Hs : Forall (fun x => (32 <= x)%N) (jsonEscape s)) by (apply IH; lia).
    assert (Hlit : forall a b,
               (32 <= a)%N -> (32 <= b)%N ->
               Forall (fun x => (32 <= x)%N) ([a; b] ++ jsonEscape s)).
    { intros a b Ha Hb. cbn [app]. constructor; [exact Ha|].
      constructor; [exact Hb|exact Hs]. }
    cbn [jsonEscape].
    destruct (c =? 8)%N; [apply Hlit; cbn; lia|].
    destruct (c =? 9)%N; [apply Hlit; cbn; lia|].
    destruct (c =? 10)%N; [apply Hlit; cbn; lia|].
    destruct (c =? 12)%N; [apply Hlit; cbn; lia|].
    destruct (c =? 13)%N; [apply Hlit; cbn; lia|].
    destruct (c =? 34)%N; [apply (Hlit 92%N QUOTE); unfold QUOTE; lia|].
    destruct (c =? 92)%N; [apply Hlit; cbn; lia|].
    destruct (c <? 32)%N eqn:Elt.
    { apply Forall_app. split; [apply unicodeEscape_printable|exact Hs]. }
    apply N.ltb_ge in Elt.
    destruct (isHighSurrogate c).
    { destruct s as [|d s]; [apply unicodeEscape_printable|].
      destruct (isLowSurrogate d) eqn:Ed.
      - unfold isLowSurrogate in Ed. apply andb_true_iff in Ed. destruct Ed as [Ed _].
        apply N.leb_le in Ed.
        constructor; [exact Elt|]. constructor; [lia|].
        apply IH. cbn [length] in Hlen. lia.
      - apply Forall_app. split; [apply unicodeEscape_printable|exact Hs]. }
    destruct (isLowSurrogate c).
    { apply Forall_app. split; [apply unicodeEscape_printable|exact Hs]. }
    constructor; [exact Elt|exact Hs].
Qed.

Lemma jsonMember_one_line (indent : nat) (key : string) (value : jsstring) :
  Forall (fun x => (32 <= x)%N) (js key) ->
  ~ In LF (jsonMember indent key (jsonString value)).
Proof.
  intros Hkey.
  assert (H : Forall (fun x => (32 <= x)%N) (jsonMember indent key (jsonString value))).
  { unfold jsonMember, jsonString.
    repeat (apply Forall_app; split); try exact Hkey;
      try (repeat constructor; unfold QUOTE; cbn; lia).
    - clear. induction indent; cbn [repeat]; constructor; [unfold SPACE; lia|assumption].
    - apply (jsonEscape_printable (length value)). lia. }
  rewrite Forall_forall in H. intros Hin. specialize (H LF Hin). unfold LF in H. lia.
Qed.

(** X20: the [json] format always gives five lines: the braces and one
    line for each of [mode], [summary] and [timestamp]; line breaks of the
    summary are escaped inside its string. *)
Theorem json_output_has_five_lines :
  forall clock summary mode,
    splitChar LF (content (formatOutput clock summary (js "json") mode))
    = [ js "{";
        jsonMember 2 "mode" (jsonString mode) ++ js ",";
        jsonMember 2 "summary" (jsonString summary) ++ js ",";
        jsonMember 2 "timestamp" (jsonString (isoNow clock));
        js "}" ].
Proof.
  intros clock summary mode.
  set (m1 := jsonMember 2 "mode" (jsonString mode)).
  set (m2 := jsonMember 2 "summary" (jsonString summary)).
  set (m3 := jsonMember 2 "timestamp" (jsonString (isoNow clock))).
  assert (H1 : ~ In LF m1) by (apply jsonMember_one_line; repeat constructor; cbn; lia).
  assert (H2 : ~ In LF m2) by (apply jsonMember_one_line; repeat constructor; cbn; lia).
  assert (H3 : ~ In LF m3) by (apply jsonMember_one_line; repeat constructor; cbn; lia).
  assert (Hc : content (formatOutput clock summary (js "json") mode)
               = join [LF] [js "{"; m1 ++ js ","; m2 ++ js ","; m3; js "}"]).
  { change (content (formatOutput clock summary (js "json") mode))
      with (jsonObject 0 [m1; m2; m3]).
    unfold jsonObject. cbn [join repeat Nat.mul Nat.add app js].
    repeat (rewrite <- ?app_assoc; cbn [app]). reflexivity. }
  rewrite Hc. apply splitChar_join; [discriminate|].
  assert (Hcomma : forall m, ~ In LF m -> ~ In LF (m ++ js ",")).
  { intros m Hm Hin. apply in_app_or in Hin. destruct Hin as [Hin|Hin]; [tauto|].
    cbn in Hin. intuition discriminate. }
  repeat constructor; auto; cbn; intuition discriminate.
Qed.

(** ** The word limit *)

Lemma words_of_trimmed (s : jsstring) (m : nat) :
  S m < length (wsTokens false [] s) ->
  length (wsTokens false []
            (join [SPACE] (firstn (S m) (wsTokens false [] s)) ++ js "..."))
  = S m.
Proof.
  intros Hlt. remember (wsTokens false [] s) as words eqn:Hwords.
  rewrite wsTokens_join_length.
  - apply firstn_length_le. unfold jsstring in *. lia.
  - destruct words; [cbn in Hlt; lia|discriminate].
  - apply Forall_firstn_keep. subst words. apply wsTokens_noSpace. constructor.
  - rewrite tl_firstn. apply firstn_all_but_last.
    + clear - Hlt. unfold jsstring in *.
      destruct words; cbn [tl length] in *; lia.
    + subst words.
      destruct (wsTokens_inner s false [] (fun H => eq_refl)) as [H1 _].
      exact H1.
  - repeat constructor.
Qed.

Lemma trimToWordLimit_count (s : jsstring) (n : Z) :
  (1 <= n)%Z ->
  length (splitRe false reSpaces (trimToWordLimit s n)) <= Z.to_nat n.
Proof.
  intros Hn. unfold trimToWordLimit, slice0.
  assert (E : (n <? 0)%Z = false) by (apply Z.ltb_ge; lia).
  rewrite E.
  destruct (Z.of_nat (length (splitRe false reSpaces s)) <=? n)%Z eqn:Hfit.
  - apply Z.leb_le in Hfit. lia.
  - apply Z.leb_gt in Hfit. rewrite !splitRe_spaces in *.
    destruct (Z.to_nat n) as [|m] eqn:Hm; [lia|].
    change (js " ") with [SPACE]. rewrite words_of_trimmed; [lia|].
    unfold jsstring in *. lia.
Qed.

(** X21: a positive [max_length] is honoured: splitting the output of a
    successful call at white space gives at most [max_length] pieces, in
    every mode and format. *)
Theorem word_limit_honoured :
  forall lower h args n out,
    max_length args = Some n ->
    (1 <= n)%Z ->
    output (execute lower h args) = Some out ->
    length (splitRe false reSpaces out) <= Z.to_nat n.
Proof.
  intros lower h args n out Hmax Hn Hout.
  assert (Hsum : forall c, output (summarize lower h args c) = Some out ->
                           length (splitRe false reSpaces out) <= Z.to_nat n).
  { intros c H. unfold summarize in H. cbn [output] in H. rewrite Hmax in H.
    cbn [orDefault] in H.
    assert (E : (0 <? n)%Z = true) by (apply Z.ltb_lt; lia).
    rewrite E in H. injection H as <-. apply trimToWordLimit_count, Hn. }
  unfold execute in Hout.
  destruct (negb (truthy_opt (text args)) && negb (truthy_opt (file args)));
    [discriminate Hout|].
  destruct (truthy_opt (text args) && truthy_opt (file args)); [discriminate Hout|].
  destruct ((orDefault (abstraction_level args) 3 <? 1)%float
            || (5 <? orDefault (abstraction_level args) 3)%float); [discriminate Hout|].
  destruct (file args) as [[|c f]|]; try (eapply Hsum; exact Hout).
  destruct (readFile h (c :: f)); try discriminate Hout.
  eapply Hsum; exact Hout.
Qed.


(** X21 on a six-word text and a limit of three words. *)
Lemma word_limit_honoured_witness :
  exists out,
    output (execute asciiLower bareHost (limitedArgs "one two three four five six" 3))
    = Some out
    /\ length (splitRe false reSpaces out) <= 3.
Proof.
  eexists. split; [vm_compute; reflexivity|].
  apply (word_limit_honoured asciiLower bareHost
           (limitedArgs "one two three four five six" 3) 3%Z _ eq_refl);
    [lia|vm_compute; reflexivity].
Defined.

(** ** Notices and empty summaries *)

Lemma join_bullets_head (l : list jsstring) :
  l <> [] -> exists t, join [LF] (map bullet (firstn 5 l)) = BULLET :: t.
Proof.
  destruct l as [|p l]; [congruence|]. intros _.
  change (firstn 5 (p :: l)) with (p :: firstn 4 l).
  change (map bullet (p :: firstn 4 l)) with (bullet p :: map bullet (firstn 4 l)).
  generalize (map bullet (firstn 4 l)). intros [|q rest].
  - eexists. reflexivity.
  - eexists. cbn [join bullet app]. reflexivity.
Qed.

(** X22: the comparison summary gives its notice exactly when the text has
    no comparison sentence, no pro and no con; in every other case the
    summary starts with a bold heading.  It is never empty. *)
Theorem comparison_notice :
  forall a,
    let comparisons := filter (test true reComparison) (sentences a) in
    let prosCons := classifyProsCons (sentences a) in
    (comparisons = [] /\ prosCons = ([], []) ->
     generateComparisonSummary a = noComparisons)
    /\ (~ (comparisons = [] /\ prosCons = ([], [])) ->
        startsWith (generateComparisonSummary a) (js "**") = true)
    /\ generateComparisonSummary a <> [].
Proof.
  intros a comparisons prosCons.
  assert (Hcases : (comparisons = [] /\ prosCons = ([], [])
                    /\ generateComparisonSummary a = noComparisons)
                   \/ (~ (comparisons = [] /\ prosCons = ([], []))
                       /\ startsWith (generateComparisonSummary a) (js "**") = true)).
  { unfold generateComparisonSummary, generateProsConsList.
    fold comparisons. fold prosCons.
    clearbody comparisons prosCons. destruct prosCons as [pros cons].
    destruct comparisons as [|c cs].
    - cbn [length Nat.ltb Nat.leb app].
      destruct pros as [|p pros].
      + destruct cons as [|q cons].
        * left. repeat split; reflexivity.
        * right. split; [intros [_ H]; discriminate H|].
          destruct (join_bullets_head (q :: cons)) as [t Ht]; [discriminate|].
          rewrite Ht. cbn [firstn map join app js].
          match goal with
          | |- context [str_eqb ?x ?y] => destruct (str_eqb x y) eqn:E
          end.
          -- apply str_eqb_eq in E. discriminate E.
          -- reflexivity.
      + right. split; [intros [_ H]; discriminate H|].
        destruct (join_bullets_head (p :: pros)) as [t Ht]; [discriminate|].
        rewrite Ht. cbn [app js].
        match goal with
        | |- context [str_eqb ?x ?y] => destruct (str_eqb x y) eqn:E
        end.
        -- apply str_eqb_eq in E. discriminate E.
        -- reflexivity.
    - right. split; [intros [H _]; discriminate H|].
      cbn [length Nat.ltb Nat.leb app].
      match goal with
      | |- context [str_eqb ?x ?y] => destruct (str_eqb x y)
      end; reflexivity. }
  split; [|split].
  - intros H. destruct Hcases as [[_ [_ H']]|[H' _]]; [exact H'|contradiction].
  - intros H. destruct Hcases as [[H1 [H2 _]]|[_ H']]; [tauto|exact H'].
  - destruct Hcases as [[_ [_ H]]|[_ H]].
    + rewrite H. discriminate.
    + intros E. rewrite E in H. discriminate H.
Qed.

Lemma timeline_entries_none (ss dates : list jsstring) :
  (forall d s, In d dates -> In s ss -> includes s d = false) ->
  flat_map (fun date =>
              match filter (fun s => includes s date) ss with
              | first :: _ => [js "**" ++ date ++ js "**: " ++ trim first]
              | [] => []
              end) dates = [].
Proof.
  intros H. induction dates as [|d dates IH]; [reflexivity|].
  cbn [flat_map]. rewrite IH by (intros d' s Hd Hs; apply H; [right; exact Hd|exact Hs]).
  assert (Hf : filter (fun s => includes s d) ss = []).
  { assert (Hd : forall s, In s ss -> includes s d = false)
      by (intros s Hs; apply H; [left; reflexivity|exact Hs]).
    clear - Hd. induction ss as [|s ss IHs]; [reflexivity|].
    cbn [filter]. rewrite (Hd s) by (left; reflexivity).
    apply IHs. intros s' Hs'. apply Hd. right. exact Hs'. }
  rewrite Hf. reflexivity.
Qed.

(** X23: dates that no sentence holds give an empty timeline, not the
    notice: the notice is for an analysis without dates only. *)
Theorem timeline_empty_without_notice :
  forall a,
    dates a <> [] ->
    (forall d s, In d (dates a) -> In s (sentences a) -> includes s d = false) ->
    generateTimeline a = [].
Proof.
  intros a Hd Hnone. unfold generateTimeline.
  destruct (dates a) as [|d ds] eqn:E; [congruence|].
  cbn [length Nat.eqb]. rewrite (timeline_entries_none (sentences a) (d :: ds) Hnone).
  reflexivity.
Qed.

(** X23 on a text whose date comes after the last full stop. *)
Lemma timeline_empty_without_notice_witness :
  (dates (analyzeContent asciiLower (js datedNoteText)) = [js "12/05/2024"]
   /\ sentences (analyzeContent asciiLower (js datedNoteText)) = [js "Done."])
  /\ generateTimeline (analyzeContent asciiLower (js datedNoteText)) = [].
Proof.
  assert (H1 : dates (analyzeContent asciiLower (js datedNoteText)) = [js "12/05/2024"])
    by (vm_compute; reflexivity).
  assert (H2 : sentences (analyzeContent asciiLower (js datedNoteText)) = [js "Done."])
    by (vm_compute; reflexivity).
  split; [split; assumption|].
  apply timeline_empty_without_notice.
  - rewrite H1. discriminate.
  - rewrite H1, H2. intros d s [<-|[]] [<-|[]]. vm_compute. reflexivity.
Defined.


(** ** Keywords by count *)

Lemma insertDesc_filter_out {A} (key : A -> Z) (p : A -> bool) (x : A) (l : list A) :
  p x = false -> filter p (insertDesc key x l) = filter p l.
Proof.
  intros Hx. induction l as [|y l IH]; cbn [insertDesc filter].
  - rewrite Hx. reflexivity.
  - destruct (key y <=? key x)%Z; cbn [filter]; [rewrite Hx; reflexivity|].
    rewrite IH. reflexivity.
Qed.

Lemma insertDesc_filter_in {A} (key : A -> Z) (v : Z) (x : A) (l : list A) :
  key x = v ->
  filter (fun e => (key e =? v)%Z) (insertDesc key x l)
  = x :: filter (fun e => (key e =? v)%Z) l.
Proof.
  intros Hx. induction l as [|y l IH]; cbn [insertDesc filter].
  - rewrite Hx, Z.eqb_refl. reflexivity.
  - destruct (key y <=? key x)%Z eqn:E; cbn [filter].
    + rewrite Hx, Z.eqb_refl. reflexivity.
    + apply Z.leb_gt in E. rewrite IH.
      destruct (Z.eqb_spec (key y) v) as [Hy|_]; [lia|reflexivity].
Qed.

Lemma sortDesc_stable {A} (key : A -> Z) (v : Z) (l : list A) :
  filter (fun e => (key e =? v)%Z) (sortDesc key l)
  = filter (fun e => (key e =? v)%Z) l.
Proof.
  induction l as [|x l IH]; [reflexivity|].
  cbn [sortDesc fold_right filter]. fold (sortDesc key l).
  destruct (Z.eqb_spec (key x) v) as [Hx|Hx].
  - rewrite (insertDesc_filter_in key v x _ Hx), IH. reflexivity.
  - rewrite insertDesc_filter_out, IH; [reflexivity|].
    apply Z.eqb_neq, Hx.
Qed.

(** X24: the keywords by count, from which the main themes, the technical
    concepts and the implied question take their first entries, are the
    entries of the table rearranged so that no entry comes before one with
    a higher count; entries with the same count keep the order in which
    the table lists them. *)
Theorem keywords_by_count :
  forall m : omap nat,
    Permutation (byCount m) m
    /\ StronglySorted (fun e e' => snd e' <= snd e) (byCount m)
    /\ forall n, filter (fun e => snd e =? n) (byCount m)
                 = filter (fun e => snd e =? n) m.
Proof.
  intros m. unfold byCount. split; [apply sortDesc_perm|]. split.
  - eapply StronglySorted_impl;
      [|apply (sortDesc_sorted (fun e : jsstring * nat => Z.of_nat (snd e)))].
    cbn. intros x y Hxy. lia.
  - intros n.
    pose proof (sortDesc_stable (fun e : jsstring * nat => Z.of_nat (snd e))
                  (Z.of_nat n) m) as H.
    assert (Hext : forall l : omap nat,
               filter (fun e => (Z.of_nat (snd e) =? Z.of_nat n)%Z) l
               = filter (fun e => snd e =? n) l).
    { intros l. apply filter_ext. intros e.
      destruct (Nat.eqb_spec (snd e) n) as [->|Hne].
      - apply Z.eqb_refl.
      - apply Z.eqb_neq. lia. }
    rewrite !Hext in H. exact H.
Qed.

(** ** What the result depends on *)

(** X25: when no file is given, the file system is not consulted: two
    hosts that read the same clock give the same result, and for the
    formats without a timestamp any two hosts do. *)
Theorem text_input_reads_no_file :
  forall lower h h' args,
    notProvided (file args) ->
    clock h = clock h'
    \/ stamped (orDefault (format args) (js "markdown")) = false ->
    execute lower h args = execute lower h' args.
Proof.
  intros lower h h' args Hfile Hhost. unfold notProvided in Hfile.
  assert (Hsum : forall c, summarize lower h args c = summarize lower h' args c).
  { intros c. unfold summarize. destruct Hhost as [Hc|Hst].
    - rewrite Hc. reflexivity.
    - match goal with
      | |- context [formatOutput (clock h) ?s ?f ?m] =>
          rewrite (formatOutput_unstamped (clock h) (clock h') s f m Hst)
      end.
      reflexivity. }
  unfold execute.
  destruct (negb (truthy_opt (text args)) && negb (truthy_opt (file args)));
    [reflexivity|].
  destruct (truthy_opt (text args) && truthy_opt (file args)); [reflexivity|].
  destruct ((orDefault (abstraction_level args) 3 <? 1)%float
            || (5 <? orDefault (abstraction_level args) 3)%float); [reflexivity|].
  destruct (file args) as [[|c f]|]; try apply Hsum.
  cbn in Hfile. discriminate Hfile.
Qed.

(** X25 on the one-line example: a host without files and a host whose
    every path holds an empty file, at different instants. *)
Lemma text_input_reads_no_file_witness :
  (notProvided (file (textArgs foxText "auto" "markdown"))
   /\ stamped (orDefault (format (textArgs foxText "auto" "markdown")) (js "markdown"))
      = false)
  /\ execute asciiLower bareHost (textArgs foxText "auto" "markdown")
     = execute asciiLower (hostAt (fun _ => FileContent []) laterClock)
         (textArgs foxText "auto" "markdown").
Proof.
  assert (H1 : notProvided (file (textArgs foxText "auto" "markdown")))
    by reflexivity.
  assert (H2 : stamped (orDefault (format (textArgs foxText "auto" "markdown"))
                                  (js "markdown")) = false) by reflexivity.
  split; [split; assumption|].
  apply (text_input_reads_no_file asciiLower bareHost
           (hostAt (fun _ => FileContent []) laterClock)
           (textArgs foxText "auto" "markdown") H1).
  right. exact H2.
Defined.
